(** * The RainbondPackage controller: a shallow embedding

  This development embeds [controllers/rainbondpackage_controller.go] of
  the rainbond operator: the condition store, the stage gatekeeper, the
  image distributor and the [Reconcile] entry point.  Everything outside
  the controller (the API server, the image engine, the file system, the
  clock, the download and unpack helpers) is an explicit environment: an
  oracle record [Env] that answers each external call, and a [World]
  that records the calls made so far. *)

From Stdlib Require Import ZArith Lia Ascii String.
From stdpp Require Import base decidable option list strings.

Local Open Scope Z_scope.
Local Open Scope string_scope.

(** ** Go's [strings] package, on Rocq strings *)

Module gostrings.

(** [strings.HasPrefix(s, prefix)] *)
Fixpoint HasPrefix (s prefix : string) : bool :=
  match prefix, s with
  | EmptyString, _ => true
  | String p ps, String c cs => if Ascii.eqb p c then HasPrefix cs ps else false
  | String _ _, EmptyString => false
  end.

(** [strings.HasSuffix(s, suffix)]:
    [len(s) >= len(suffix) && s[len(s)-len(suffix):] == suffix] *)
Definition HasSuffix (s suffix : string) : bool :=
  (String.length suffix <=? String.length s)%nat
  && String.eqb
       (substring (String.length s - String.length suffix)
                  (String.length suffix) s)
       suffix.

(** [strings.Contains(s, substr)] *)
Fixpoint Contains (s substr : string) : bool :=
  HasPrefix s substr ||
  match s with
  | EmptyString => false
  | String _ cs => Contains cs substr
  end.

(** [strings.Replace(s, old, new, -1)] for a non-empty [old] (the only
    use the controller makes of it): occurrences are replaced left to
    right and do not overlap.  [skip] counts the characters of an
    occurrence that are still to be dropped. *)
Fixpoint replaceFrom (old new : string) (skip : nat) (s : string) : string :=
  match s with
  | EmptyString => EmptyString
  | String c cs =>
      match skip with
      | S k => replaceFrom old new k cs
      | O =>
          if HasPrefix s old
          then new +:+ replaceFrom old new (String.length old - 1) cs
          else String c (replaceFrom old new O cs)
      end
  end.

Definition ReplaceAll (s old new : string) : string := replaceFrom old new O s.

End gostrings.

(** ** Go's [path] package *)

Module gopath.

Definition slash : ascii := "/"%char.
Definition dot : ascii := "."%char.

(** [strings.Split(s, "/")] *)
Fixpoint splitOn (sep : ascii) (s : string) : list string :=
  match s with
  | EmptyString => [EmptyString]
  | String c cs =>
      let r := splitOn sep cs in
      if Ascii.eqb c sep then EmptyString :: r
      else match r with
           | h :: t => String c h :: t
           | [] => [String c EmptyString]
           end
  end.

Fixpoint joinWith (sep : string) (l : list string) : string :=
  match l with
  | [] => EmptyString
  | [x] => x
  | x :: rest => x +:+ sep +:+ joinWith sep rest
  end.

(** One element of the path in [Clean]: empty and [.] elements vanish,
    [..] removes the element before it (or stays, in front of a path that
    is not rooted).  [out] is the cleaned path so far, last element first. *)
Definition cleanStep (rooted : bool) (out : list string) (elem : string)
  : list string :=
  if String.eqb elem "" || String.eqb elem "." then out
  else if String.eqb elem ".." then
    match out with
    | top :: rest =>
        if String.eqb top ".." then (if rooted then out else elem :: out)
        else rest
    | [] => if rooted then [] else [elem]
    end
  else elem :: out.

(** [path.Clean] *)
Definition Clean (p : string) : string :=
  match p with
  | EmptyString => "."
  | String c _ =>
      let rooted := Ascii.eqb c slash in
      let out := rev (fold_left (cleanStep rooted) (splitOn slash p) []) in
      let body := joinWith "/" out in
      if rooted then "/" +:+ body
      else if String.eqb body "" then "." else body
  end.

(** [path.Join]: the non-empty elements joined by a slash, then cleaned;
    the empty string when every element is empty. *)
Definition Join (elem : list string) : string :=
  match filter (fun e => e ≠ "") elem with
  | [] => ""
  | l => Clean (joinWith "/" l)
  end.

Fixpoint dropTrailingSlashes (s : string) : string :=
  match s with
  | EmptyString => EmptyString
  | String c cs =>
      match dropTrailingSlashes cs with
      | EmptyString => if Ascii.eqb c slash then EmptyString else String c EmptyString
      | r => String c r
      end
  end.

(** [path.Base] *)
Definition Base (p : string) : string :=
  match p with
  | EmptyString => "."
  | _ =>
      match dropTrailingSlashes p with
      | EmptyString => "/"
      | q => default q (last (splitOn slash q))
      end
  end.

(** [path.Ext]: the suffix that starts at the last dot of the last
    element of the path, empty when that element has no dot. *)
Fixpoint Ext (p : string) : string :=
  match p with
  | EmptyString => EmptyString
  | String c cs =>
      match Ext cs with
      | EmptyString =>
          if Ascii.eqb c dot && negb (gostrings.Contains cs "/") then p
          else EmptyString
      | e => e
      end
  end.

End gopath.


(** ** Image references ([github.com/docker/distribution/reference])

    The grammar the package documents:
<<
    reference        := name [ ":" tag ] [ "@" digest ]
    name             := [domain '/'] path-component ['/' path-component]*
    domain           := domain-component ['.' domain-component]* [':' port-number]
    domain-component := /([a-zA-Z0-9]|[a-zA-Z0-9][a-zA-Z0-9-]*[a-zA-Z0-9])/
    port-number      := /[0-9]+/
    path-component   := alpha-numeric [separator alpha-numeric]*
    alpha-numeric    := /[a-z0-9]+/
    separator        := /[_.]|__|[-]*/
    tag              := /[\w][\w.-]{0,127}/
>>
    [Parse] matches the whole string against it; the name is split into a
    domain and a path at its first slash when what precedes that slash is
    a domain.  Which digests are well formed is left to [validDigest]. *)

Module reference.

Definition inRange (lo hi c : ascii) : bool :=
  (nat_of_ascii lo <=? nat_of_ascii c)%nat && (nat_of_ascii c <=? nat_of_ascii hi)%nat.
Definition isDigit (c : ascii) : bool := inRange "0" "9" c.
Definition isLower (c : ascii) : bool := inRange "a" "z" c.
Definition isUpper (c : ascii) : bool := inRange "A" "Z" c.
Definition isLowerAlnum (c : ascii) : bool := isLower c || isDigit c.
Definition isAlnum (c : ascii) : bool := isLower c || isUpper c || isDigit c.
Definition isWord (c : ascii) : bool := isAlnum c || Ascii.eqb c "_".

Fixpoint allChars (f : ascii -> bool) (s : string) : bool :=
  match s with
  | EmptyString => true
  | String c cs => f c && allChars f cs
  end.

Definition lastChar (s : string) : option ascii :=
  last (list_ascii_of_string s).

(** Where the automaton of a path-component stands. *)
Inductive pcState :=
| pcStart        (* nothing read *)
| pcAlnum        (* after an alpha-numeric character *)
| pcSep          (* after [.] or [__]: an alpha-numeric must follow *)
| pcUnderscore   (* after one [_] *)
| pcDash.        (* after one or more [-] *)

Fixpoint pathComponentFrom (st : pcState) (s : string) : bool :=
  match s with
  | EmptyString => match st with pcAlnum => true | _ => false end
  | String c cs =>
      if isLowerAlnum c then pathComponentFrom pcAlnum cs
      else
        match st with
        | pcAlnum =>
            if Ascii.eqb c "." then pathComponentFrom pcSep cs
            else if Ascii.eqb c "_" then pathComponentFrom pcUnderscore cs
            else if Ascii.eqb c "-" then pathComponentFrom pcDash cs
            else false
        | pcUnderscore =>
            if Ascii.eqb c "_" then pathComponentFrom pcSep cs else false
        | pcDash =>
            if Ascii.eqb c "-" then pathComponentFrom pcDash cs else false
        | pcStart | pcSep => false
        end
  end.

Definition isPathComponent (s : string) : bool := pathComponentFrom pcStart s.

Definition isDomainComponent (s : string) : bool :=
  match s with
  | EmptyString => false
  | String c _ =>
      isAlnum c
      && allChars (fun x => isAlnum x || Ascii.eqb x "-") s
      && match lastChar s with Some l => isAlnum l | None => false end
  end.

Definition isPort (s : string) : bool :=
  negb (String.eqb s "") && allChars isDigit s.

Definition isHost (s : string) : bool :=
  forallb isDomainComponent (gopath.splitOn "." s).

Definition isDomain (s : string) : bool :=
  match gopath.splitOn ":" s with
  | [h] => isHost h
  | [h; p] => isHost h && isPort p
  | _ => false
  end.

Definition isTag (s : string) : bool :=
  match s with
  | EmptyString => false
  | String c cs =>
      isWord c
      && allChars (fun x => isWord x || Ascii.eqb x "." || Ascii.eqb x "-") cs
      && (String.length cs <=? 127)%nat
  end.

(** A parsed reference: the repository (domain and path), and the tag and
    the digest, empty when absent.  Every reference [Parse] returns has a
    name, so it is a [reference.Named]; it is a [reference.Tagged] exactly
    when its tag is not empty. *)
Record Reference := {
  domain : string;
  path : string;
  tag : string;
  digest : string
}.

Definition NameTotalLengthMax : nat := 255.

(** The two capture groups of [anchoredNameRegexp]. *)
Definition splitName (name : string) : option (string * string) :=
  match gopath.splitOn "/" name with
  | d :: (_ :: _) as rest =>
      if isDomain d && forallb isPathComponent rest
      then Some (d, gopath.joinWith "/" rest)
      else if forallb isPathComponent (d :: rest) then Some ("", name)
      else None
  | comps => if forallb isPathComponent comps then Some ("", name) else None
  end.

(** [s] cut at the first [sep]; [None] when [sep] does not occur. *)
Fixpoint cutFirst (sep : ascii) (s : string) : option (string * string) :=
  match s with
  | EmptyString => None
  | String c cs =>
      if Ascii.eqb c sep then Some (EmptyString, cs)
      else match cutFirst sep cs with
           | Some (a, b) => Some (String c a, b)
           | None => None
           end
  end.

(** [s] cut at its last colon, when that colon lies after the last slash. *)
Fixpoint cutTag (s : string) : option (string * string) :=
  match s with
  | EmptyString => None
  | String c cs =>
      match cutTag cs with
      | Some (a, b) => Some (String c a, b)
      | None =>
          if Ascii.eqb c ":" && negb (gostrings.Contains cs "/")
          then Some (EmptyString, cs) else None
      end
  end.

(** [reference.Parse]; [None] stands for its errors. *)
Definition Parse (validDigest : string -> bool) (s : string) : option Reference :=
  let (nt, dg) := match cutFirst "@" s with
                  | Some (a, b) => (a, Some b)
                  | None => (s, None)
                  end in
  let (name, tg) := match cutTag nt with
                    | Some (a, b) => (a, Some b)
                    | None => (nt, None)
                    end in
  if negb (from_option isTag true tg) then None
  else if negb (from_option validDigest true dg) then None
  else
    match splitName name with
    | None => None
    | Some (d, p) =>
        if (NameTotalLengthMax <? String.length name)%nat then None
        else Some {| domain := d; path := p;
                     tag := default "" tg; digest := default "" dg |}
    end.

(** [Named.Name()] *)
Definition Name (r : Reference) : string :=
  if String.eqb (domain r) "" then path r else domain r +:+ "/" +:+ path r.

(** [reference.Path(named)]: the name without its domain. *)
Definition Path (r : Reference) : string := path r.

End reference.

(** ** The API types

    Modelled from the spec: the types of package [api/v1alpha1]
    (RainbondPackage, RainbondCluster and their conditions) are declared
    outside the controller.  The condition types and statuses are string
    types with the constants below; the controller only ever stores these
    constants. *)

Inductive PackageConditionType :=
| Init | DownloadPackage | UnpackPackage | PushImage | Ready.

Inductive PackageConditionStatus :=
| Waiting | Running | Completed | Failed.

#[global] Instance PackageConditionType_eq_dec : EqDecision PackageConditionType.
Proof. solve_decision. Defined.
#[global] Instance PackageConditionStatus_eq_dec : EqDecision PackageConditionStatus.
Proof. solve_decision. Defined.

(** [metav1.Time], as an abstract time stamp. *)
Definition Time := Z.

Record PackageCondition := {
  Type_ : PackageConditionType;
  Status : PackageConditionStatus;
  LastHeartbeatTime : Time;
  LastTransitionTime : Time;
  Reason : string;
  Message : string;
  Progress : Z
}.

Record RainbondPackageStatus := {
  Conditions : list PackageCondition;
  ImagesNumber : Z;                (* int32 *)
  ImagesPushed : list string       (* the Name of each RainbondPackageImage *)
}.

Record RainbondPackageSpec := {
  PkgPath : string;
  ImageHubUser : string;
  ImageHubPass : string
}.

Record RainbondPackage := {
  PackageSpec : RainbondPackageSpec;
  PackageStatus : RainbondPackageStatus
}.

Inductive InstallationMode :=
| InstallationModeFullOnline
| InstallationModeOther (name : string).

Record ImageHub := {
  Domain : string;
  Namespace : string;
  Username : string;
  Password : string
}.

Record RainbondClusterSpec := {
  ConfigCompleted : bool;
  InstallMode : InstallationMode;
  InstallVersion : string;
  CIVersion : string;
  RainbondImageRepository : string;
  ImageHubOf : option ImageHub       (* Spec.ImageHub, a pointer *)
}.

Inductive RainbondClusterConditionType :=
| RainbondClusterConditionTypeImageRepository
| RainbondClusterConditionTypeOther (name : string).

Inductive ConditionStatus := ConditionTrue | ConditionFalse | ConditionUnknown.

Record RainbondClusterCondition := {
  ClusterConditionType : RainbondClusterConditionType;
  ClusterConditionStatus : ConditionStatus
}.

Record RainbondCluster := {
  ClusterSpec : RainbondClusterSpec;
  ClusterConditions : list RainbondClusterCondition   (* Status.Conditions *)
}.

#[global] Instance InstallationMode_eq_dec : EqDecision InstallationMode.
Proof. solve_decision. Defined.
#[global] Instance RainbondClusterConditionType_eq_dec :
  EqDecision RainbondClusterConditionType.
Proof. solve_decision. Defined.
#[global] Instance ConditionStatus_eq_dec : EqDecision ConditionStatus.
Proof. solve_decision. Defined.

(** Modelled from the spec: [RainbondClusterStatus.GetCondition] is declared
    with the API types; it finds the condition of a type, and the
    controller reads a missing one as index [-1]. *)
Fixpoint GetCondition (t : RainbondClusterConditionType)
  (cs : list RainbondClusterCondition) : option RainbondClusterCondition :=
  match cs with
  | [] => None
  | c :: rest =>
      if decide (ClusterConditionType c = t) then Some c else GetCondition t rest
  end.

(** [reconcile.Result]: [RequeueAfter] in seconds, [0] for none. *)
Record Result := { RequeueAfter : Z }.

(** A Go [error], by its message. *)
Definition error := string.

(** ** 32-bit integers *)

Definition wrap32 (z : Z) : Z := (z + 2 ^ 31) mod 2 ^ 32 - 2 ^ 31.

(** ** The environment

    What the outside world answers.  Each oracle sees the calls made so
    far (the newest first) and the arguments of the call. *)

(** One message of the stream an image-engine call returns, or what the
    JSON decoder reports when the stream is not a message. *)
Inductive StreamItem :=
| JSONMessage (stream : string) (err : option string)
| DecodeError (e : error).

Inductive Response :=
| CallError (e : error)
| NoBody
| Body (items : list StreamItem).

(** One call of the walk function by [filepath.Walk]: the path, the error
    the walk met there if any, and what [commonutil.IsFile] says of it. *)
Record Visit := {
  visitPath : string;
  visitErr : option error;
  visitIsFile : bool
}.

Definition AuthConfig : Type := string * string.    (* Username, Password *)

Inductive Event :=
| EvGetPackage
| EvGetCluster
| EvStatusUpdate (st : RainbondPackageStatus)
| EvNewDockerClient
| EvImageList (image ref : string)
| EvImagePull (image ref : string) (auth : option AuthConfig)
| EvImageTag (source target : string)
| EvImagePush (image : string) (auth : option AuthConfig)
| EvImageLoad (file : string)
| EvOpen (file : string)
| EvCheckMD5 (file wanted : string)
| EvDownload (url saved : string)
| EvMkdirAll (dir : string)
| EvUntartar (src dst : string).

Record Env := {
  (* the [n]-th reading of the clock *)
  now : nat -> Time;
  (* an error of the API server on reading the package or the cluster *)
  getPackageError : list Event -> option error;
  getClusterError : list Event -> option error;
  (* the outcome of a status write, conflicts retried *)
  statusUpdate : list Event -> RainbondPackageStatus -> option error;
  newDockerClient : list Event -> option error;
  (* the image engine *)
  imageList : list Event -> string -> error + nat;
  imagePullR : list Event -> string -> option AuthConfig -> Response;
  imageTag : list Event -> string -> string -> option error;
  imagePushR : list Event -> string -> option AuthConfig -> Response;
  imageLoadR : list Event -> string -> Response;
  (* the file system and the helpers that work on it *)
  openFile : list Event -> string -> option error;
  checkMD5 : list Event -> string -> string -> option error;
  (* a transfer: the skewed percentages the reporter sees while it runs *)
  download : list Event -> list Z * option error;
  (* an extraction: what the reporter finds under the destination at each
     tick, what is there in the end, and the outcome *)
  untartarR : list Event -> list (list Visit) * list Visit * option error;
  (* library functions and constants declared outside the controller *)
  validDigest : string -> bool;
  ParseAnyReference : string -> error + string;
  DefImageRepository : string;
  GetImageRepository : RainbondCluster -> string;
  (* the order in which a [range] visits the entries of the image map *)
  rangeOrder : list (string * string) -> list (string * string)
}.

Record World := {
  ticks : nat;                            (* clock readings so far *)
  trace : list Event;                     (* external calls, newest first *)
  apiPackage : option RainbondPackage;    (* the stored package, if any *)
  apiCluster : option RainbondCluster;
  files : list Visit                      (* what a walk of [pkgDst] visits *)
}.

(** ** A state monad with panics *)

Inductive Res (S A : Type) :=
| Ret (a : A) (s : S)
| Panicked.
Arguments Ret {S A} a s.
Arguments Panicked {S A}.

Definition M (S A : Type) : Type := S -> Res S A.

#[global] Instance M_ret {S} : MRet (M S) := fun A a s => Ret a s.
#[global] Instance M_bind {S} : MBind (M S) := fun A B f m s =>
  match m s with
  | Ret a s' => f a s'
  | Panicked => Panicked
  end.

Definition get {S} : M S S := fun s => Ret s s.
Definition modify {S} (f : S -> S) : M S unit := fun s => Ret tt (f s).
Definition panic {S A} : M S A := fun _ => Panicked.

(** [for _, x := range l { body }], where the body says whether to stop
    ([Some r], a [return r]) or to go on ([None]). *)
Fixpoint forRange {S A R} (l : list A) (body : A -> M S (option R))
  : M S (option R) :=
  match l with
  | [] => mret None
  | x :: rest =>
      r ← body x;
      match r with
      | Some v => mret (Some v)
      | None => forRange rest body
      end
  end.

Definition setTicks (n : nat) (w : World) : World :=
  {| ticks := n; trace := trace w; apiPackage := apiPackage w;
     apiCluster := apiCluster w; files := files w |}.
Definition setTrace (t : list Event) (w : World) : World :=
  {| ticks := ticks w; trace := t; apiPackage := apiPackage w;
     apiCluster := apiCluster w; files := files w |}.
Definition setApiPackage (p : option RainbondPackage) (w : World) : World :=
  {| ticks := ticks w; trace := trace w; apiPackage := p;
     apiCluster := apiCluster w; files := files w |}.
Definition setFiles (f : list Visit) (w : World) : World :=
  {| ticks := ticks w; trace := trace w; apiPackage := apiPackage w;
     apiCluster := apiCluster w; files := f |}.

(** ** The controller *)

(** The handler [pkg] of one pass. *)
Record pkg := {
  pkg_ : RainbondPackage;              (* the field [pkg] *)
  cluster : RainbondCluster;
  downloadPackage : bool;
  localPackagePath : string;
  downloadPackageURL : string;
  downloadPackageMD5 : string;
  downloadImageDomain : string;
  pushImageDomain : string;
  totalImageNum : Z;                   (* int32 *)
  images : list (string * string);     (* the map, as its key/value pairs *)
  version : string
}.

(** The state of a pass once the handler exists. *)
Record St := { p : pkg; w : World }.

Definition setW (w' : World) (s : St) : St := {| p := p s; w := w' |}.
Definition setP (p' : pkg) (s : St) : St := {| p := p'; w := w s |}.

Definition withStatus (st : RainbondPackageStatus) (k : RainbondPackage)
  : RainbondPackage :=
  {| PackageSpec := PackageSpec k; PackageStatus := st |}.

Definition withPkg (k : RainbondPackage) (h : pkg) : pkg :=
  {| pkg_ := k; cluster := cluster h; downloadPackage := downloadPackage h;
     localPackagePath := localPackagePath h;
     downloadPackageURL := downloadPackageURL h;
     downloadPackageMD5 := downloadPackageMD5 h;
     downloadImageDomain := downloadImageDomain h;
     pushImageDomain := pushImageDomain h;
     totalImageNum := totalImageNum h; images := images h;
     version := version h |}.

Definition status (s : St) : RainbondPackageStatus := PackageStatus (pkg_ (p s)).
Definition conditions (s : St) : list PackageCondition := Conditions (status s).

Definition setStatus (st : RainbondPackageStatus) (s : St) : St :=
  setP (withPkg (withStatus st (pkg_ (p s))) (p s)) s.

Definition setConditions (cs : list PackageCondition) (s : St) : St :=
  setStatus {| Conditions := cs; ImagesNumber := ImagesNumber (status s);
               ImagesPushed := ImagesPushed (status s) |} s.
Definition setImagesNumber (n : Z) (s : St) : St :=
  setStatus {| Conditions := conditions s; ImagesNumber := n;
               ImagesPushed := ImagesPushed (status s) |} s.
Definition setImagesPushed (l : list string) (s : St) : St :=
  setStatus {| Conditions := conditions s;
               ImagesNumber := ImagesNumber (status s);
               ImagesPushed := l |} s.

(** A computation on the world, run inside a pass. *)
Definition liftW {A} (m : M World A) : M St A := fun s =>
  match m (w s) with
  | Ret a w' => Ret a (setW w' s)
  | Panicked => Panicked
  end.

(** The fields of a condition that the store assigns. *)
Definition withCondStatus (v : PackageConditionStatus) (c : PackageCondition) :=
  {| Type_ := Type_ c; Status := v; LastHeartbeatTime := LastHeartbeatTime c;
     LastTransitionTime := LastTransitionTime c; Reason := Reason c;
     Message := Message c; Progress := Progress c |}.
Definition withHeartbeat (t : Time) (c : PackageCondition) :=
  {| Type_ := Type_ c; Status := Status c; LastHeartbeatTime := t;
     LastTransitionTime := LastTransitionTime c; Reason := Reason c;
     Message := Message c; Progress := Progress c |}.
Definition withTransition (t : Time) (c : PackageCondition) :=
  {| Type_ := Type_ c; Status := Status c;
     LastHeartbeatTime := LastHeartbeatTime c;
     LastTransitionTime := t; Reason := Reason c;
     Message := Message c; Progress := Progress c |}.
Definition withReason (r m : string) (c : PackageCondition) :=
  {| Type_ := Type_ c; Status := Status c;
     LastHeartbeatTime := LastHeartbeatTime c;
     LastTransitionTime := LastTransitionTime c; Reason := r;
     Message := m; Progress := Progress c |}.
Definition withProgress (n : Z) (c : PackageCondition) :=
  {| Type_ := Type_ c; Status := Status c;
     LastHeartbeatTime := LastHeartbeatTime c;
     LastTransitionTime := LastTransitionTime c; Reason := Reason c;
     Message := Message c; Progress := n |}.

Definition errorClusterConfigNotReady : error := "cluster config can not be ready".
Definition errorClusterConfigNoLocalHub : error :=
  "cluster spec not have local image hub info ".
Definition pkgDst : string := "/opt/rainbond/pkg/files".

Section Controller.

Variable E : Env.

(** [metav1.Now()] *)
Definition Now : M World Time := fun w0 =>
  Ret (now E (ticks w0)) (setTicks (S (ticks w0)) w0).

(** An external call is recorded before it is answered. *)
Definition record (ev : Event) : M World unit :=
  modify (fun w0 => setTrace (ev :: trace w0) w0).

Definition newCondition (t : PackageConditionType)
  (v : PackageConditionStatus) : M World PackageCondition :=
  hb ← Now;
  tr ← Now;
  mret {| Type_ := t; Status := v; LastHeartbeatTime := hb;
          LastTransitionTime := tr; Reason := ""; Message := "";
          Progress := 0 |}.

Definition initPackageStatus (v : PackageConditionStatus)
  : M World RainbondPackageStatus :=
  c1 ← newCondition Init v;
  c2 ← newCondition DownloadPackage v;
  c3 ← newCondition UnpackPackage v;
  c4 ← newCondition PushImage v;
  c5 ← newCondition Ready v;
  mret {| Conditions := [c1; c2; c3; c4; c5]; ImagesNumber := 0;
          ImagesPushed := [] |}.

(** The loop of [checkStatusCanReturn]: what it returns from inside the
    loop, or the number of Completed conditions when it runs to the end. *)
Fixpoint checkConditions (cs : list PackageCondition) (completedCount : nat)
  : (bool * option Result) + nat :=
  match cs with
  | [] => inr completedCount
  | cond :: rest =>
      if decide (Status cond = Running)
      then inl (false, Some {| RequeueAfter := 0 |})
      else if decide (Status cond = Failed)      (* have failed conditions, retry *)
      then inl (false, None)
      else checkConditions rest
             (if decide (Status cond = Completed)
              then S completedCount else completedCount)
  end.

(** [checkStatusCanReturn]; the package is returned as the call leaves it. *)
Definition checkStatusCanReturn (k : RainbondPackage)
  : M World (RainbondPackage * (bool * option Result)) :=
  let cs := Conditions (PackageStatus k) in
  if decide (length cs = 0%nat) then
    st ← initPackageStatus Waiting;
    mret (withStatus st k, (true, Some {| RequeueAfter := 0 |}))
  else
    match checkConditions cs 0 with
    | inl r => mret (k, r)
    | inr completedCount =>
        if decide (completedCount = length cs)
        then mret (k, (false, Some {| RequeueAfter := 0 |}))
        else mret (k, (false, None))
    end.

(** The package-level [updateCRStatus]: the status is written over the
    stored one; the retry on conflict is part of the oracle's answer. *)
Definition updateCRStatus (k : RainbondPackage) : M World (option error) :=
  w0 ← get;
  record (EvStatusUpdate (PackageStatus k));;
  match apiPackage w0 with
  | None =>
      mret (Some ("failed to update rainbondpackage status: "
                  +:+ "getting latest rainbond package: not found"))
  | Some latest =>
      match statusUpdate E (trace w0) (PackageStatus k) with
      | Some e => mret (Some ("failed to update rainbondpackage status: " +:+ e))
      | None =>
          modify (setApiPackage (Some (withStatus (PackageStatus k) latest)));;
          mret None
      end
  end.

(** [p.updateCRStatus()] *)
Definition p_updateCRStatus : M St (option error) :=
  s ← get; liftW (updateCRStatus (pkg_ (p s))).

(** [findCondition]: the pointer it returns is the index of the condition,
    given with the condition found there. *)
Fixpoint findIn (typ3 : PackageConditionType) (i : nat)
  (cs : list PackageCondition) : option (nat * PackageCondition) :=
  match cs with
  | [] => None
  | condition :: rest =>
      if decide (Type_ condition = typ3) then Some (i, condition)
      else findIn typ3 (S i) rest
  end.

Definition findCondition (typ3 : PackageConditionType) (s : St)
  : option (nat * PackageCondition) :=
  findIn typ3 0 (conditions s).

(** The loop of [updateConditionStatus] over the conditions. *)
Fixpoint updateStatusIn (typ3 : PackageConditionType)
  (v : PackageConditionStatus) (cs : list PackageCondition)
  : M World (list PackageCondition) :=
  match cs with
  | [] => mret []
  | condition :: rest =>
      if decide (Type_ condition = typ3) then
        c1 ← (if decide (Status condition ≠ v)
              then t ← Now; mret (withTransition t condition)
              else mret condition);
        t ← Now;
        let c2 := withCondStatus v (withHeartbeat t c1) in
        let c3 := if decide (v = Completed)
                  then withReason "" "" (withProgress 100 c2) else c2 in
        mret (c3 :: rest)                                  (* break *)
      else
        rest' ← updateStatusIn typ3 v rest;
        mret (condition :: rest')
  end.

Definition updateConditionStatus (typ3 : PackageConditionType)
  (v : PackageConditionStatus) : M St unit :=
  s ← get;
  cs ← liftW (updateStatusIn typ3 v (conditions s));
  modify (setConditions cs).

Fixpoint updateResionIn (typ3 : PackageConditionType)
  (resion message : string) (cs : list PackageCondition)
  : M World (list PackageCondition) :=
  match cs with
  | [] => mret []
  | condition :: rest =>
      if decide (Type_ condition = typ3) then
        t ← Now;
        mret (withReason resion message (withHeartbeat t condition) :: rest)
      else
        rest' ← updateResionIn typ3 resion message rest;
        mret (condition :: rest')
  end.

Definition updateConditionResion (typ3 : PackageConditionType)
  (resion message : string) : M St unit :=
  s ← get;
  cs ← liftW (updateResionIn typ3 resion message (conditions s));
  modify (setConditions cs).

(** The loop of [updateConditionProgress]: it returns at the first
    condition of the type whose progress it changes, and goes on past one
    whose progress is already the new one. *)
Fixpoint updateProgressIn (typ3 : PackageConditionType) (progress : Z)
  (cs : list PackageCondition) : M World (list PackageCondition * bool) :=
  match cs with
  | [] => mret ([], false)
  | condition :: rest =>
      if decide (Type_ condition = typ3) then
        t ← Now;
        let c1 := withHeartbeat t condition in
        if decide (Progress c1 ≠ progress)
        then mret (withProgress progress c1 :: rest, true)
        else r ← updateProgressIn typ3 progress rest;
             mret (c1 :: r.1, r.2)
      else
        r ← updateProgressIn typ3 progress rest;
        mret (condition :: r.1, r.2)
  end.

Definition updateConditionProgress (typ3 : PackageConditionType)
  (progress : Z) : M St bool :=
  let progress := if decide (progress > 100) then 100 else progress in
  s ← get;
  r ← liftW (updateProgressIn typ3 progress (conditions s));
  modify (setConditions r.1);;
  mret r.2.

Definition completeCondition (con : option (nat * PackageCondition))
  : M St (option error) :=
  match con with
  | None => mret None
  | Some (_, c) =>
      updateConditionStatus (Type_ c) Completed;;
      p_updateCRStatus
  end.

Definition runningCondition (con : option (nat * PackageCondition))
  : M St (option error) :=
  match con with
  | None => mret None
  | Some (_, c) =>
      updateConditionStatus (Type_ c) Running;;
      p_updateCRStatus
  end.

Definition canDownload : M St bool :=
  s ← get;
  match findCondition DownloadPackage s with
  | Some (i, con) =>
      if decide (Status con ≠ Completed) then
        if negb (downloadPackage (p s)) then
          completeCondition (Some (i, con));;
          mret false
        else
          runningCondition (Some (i, con));;
          mret true
      else mret false
  | None => mret false
  end.

Definition canUnpack : M St bool :=
  s ← get;
  match findCondition DownloadPackage s with
  | Some (_, con) =>
      if decide (Status con ≠ Completed) then mret false
      else
        match findCondition UnpackPackage s with
        | Some (j, uncon) =>
            if decide (Status uncon ≠ Completed) then
              if negb (downloadPackage (p s)) then
                completeCondition (Some (j, uncon));;
                mret false
              else
                runningCondition (Some (j, uncon));;
                mret true
            else mret false
        | None => mret false
        end
  | None => mret false
  end.

Definition canPushImage : M St bool :=
  s ← get;
  match findCondition UnpackPackage s with
  | Some (_, uncon) =>
      if decide (Status uncon ≠ Completed) then mret false
      else
        match findCondition PushImage s with
        | Some (_, pcon) =>
            if decide (Status pcon ≠ Completed) then mret true else mret false
        | None => mret false
        end
  | None => mret false
  end.

Definition canReady : M St bool :=
  s ← get;
  match findCondition PushImage s with
  | Some (_, pcon) => mret (bool_decide (Status pcon = Completed))
  | None => mret false
  end.

(** [setInitStatus]: the status is assigned through the pointer that
    [findCondition] returned. *)
Definition setInitStatus : M St (option error) :=
  s ← get;
  match findCondition Init s with
  | Some (i, con) =>
      if decide (Status con ≠ Completed) then
        modify (setConditions (<[i := withCondStatus Completed con]> (conditions s)));;
        p_updateCRStatus
      else mret None
  | None => mret None
  end.

(** *** Cluster configuration *)

Definition isImageRepositoryReady : M St bool :=
  s ← get;
  match GetCondition RainbondClusterConditionTypeImageRepository
          (ClusterConditions (cluster (p s))) with
  | None => mret false                                   (* idx == -1 *)
  | Some condition =>
      mret (bool_decide (ClusterConditionStatus condition = ConditionTrue))
  end.

Definition configByCluster (c : RainbondCluster) : M St (option error) :=
  if negb (ConfigCompleted (ClusterSpec c)) then
    mret (Some errorClusterConfigNotReady)
  else
    ready ← isImageRepositoryReady;
    if negb ready then mret (Some errorClusterConfigNoLocalHub)
    else
      modify (fun s =>
        let h := p s in
        let version :=
          if decide (InstallVersion (ClusterSpec c) ≠ "")
          then InstallVersion (ClusterSpec c) else version h in
        let ciVersion :=
          if decide (CIVersion (ClusterSpec c) = "")
          then "v5.3.3" else CIVersion (ClusterSpec c) in
        setP {| pkg_ := pkg_ h; cluster := cluster h;
                downloadPackage := downloadPackage h;
                localPackagePath := PkgPath (PackageSpec (pkg_ h));
                downloadPackageURL := downloadPackageURL h;
                downloadPackageMD5 := downloadPackageMD5 h;
                downloadImageDomain := downloadImageDomain h;
                pushImageDomain := pushImageDomain h;
                totalImageNum := totalImageNum h;
                images :=
                  [ ("/builder:" +:+ ciVersion, "/builder");
                    ("/runner:" +:+ ciVersion, "/runner");
                    ("/rbd-init-probe:" +:+ version, "/rbd-init-probe");
                    ("/rbd-mesh-data-panel:" +:+ version, "/rbd-mesh-data-panel");
                    ("/plugins-tcm:5.1.7", "/tcm") ];
                version := version |} s);;
      mret None.

Definition setDomains (down push : string) (s : St) : St :=
  let h := p s in
  setP {| pkg_ := pkg_ h; cluster := cluster h;
          downloadPackage := downloadPackage h;
          localPackagePath := localPackagePath h;
          downloadPackageURL := downloadPackageURL h;
          downloadPackageMD5 := downloadPackageMD5 h;
          downloadImageDomain := down;
          pushImageDomain := push;
          totalImageNum := totalImageNum h; images := images h;
          version := version h |} s.

Definition checkClusterConfig : M St (option error) :=
  s ← get;
  let cluster := cluster (p s) in
  r ← configByCluster cluster;
  match r with
  | Some err => mret (Some err)
  | None =>
      modify (fun s =>
        let down := RainbondImageRepository (ClusterSpec cluster) in
        let down := if decide (down = "") then "rainbond" else down in
        let push := pushImageDomain (p s) in
        let push :=
          match ImageHubOf (ClusterSpec cluster) with
          | Some hub =>
              if decide (Namespace hub ≠ "")
              then Domain hub +:+ "/" +:+ Namespace hub
              else Domain hub
          | None => push
          end in
        let push := if decide (push = "") then DefImageRepository E else push in
        setDomains down push s);;
      mret None
  end.

(** *** Calls of the image engine and of the file system *)

(** The event is recorded; the history before it is what the oracle sees. *)
Definition call (ev : Event) : M St (list Event) :=
  s ← get;
  liftW (record ev);;
  mret (trace (w s)).

(** The decoding loop of [imagePush] and [imagePull]. *)
Fixpoint decodeMessages (items : list StreamItem) : option error :=
  match items with
  | [] => None                                             (* io.EOF *)
  | DecodeError e :: _ => Some ("failed to decode json message: " +:+ e)
  | JSONMessage _ (Some e) :: _ => Some ("error detail: " +:+ e)
  | JSONMessage _ None :: rest => decodeMessages rest
  end.

Definition trimLatest (str : string) : string :=
  if negb (gostrings.HasSuffix str ":latest") then str
  else substring 0 (String.length str - String.length ":latest") str.

Definition newline : string := String (ascii_of_nat 10) EmptyString.

Definition parseImageName (str : string) : string :=
  if negb (gostrings.Contains str "Loaded image: ") then ""
  else
    let str := gostrings.ReplaceAll str "Loaded image: " "" in
    let str := gostrings.ReplaceAll str newline "" in
    trimLatest str.

(** The decoding loop of [imageLoad]. *)
Fixpoint decodeLoaded (items : list StreamItem) (imageName : string)
  : error + string :=
  match items with
  | [] => inr imageName
  | DecodeError e :: _ => inl ("failed to decode json message: " +:+ e)
  | JSONMessage _ (Some e) :: _ => inl ("error detail: " +:+ e)
  | JSONMessage msg None :: rest =>
      let image := parseImageName msg in
      decodeLoaded rest (if decide (image ≠ "") then image else imageName)
  end.

Definition imageLoad (file : string) : M St (error + string) :=
  h ← call (EvOpen file);
  match openFile E h file with
  | Some err => mret (inl ("open file " +:+ file +:+ ": " +:+ err))
  | None =>
      h ← call (EvImageLoad file);
      match
        match imageLoadR E h file with
        | CallError err =>
            inl ("path: " +:+ file +:+ "; failed to load images: " +:+ err)
        | NoBody => inr ""
        | Body items => decodeLoaded items ""
        end
      with
      | inl err => mret (inl err)
      | inr imageName =>
          if decide (imageName = "") then mret (inl "not parse image name")
          else mret (inr imageName)
      end
  end.

Definition imagePush (image : string) : M St (option error) :=
  s ← get;
  let auth :=
    match ImageHubOf (ClusterSpec (cluster (p s))) with
    | Some hub =>
        if decide (Username hub ≠ "") then Some (Username hub, Password hub)
        else None
    | None => None
    end in
  h ← call (EvImagePush image auth);
  match imagePushR E h image auth with
  | CallError err => mret (Some err)
  | NoBody => mret None
  | Body items => mret (decodeMessages items)
  end.

Definition imagePull (image : string) : M St (option error) :=
  s ← get;
  match ParseAnyReference E image with
  | inl err => mret (Some err)
  | inr rf =>
      let spec := PackageSpec (pkg_ (p s)) in
      let auth :=
        if decide (ImageHubUser spec ≠ "")
        then Some (ImageHubUser spec, ImageHubPass spec) else None in
      h ← call (EvImagePull image rf auth);
      match imagePullR E h rf auth with
      | CallError err =>
          mret (Some ("pull image " +:+ image +:+ " failure " +:+ err))
      | NoBody => mret None
      | Body items => mret (decodeMessages items)
      end
  end.

Definition ImageTag (source target : string) : M St (option error) :=
  h ← call (EvImageTag source target);
  mret (imageTag E h source target).

Definition validateFile (file : string) : bool :=
  let base := gopath.Base file in
  if negb (String.eqb (gopath.Ext base) ".tgz") || gostrings.HasPrefix base "._"
  then false else true.

(** The walk of [countImages] over what [filepath.Walk] visits. *)
Fixpoint countIn (visits : list Visit) (count : Z) : Z :=
  match visits with
  | [] => count
  | v :: rest =>
      match visitErr v with
      | Some _ => countIn rest count
      | None =>
          if negb (visitIsFile v) then countIn rest count
          else if negb (validateFile (visitPath v)) then countIn rest count
          else countIn rest (wrap32 (count + 1))
      end
  end.

Definition countImages (visits : list Visit) : Z := countIn visits 0.

Definition newImageWithNewDomain (image newDomain : string) : string :=
  match reference.Parse (validDigest E) image with
  | None => ""
  | Some repo =>
      let remoteName := reference.Path repo in
      let tag := if decide (reference.tag repo = "") then "latest"
                 else reference.tag repo in
      gopath.Join [newDomain; remoteName +:+ ":" +:+ tag]
  end.

Definition checkIfImageExists (image : string) : M St (error + bool) :=
  match reference.Parse (validDigest E) image with
  | None =>
      mret (inl ("parse image " +:+ image +:+ ": invalid reference format"))
  | Some repo =>
      let tag := if decide (reference.tag repo = "") then "latest"
                 else reference.tag repo in
      let imageFullName := reference.Name repo +:+ ":" +:+ tag in
      h ← call (EvImageList image imageFullName);
      match imageList E h imageFullName with
      | inl err => mret (inl ("list images: " +:+ err))
      | inr n => mret (inr (bool_decide (0 < n)%nat))
      end
  end.

(** Integer division on [int32]; Go panics on a zero divisor. *)
Definition div32 {S} (a b : Z) : M S Z :=
  if decide (b = 0) then panic else mret (wrap32 (Z.quot a b)).

Definition retryExhausted : error := "still failing after retries".

(** Modelled from the spec: [retryutil.Retry] lives outside the controller.
    A bounded retry: up to [maxRetries] attempts (the delay [interval]
    between two of them is not observable here); the first attempt that
    succeeds ends it, and when every attempt has failed the retry fails. *)
Fixpoint Retry {S} (interval : Z) (maxRetries : nat)
  (f : M S (bool * option error)) : M S (option error) :=
  match maxRetries with
  | O => mret (Some retryExhausted)
  | S n =>
      r ← f;
      match r with
      | (true, None) => mret None
      | (_, err) =>
          match n with
          | O => mret (Some (default retryExhausted err))
          | S _ => Retry interval n f
          end
      end
  end.

(** *** The download stage *)

(** One tick of a progress reporter. *)
Definition reportProgress (typ3 : PackageConditionType) (progress : Z)
  : M St unit :=
  changed ← updateConditionProgress typ3 progress;
  if changed : bool then p_updateCRStatus;; mret tt      (* ignore error *)
  else mret tt.

Fixpoint reportAll (typ3 : PackageConditionType) (samples : list Z)
  : M St unit :=
  match samples with
  | [] => mret tt
  | x :: rest => reportProgress typ3 x;; reportAll typ3 rest
  end.

(** [downloadListener.Download()], with the ticks of the reporter that fall
    into it.  The reporter is not stopped when [donwnloadPackage] returns
    an error; what it does after the return is outside this embedding. *)
Definition Download : M St (option error) :=
  s ← get;
  h ← call (EvDownload (downloadPackageURL (p s)) (localPackagePath (p s)));
  let r := download E h in
  reportAll DownloadPackage r.1;;
  mret r.2.

(** first chack exist file md5 *)
Definition checkExisting : M St bool :=
  s ← get;
  let file := localPackagePath (p s) in
  h ← call (EvOpen file);
  match openFile E h file with
  | Some _ => mret false
  | None =>
      h ← call (EvCheckMD5 file (downloadPackageMD5 (p s)));
      mret (bool_decide (checkMD5 E h file (downloadPackageMD5 (p s)) = None))
  end.

Definition donwnloadPackage : M St (option error) :=
  exists_ ← checkExisting;
  if exists_ : bool then mret None
  else
    r ← Download;
    match r with
    | Some err =>
        updateConditionResion Init err
          "download rainbond package error, will retry";;
        p_updateCRStatus;;
        r ← Download;
        match r with
        | Some err => mret (Some err)
        | None => mret None
        end
    | None => mret None
    end.

(** *** The unpack stage *)

Fixpoint reportUnpack (seen : list (list Visit)) : M St unit :=
  match seen with
  | [] => mret tt
  | visits :: rest =>
      s ← get;
      let num := countImages visits in
      progress ← div32 (wrap32 (num * 100)) (totalImageNum (p s));
      reportProgress UnpackPackage progress;;
      reportUnpack rest
  end.

Definition untartar : M St (option error) :=
  s ← get;
  let src := PkgPath (PackageSpec (pkg_ (p s))) in
  h ← call (EvOpen src);
  match openFile E h src with
  | Some err => mret (Some err)
  | None =>
      call (EvMkdirAll pkgDst);;
      h ← call (EvUntartar src pkgDst);
      let r := untartarR E h in
      reportUnpack r.1.1;;
      liftW (modify (setFiles r.1.2));;
      mret r.2
  end.

(** *** The image distributor *)

(** One attempt at an image: the function that [handleImgae] retries. *)
Definition pullTagPush (remoteImage localImage : string)
  : M St (bool * option error) :=
  r ← checkIfImageExists remoteImage;
  match r with
  | inl err => mret (false, Some ("check if image exists: " +:+ err))
  | inr exists_ =>
      e ← (if exists_ : bool then mret None else imagePull remoteImage);
      match e with
      | Some err =>
          mret (false, Some ("pull image " +:+ remoteImage
                             +:+ " failure " +:+ err))
      | None =>
          e ← ImageTag remoteImage localImage;
          match e with
          | Some err =>
              mret (false, Some ("change image tag(" +:+ remoteImage +:+ " => "
                                 +:+ localImage +:+ ") failure: " +:+ err))
          | None =>
              e ← imagePush localImage;
              match e with
              | Some err =>
                  mret (false, Some ("push image " +:+ localImage
                                     +:+ " failure " +:+ err))
              | None => mret (true, None)
              end
          end
      end
  end.

Definition handleImgae (remoteImage localImage : string) : M St (option error) :=
  Retry 2 3 (pullTagPush remoteImage localImage).

(** The loop of [imagePullAndPush] over the entries of the image map, in
    the order the [range] visits them; [count] is its counter. *)
Fixpoint pullAndPushLoop (entries : list (string * string)) (count : Z)
  : M St (option error) :=
  match entries with
  | [] => mret None
  | (old, new) :: rest =>
      s ← get;
      let remoteImage := gopath.Join [downloadImageDomain (p s); old] in
      let localImage := gopath.Join [pushImageDomain (p s); new] in
      r ← handleImgae remoteImage localImage;
      match r with
      | Some err => mret (Some err)
      | None =>
          let count := wrap32 (count + 1) in
          modify (fun s => setImagesPushed (ImagesPushed (status s) ++ [localImage]) s);;
          s ← get;
          progress ← div32 (wrap32 (count * 100)) (ImagesNumber (status s));
          changed ← updateConditionProgress PushImage progress;
          e ← (if changed : bool then p_updateCRStatus else mret None);
          match e with
          | Some err => mret (Some ("update cr status: " +:+ err))
          | None => pullAndPushLoop rest count
          end
      end
  end.

Definition imagePullAndPush : M St (option error) :=
  s ← get;
  modify (setImagesNumber (wrap32 (Z.of_nat (length (images (p s))))));;
  modify (setImagesPushed []);;
  pullAndPushLoop (rangeOrder E (images (p s))) 0.

(** A closure that assigns a local variable of its function runs on a
    state with that variable in front. *)
Definition liftL {L S A} (m : M S A) : M (L * S) A := fun ls =>
  match m ls.2 with
  | Ret a s' => Ret a (ls.1, s')
  | Panicked => Panicked
  end.
Definition getL {L S} : M (L * S) L := fun ls => Ret ls.1 ls.
Definition putL {L S} (l : L) : M (L * S) unit := fun ls => Ret tt (l, ls.2).
Definition withLocal {L S A} (l : L) (m : M (L * S) A) : M S A := fun s =>
  match m (l, s) with
  | Ret a ls => Ret a ls.2
  | Panicked => Panicked
  end.

(** The closure [f] of [imagesLoadAndPush]; the local is [count]. *)
Definition loadTagPush (pstr : string) : M (Z * St) (bool * option error) :=
  r ← liftL (imageLoad pstr);
  match r with
  | inl err => mret (false, Some ("load image: " +:+ err))
  | inr image =>
      s ← liftL get;
      let newImage :=
        newImageWithNewDomain image (GetImageRepository E (cluster (p s))) in
      if decide (newImage = "") then mret (false, Some "parse image name failure")
      else
        e ← liftL (ImageTag image newImage);
        match e with
        | Some err => mret (false, Some ("tag image: " +:+ err))
        | None =>
            e ← liftL (imagePush newImage);
            match e with
            | Some err =>
                mret (false, Some ("push image " +:+ newImage +:+ ": " +:+ err))
            | None =>
                count ← getL;
                let count := wrap32 (count + 1) in
                putL count;;
                liftL (modify (fun s =>
                  setImagesPushed (ImagesPushed (status s) ++ [newImage]) s));;
                s ← liftL get;
                progress ← div32 (wrap32 (count * 100)) (ImagesNumber (status s));
                changed ← liftL (updateConditionProgress PushImage progress);
                e ← liftL (if changed : bool then p_updateCRStatus else mret None);
                match e with
                | Some err => mret (false, Some ("update cr status: " +:+ err))
                | None => mret (true, None)
                end
            end
        end
  end.

Definition quoted (s : string) : string :=
  let q := String (ascii_of_nat 34) EmptyString in q +:+ s +:+ q.

(** [walkFn] of [imagesLoadAndPush]. *)
Definition walkFn (v : Visit) : M (Z * St) (option error) :=
  match visitErr v with
  | Some err =>
      mret (Some ("prevent panic by handling failure accessing a path "
                  +:+ quoted (visitPath v) +:+ ": " +:+ err))
  | None =>
      if negb (visitIsFile v) then mret None
      else if negb (validateFile (visitPath v)) then mret None
      else Retry 1 3 (loadTagPush (visitPath v))
  end.

Definition imagesLoadAndPush : M St (option error) :=
  s ← get;
  modify (setImagesNumber (countImages (files (w s))));;
  modify (setImagesPushed []);;
  withLocal 0 (forRange (files (w s)) walkFn).

(** *** One pass of the handler *)

(** The body of [if p.canDownload() { ... }] in [handle]. *)
Definition downloadStage : M St (option error) :=
  r ← donwnloadPackage;
  match r with
  | Some err =>
      updateConditionStatus DownloadPackage Failed;;
      updateConditionResion DownloadPackage err "download package failure";;
      p_updateCRStatus;;
      mret (Some ("failed to download package " +:+ err))
  | None =>
      updateConditionStatus DownloadPackage Completed;;
      p_updateCRStatus
  end.

(** The body of [if p.canUnpack() { ... }]. *)
Definition unpackStage : M St (option error) :=
  r ← untartar;
  match r with
  | Some err =>
      updateConditionStatus UnpackPackage Failed;;
      updateConditionResion UnpackPackage err "unpack package failure";;
      p_updateCRStatus;;
      s ← get;
      mret (Some ("failed to untar " +:+ PkgPath (PackageSpec (pkg_ (p s)))
                  +:+ ": " +:+ err))
  | None =>
      updateConditionStatus UnpackPackage Completed;;
      p_updateCRStatus
  end.

(** The body of [if p.canPushImage() { ... }]. *)
Definition pushImageStage : M St (option error) :=
  s ← get;
  r ← (if downloadPackage (p s) then
         (* Deprecated: No longer download the installation package *)
         r ← imagesLoadAndPush;
         match r with
         | Some err =>
             updateConditionStatus PushImage Failed;;
             updateConditionResion PushImage err "load and push images failure";;
             p_updateCRStatus;;
             mret (Some ("failed to load and push images: " +:+ err))
         | None => mret None
         end
       else
         r ← imagePullAndPush;
         match r with
         | Some err =>
             updateConditionStatus PushImage Failed;;
             updateConditionResion PushImage err "pull and push images failure";;
             p_updateCRStatus;;
             mret (Some ("failed to pull and push images: " +:+ err))
         | None => mret None
         end);
  match r with
  | Some err => mret (Some err)
  | None =>
      updateConditionStatus PushImage Completed;;
      p_updateCRStatus
  end.

Definition handle : M St (option error) :=
  (* check prerequisites *)
  r ← checkClusterConfig;
  match r with
  | Some err =>
      if decide (err = errorClusterConfigNotReady
                 ∨ err = errorClusterConfigNoLocalHub)
      then mret (Some err)
      else
        updateConditionStatus Init Waiting;;
        updateConditionResion Init err "get rainbond cluster config failure";;
        p_updateCRStatus;;
        mret (Some err)
  | None =>
  (* update init condition status is complete *)
  r ← setInitStatus;
  match r with
  | Some err =>
      updateConditionStatus Init Failed;;
      updateConditionResion Init err "set init status failure";;
      p_updateCRStatus;;
      mret (Some err)
  | None =>
  b ← canDownload;
  if b : bool then downloadStage
  else
  b ← canUnpack;
  if b : bool then unpackStage
  else
  b ← canPushImage;
  if b : bool then pushImageStage
  else
  b ← canReady;
  if b : bool then
    updateConditionStatus Ready Completed;;
    p_updateCRStatus
  else mret None
  end end.

(** *** The entry point *)

(** [newpkg], once the image-engine client exists. *)
Definition newpkg (k : RainbondPackage) (c : RainbondCluster) : pkg :=
  {| pkg_ := k;                                    (* p.DeepCopy() *)
     cluster := c;
     downloadPackage := false;
     localPackagePath := "";
     downloadPackageURL := "";
     downloadPackageMD5 := "";
     downloadImageDomain := "";
     pushImageDomain := "";
     totalImageNum := 23;
     images := [];
     version := InstallVersion (ClusterSpec c) |}.

(** A pass of the handler [h], seen from the world. *)
Definition runPass {A} (h : pkg) (m : M St A) : M World A := fun w0 =>
  match m {| p := h; w := w0 |} with
  | Ret a s => Ret a (w s)
  | Panicked => Panicked
  end.

Definition callW (ev : Event) : M World (list Event) :=
  w0 ← get; record ev;; mret (trace w0).

Definition Reconcile : M World (Result * option error) :=
  (* Fetch the RainbondPackage instance *)
  h ← callW EvGetPackage;
  w0 ← get;
  match getPackageError E h, apiPackage w0 with
  | Some err, _ => mret ({| RequeueAfter := 0 |}, Some err)
  | None, None => mret ({| RequeueAfter := 0 |}, None)       (* not found *)
  | None, Some k =>
  h ← callW EvGetCluster;
  match match getClusterError E h with
        | Some _ => None
        | None => apiCluster w0
        end with
  | None => mret ({| RequeueAfter := 3 |}, None)
  | Some c =>
  if negb (ConfigCompleted (ClusterSpec c)) then
    mret ({| RequeueAfter := 3 |}, None)
  else if decide (InstallMode (ClusterSpec c) = InstallationModeFullOnline) then
    (* if instsall mode is full online, set package to ready directly *)
    st ← initPackageStatus Completed;
    e ← updateCRStatus (withStatus st k);
    match e with
    | Some _ => mret ({| RequeueAfter := 5 |}, None)
    | None => mret ({| RequeueAfter := 0 |}, None)
    end
  else
    r ← checkStatusCanReturn k;
    let k := r.1 in
    let updateStatus := r.2.1 in
    let re := r.2.2 in
    if updateStatus : bool then
      e ← updateCRStatus k;
      match e with
      | Some _ => mret ({| RequeueAfter := 5 |}, None)
      | None => mret ({| RequeueAfter := 0 |}, None)
      end
    else
      match re with
      | Some res => mret (res, None)
      | None =>
          (* need handle condition *)
          h ← callW EvNewDockerClient;
          match newDockerClient E h with
          | Some _ => mret ({| RequeueAfter := 5 |}, None)
          | None =>
              (* handle package *)
              e ← runPass (newpkg k c) handle;
              match e with
              | Some _ => mret ({| RequeueAfter := 8 |}, None)
              | None => mret ({| RequeueAfter := 0 |}, None)
              end
          end
      end
  end end.

End Controller.

(** ** Sample environments and states

    Concrete inputs on which the embedding is run. *)

Module Sample.

(** An image engine whose registry refuses every push; everything else
    succeeds. *)
Definition env : Env := {|
  now := fun n => 1000 + Z.of_nat n;
  getPackageError := fun _ => None;
  getClusterError := fun _ => None;
  statusUpdate := fun _ _ => None;
  newDockerClient := fun _ => None;
  imageList := fun _ _ => inr 0%nat;
  imagePullR := fun _ _ _ => Body [JSONMessage "Pulling" None];
  imageTag := fun _ _ _ => None;
  imagePushR := fun _ _ _ => CallError "denied";
  imageLoadR := fun _ _ => Body [JSONMessage "Loaded image: goodrain.me/rbd-api:v5" None];
  openFile := fun _ _ => Some "no such file or directory";
  checkMD5 := fun _ _ _ => Some "md5 mismatch";
  download := fun _ => ([10; 40], Some "connection reset");
  untartarR := fun _ => ([], [], None);
  validDigest := fun _ => false;
  ParseAnyReference := fun s => inr s;
  DefImageRepository := "goodrain.me";
  GetImageRepository := fun _ => "goodrain.me";
  rangeOrder := fun l => l
|}.

Definition condition (t : PackageConditionType) (v : PackageConditionStatus)
  : PackageCondition :=
  {| Type_ := t; Status := v; LastHeartbeatTime := 7; LastTransitionTime := 5;
     Reason := ""; Message := ""; Progress := 0 |}.

Definition statusOf (a b c d e : PackageConditionStatus) : RainbondPackageStatus :=
  {| Conditions := [condition Init a; condition DownloadPackage b;
                    condition UnpackPackage c; condition PushImage d;
                    condition Ready e];
     ImagesNumber := 0; ImagesPushed := [] |}.

Definition spec : RainbondPackageSpec :=
  {| PkgPath := "/opt/rainbond/pkg/tgz/rainbond.tgz"; ImageHubUser := "";
     ImageHubPass := "" |}.

Definition package (st : RainbondPackageStatus) : RainbondPackage :=
  {| PackageSpec := spec; PackageStatus := st |}.

Definition clusterOf (mode : InstallationMode) : RainbondCluster :=
  {| ClusterSpec :=
       {| ConfigCompleted := true; InstallMode := mode;
          InstallVersion := "v5.3.0"; CIVersion := "";
          RainbondImageRepository := "registry.example/rainbond";
          ImageHubOf := Some {| Domain := "goodrain.me"; Namespace := "";
                                Username := ""; Password := "" |} |};
     ClusterConditions :=
       [{| ClusterConditionType := RainbondClusterConditionTypeImageRepository;
           ClusterConditionStatus := ConditionTrue |}] |}.

Definition world (k : RainbondPackage) (c : RainbondCluster) : World :=
  {| ticks := 0; trace := []; apiPackage := Some k; apiCluster := Some c;
     files := [] |}.

(** The handler of a pass over the package [k], with its image map and
    its download flag set by hand. *)
Definition handler (k : RainbondPackage) (dl : bool)
  (imgs : list (string * string)) : pkg :=
  {| pkg_ := k; cluster := clusterOf (InstallationModeOther "WithPackage");
     downloadPackage := dl;
     localPackagePath := "/opt/rainbond/pkg/tgz/rainbond.tgz";
     downloadPackageURL := "https://pkg.example/rainbond.tgz";
     downloadPackageMD5 := "9e107d9d372bb6826bd81d3542a419d6";
     downloadImageDomain := "registry.example/rainbond";
     pushImageDomain := "goodrain.me";
     totalImageNum := 23; images := imgs; version := "v5.3.0" |}.

Definition state (k : RainbondPackage) (dl : bool)
  (imgs : list (string * string)) : St :=
  {| p := handler k dl imgs;
     w := world k (clusterOf (InstallationModeOther "WithPackage")) |}.

(** The statuses of the stored conditions, in order. *)
Definition storedStatuses (w0 : World) : list (PackageConditionType * PackageConditionStatus) :=
  match apiPackage w0 with
  | Some k => map (fun c => (Type_ c, Status c)) (Conditions (PackageStatus k))
  | None => []
  end.

(** An unpack directory: the directory itself, two image archives, a
    hidden file of the archiver and a file that is no archive. *)
Definition visits : list Visit :=
  [ {| visitPath := "/opt/rainbond/pkg/files"; visitErr := None;
       visitIsFile := false |};
    {| visitPath := "/opt/rainbond/pkg/files/._rbd-api.tgz"; visitErr := None;
       visitIsFile := true |};
    {| visitPath := "/opt/rainbond/pkg/files/metadata.json"; visitErr := None;
       visitIsFile := true |};
    {| visitPath := "/opt/rainbond/pkg/files/rbd-api.tgz"; visitErr := None;
       visitIsFile := true |};
    {| visitPath := "/opt/rainbond/pkg/files/rbd-worker.tgz"; visitErr := None;
       visitIsFile := true |} ].

Definition unpacked (s : St) : St := setW (setFiles visits (w s)) s.

Definition noConditions : RainbondPackageStatus :=
  {| Conditions := []; ImagesNumber := 0; ImagesPushed := [] |}.

Definition withPackage : InstallationMode := InstallationModeOther "WithPackage".

End Sample.

(** ** Relating the states of a pass *)

Definition isStatusUpdate (ev : Event) : Prop :=
  match ev with EvStatusUpdate _ => True | _ => False end.

(** [ev] is a status write or an operation of the image engine on the pair
    of images [remoteImage], [localImage]. *)
Definition about (remoteImage localImage : string) (ev : Event) : Prop :=
  match ev with
  | EvStatusUpdate _ => True
  | EvImageList image _ => image = remoteImage
  | EvImagePull image _ _ => image = remoteImage
  | EvImageTag source target => source = remoteImage /\ target = localImage
  | EvImagePush image _ => image = localImage
  | _ => False
  end.

(** The images an operation of the image engine is given. *)
Definition imagesOf (ev : Event) : list string :=
  match ev with
  | EvImageList image _ | EvImagePull image _ _ | EvImagePush image _ => [image]
  | EvImageTag source target => [source; target]
  | _ => []
  end.

(** The number of transfers in a history. *)
Fixpoint nDownloads (h : list Event) : nat :=
  match h with
  | [] => 0
  | EvDownload _ _ :: rest => S (nDownloads rest)
  | _ :: rest => nDownloads rest
  end.

(** Everything in the handler but the status of its package. *)
Definition handlerFields (h : pkg) :=
  (PackageSpec (pkg_ h), cluster h, downloadPackage h, localPackagePath h,
   downloadPackageURL h, downloadPackageMD5 h, downloadImageDomain h,
   pushImageDomain h, totalImageNum h, images h, version h).

(** [s'] comes from [s] by steps that keep the conditions in place (and
    their statuses, when [quiet]), the image counters, the handler and the
    files, and that only add events in [ok] to the trace. *)
Record step (quiet : bool) (ok : Event -> Prop) (s s' : St) : Prop := {
  step_types : map Type_ (conditions s') = map Type_ (conditions s);
  step_status :
    quiet = true -> map Status (conditions s') = map Status (conditions s);
  step_number : ImagesNumber (status s') = ImagesNumber (status s);
  step_pushed : ImagesPushed (status s') = ImagesPushed (status s);
  step_handler : handlerFields (p s') = handlerFields (p s);
  step_files : files (w s') = files (w s);
  step_trace :
    exists new, trace (w s') = (new ++ trace (w s))%list /\ Forall ok new
}.

(** [m] returns from every state, in a state related to it by [R]. *)
Definition tot {S A} (R : S -> S -> Prop) (m : M S A) : Prop :=
  forall s, exists a s', m s = Ret a s' /\ R s s'.

(** [m] returns from every state in [I], in a state in [I]. *)
Definition safe {S A} (I : S -> Prop) (m : M S A) : Prop :=
  forall s, I s -> exists a s', m s = Ret a s' /\ I s'.

(** A visit that both walks of the unpack directory take for an image. *)
Definition validVisit (v : Visit) : bool :=
  match visitErr v with
  | Some _ => false
  | None => visitIsFile v && validateFile (visitPath v)
  end.

(** An event that is not a transfer. *)
Definition notDownload (ev : Event) : Prop := nDownloads [ev] = 0%nat.

(** The image count of the status is [N]; the state is that of the closure
    of [imagesLoadAndPush], with its counter in front. *)
Definition numberIs (N : Z) (ls : Z * St) : Prop :=
  ImagesNumber (status ls.2) = N.

(** ** A second sample: pushes that succeed *)

Module Mirror.

(** An image engine that already holds every image it is asked for, and a
    registry that accepts every push. *)
Definition engine : Env := {|
  now := fun n => 1000 + Z.of_nat n;
  getPackageError := fun _ => None;
  getClusterError := fun _ => None;
  statusUpdate := fun _ _ => None;
  newDockerClient := fun _ => None;
  imageList := fun _ _ => inr 1%nat;
  imagePullR := fun _ _ _ => Body [JSONMessage "Pulling" None];
  imageTag := fun _ _ _ => None;
  imagePushR := fun _ _ _ => Body [JSONMessage "Pushed" None];
  imageLoadR := fun _ _ => Body [JSONMessage "Loaded image: goodrain.me/rbd-api:v5" None];
  openFile := fun _ _ => None;
  checkMD5 := fun _ _ _ => None;
  download := fun _ => ([100], None);
  untartarR := fun _ => ([], [], None);
  validDigest := fun _ => false;
  ParseAnyReference := fun s => inr s;
  DefImageRepository := "goodrain.me";
  GetImageRepository := fun _ => "goodrain.me";
  rangeOrder := fun l => l
|}.

(** A server whose first transfer breaks off and whose later transfers
    succeed; the package file is not there beforehand. *)
Definition flaky : Env := {|
  now := fun n => 1000 + Z.of_nat n;
  getPackageError := fun _ => None;
  getClusterError := fun _ => None;
  statusUpdate := fun _ _ => None;
  newDockerClient := fun _ => None;
  imageList := fun _ _ => inr 1%nat;
  imagePullR := fun _ _ _ => Body [JSONMessage "Pulling" None];
  imageTag := fun _ _ _ => None;
  imagePushR := fun _ _ _ => Body [JSONMessage "Pushed" None];
  imageLoadR := fun _ _ => Body [JSONMessage "Loaded image: goodrain.me/rbd-api:v5" None];
  openFile := fun _ _ => Some "no such file or directory";
  checkMD5 := fun _ _ _ => None;
  download := fun h => match nDownloads h with
                       | O => ([10; 40], Some "connection reset")
                       | S _ => ([50; 100], None)
                       end;
  untartarR := fun _ => ([], [], None);
  validDigest := fun _ => false;
  ParseAnyReference := fun s => inr s;
  DefImageRepository := "goodrain.me";
  GetImageRepository := fun _ => "goodrain.me";
  rangeOrder := fun l => l
|}.

(** Two entries of an image map. *)
Definition imageMap : list (string * string) :=
  [("/builder:v5.3.3", "/builder"); ("/runner:v5.3.3", "/runner")].

(** An image archive in the unpack directory. *)
Definition archive : Visit :=
  {| visitPath := "/opt/rainbond/pkg/files/rbd-api.tgz"; visitErr := None;
     visitIsFile := true |}.

(** The push stage over an unpack directory that holds [n] image
    archives. *)
Definition crowded (n : nat) : St :=
  setW (setFiles (repeat archive n)
          (w (Sample.state
                (Sample.package
                   (Sample.statusOf Completed Completed Completed Running Waiting))
                true [])))
       (Sample.state
          (Sample.package
             (Sample.statusOf Completed Completed Completed Running Waiting))
          true []).

(** A cluster that reports no image repository. *)
Definition noRepository : RainbondCluster :=
  {| ClusterSpec := ClusterSpec (Sample.clusterOf Sample.withPackage);
     ClusterConditions := [] |}.

End Mirror.

(** ** Relating the states of a pass, continued *)

(** [m], when it returns, returns in a state related by [R] to the one it
    started in. *)
Definition pres {S A} (R : S -> S -> Prop) (m : M S A) : Prop :=
  forall s a s', m s = Ret a s' -> R s s'.

(** [f] has the same value in both states. *)
Definition keeps {S B} (f : S -> B) (s s' : S) : Prop := f s' = f s.

(** What a pass is given and may not change: the stages of the conditions,
    in their order, the spec of the package, the cluster and the download
    flag. *)
Definition given (s : St) :=
  (map Type_ (conditions s), PackageSpec (pkg_ (p s)), cluster (p s),
   downloadPackage (p s)).

(** A streamed item that is a message without an error field. *)
Definition cleanMessage (item : StreamItem) : Prop :=
  match item with JSONMessage _ None => True | _ => False end.

(** An event that does not touch a package file: anything but opening,
    checking, transferring or unpacking an archive, making a directory or
    loading an image from a file. *)
Definition online (ev : Event) : Prop :=
  match ev with
  | EvImageLoad _ | EvOpen _ | EvCheckMD5 _ _ | EvDownload _ _
  | EvMkdirAll _ | EvUntartar _ _ => False
  | _ => True
  end.

(** The history [h'] is [h] with events in [ok] added. *)
Definition grows (ok : Event -> Prop) (h h' : list Event) : Prop :=
  exists new, h' = (new ++ h)%list /\ Forall ok new.

(** A handler that is not to download stays so and only adds online
    events. *)
Definition staysOnline (s s' : St) : Prop :=
  downloadPackage (p s) = false ->
  downloadPackage (p s') = false /\ grows online (trace (w s)) (trace (w s')).

(** * Facts *)

(** ** The monad *)

Lemma bind_Ret {S A B} (m : M S A) (k : A -> M S B) s a s' :
  m s = Ret a s' -> (m ≫= k) s = k a s'.
Proof. intros H. unfold mbind, M_bind. now rewrite H. Qed.

Lemma bind_Panicked {S A B} (m : M S A) (k : A -> M S B) s :
  m s = Panicked -> (m ≫= k) s = Panicked.
Proof. intros H. unfold mbind, M_bind. now rewrite H. Qed.

Lemma bind_get {S B} (k : S -> M S B) s : (get ≫= k) s = k s s.
Proof. reflexivity. Qed.

Lemma bind_modify {S B} (f : S -> S) (k : unit -> M S B) s :
  (modify f ≫= k) s = k tt (f s).
Proof. reflexivity. Qed.

Lemma bind_mret {S A B} (a : A) (k : A -> M S B) s : (mret a ≫= k) s = k a s.
Proof. reflexivity. Qed.

Lemma bind_mret_false {S A} (m : M S A) s s' :
  (m ≫= fun _ => mret false) s = Ret true s' -> False.
Proof.
  unfold mbind, M_bind, mret, M_ret. destruct (m s); discriminate.
Qed.

Lemma liftW_Ret {A} (m : M World A) s a w' :
  m (w s) = Ret a w' -> liftW m s = Ret a (setW w' s).
Proof. intros H. unfold liftW. now rewrite H. Qed.

(** ** Finding a condition *)

Lemma findIn_Some typ3 cs : forall k i c,
  findIn typ3 k cs = Some (i, c) ->
  (k <= i)%nat /\ cs !! (i - k)%nat = Some c /\ Type_ c = typ3.
Proof.
  induction cs as [|x rest IH]; intros k i c H; simpl in H; [discriminate|].
  destruct (decide (Type_ x = typ3)) as [Hx|Hx].
  - inversion H; subst. replace (i - i)%nat with 0%nat by lia. auto.
  - apply IH in H as (Hle & Hl & Ht).
    split; [lia|]. split; [|exact Ht].
    replace (i - k)%nat with (S (i - S k)) by lia. exact Hl.
Qed.

(** The index found depends on the types of the conditions only. *)
Lemma findIn_types typ3 cs : forall cs' k i c,
  map Type_ cs' = map Type_ cs ->
  findIn typ3 k cs = Some (i, c) ->
  exists c', findIn typ3 k cs' = Some (i, c').
Proof.
  induction cs as [|x rest IH]; intros cs' k i c Hm H; simpl in H; [discriminate|].
  destruct cs' as [|x' rest']; [discriminate|]. simpl in Hm.
  injection Hm as Hx Hrest. simpl. rewrite Hx.
  destruct (decide (Type_ x = typ3)).
  - inversion H; subst. eauto.
  - eapply IH; eauto.
Qed.

Lemma findIn_None_types typ3 cs : forall cs' k,
  map Type_ cs' = map Type_ cs ->
  findIn typ3 k cs = None -> findIn typ3 k cs' = None.
Proof.
  induction cs as [|x rest IH]; intros cs' k Hm H.
  - destruct cs'; [reflexivity|discriminate].
  - destruct cs' as [|x' rest']; [discriminate|]. simpl in *.
    injection Hm as Hx Hrest. rewrite Hx.
    destruct (decide (Type_ x = typ3)); [discriminate|]. eauto.
Qed.

(** ** The condition store *)

Section Store.

Variable E : Env.

(** What [updateConditionStatus] leaves in the place of the condition [c],
    when the clock has been read [n] times before. *)
Lemma updateStatusIn_found typ3 v cs : forall k i c w0,
  findIn typ3 k cs = Some (i, c) ->
  updateStatusIn E typ3 v cs w0 =
    let n := ticks w0 in
    let c1 := if decide (Status c ≠ v) then withTransition (now E n) c else c in
    let n1 := if decide (Status c ≠ v) then S n else n in
    let c2 := withCondStatus v (withHeartbeat (now E n1) c1) in
    let c3 := if decide (v = Completed)
              then withReason "" "" (withProgress 100 c2) else c2 in
    Ret (<[(i - k)%nat := c3]> cs) (setTicks (S n1) w0).
Proof.
  induction cs as [|x rest IH]; intros k i c w0 H; simpl in H; [discriminate|].
  simpl. destruct (decide (Type_ x = typ3)) as [Hx|Hx].
  - inversion H; subst. replace (i - i)%nat with 0%nat by lia.
    unfold mbind, M_bind, mret, M_ret, Now. simpl.
    destruct (decide (Status c ≠ v)); simpl; reflexivity.
  - pose proof (findIn_Some _ _ _ _ _ H) as (Hle & _ & _).
    erewrite bind_Ret by (apply IH; eassumption).
    simpl. unfold mret, M_ret.
    replace (i - k)%nat with (S (i - S k)) by lia. reflexivity.
Qed.

Lemma updateStatusIn_missing typ3 v cs : forall k w0,
  findIn typ3 k cs = None -> updateStatusIn E typ3 v cs w0 = Ret cs w0.
Proof.
  induction cs as [|x rest IH]; intros k w0 H; simpl in *; [reflexivity|].
  destruct (decide (Type_ x = typ3)); [discriminate|].
  erewrite bind_Ret by (eapply IH; eassumption). reflexivity.
Qed.


Lemma setConditions_id s : setConditions (conditions s) s = s.
Proof. destruct s as [[[? []] ? ? ? ? ? ? ? ? ? ?] ?]. reflexivity. Qed.

Lemma setW_id s : setW (w s) s = s.
Proof. destruct s; reflexivity. Qed.

Lemma updateConditionStatus_found typ3 v s i c :
  findCondition typ3 s = Some (i, c) ->
  updateConditionStatus E typ3 v s =
    let n := ticks (w s) in
    let c1 := if decide (Status c ≠ v) then withTransition (now E n) c else c in
    let n1 := if decide (Status c ≠ v) then S n else n in
    let c2 := withCondStatus v (withHeartbeat (now E n1) c1) in
    let c3 := if decide (v = Completed)
              then withReason "" "" (withProgress 100 c2) else c2 in
    Ret tt (setConditions (<[i := c3]> (conditions s))
              (setW (setTicks (S n1) (w s)) s)).
Proof.
  intros H. unfold updateConditionStatus, findCondition in *.
  rewrite bind_get.
  erewrite bind_Ret
    by (apply liftW_Ret; eapply updateStatusIn_found; eassumption).
  simpl. replace (i - 0)%nat with i by lia. reflexivity.
Qed.

Lemma updateConditionStatus_missing typ3 v s :
  findCondition typ3 s = None -> updateConditionStatus E typ3 v s = Ret tt s.
Proof.
  intros H. unfold updateConditionStatus, findCondition in *.
  rewrite bind_get.
  erewrite bind_Ret
    by (apply liftW_Ret; eapply updateStatusIn_missing; eassumption).
  unfold modify. rewrite setW_id. simpl.
  now rewrite setConditions_id.
Qed.

(** What [updateConditionStatus] leaves at the place of a condition it
    finds. *)
Lemma updateConditionStatus_sets typ3 v s i c :
  findCondition typ3 s = Some (i, c) ->
  exists s' c',
    updateConditionStatus E typ3 v s = Ret tt s' /\
    conditions s' !! i = Some c' /\
    Status c' = v /\
    (v = Completed -> Progress c' = 100 /\ Reason c' = "" /\ Message c' = "") /\
    conditions s' = <[i := c']> (conditions s).
Proof.
  intros H. pose proof (updateConditionStatus_found typ3 v s i c H) as Heq.
  pose proof (findIn_Some _ _ _ _ _ H) as (_ & Hl & _).
  replace (i - 0)%nat with i in Hl by lia.
  apply lookup_lt_Some in Hl.
  eexists _, _. split; [exact Heq|].
  split; [simpl; now apply list_lookup_insert_eq|].
  destruct (decide (v = Completed)) as [Hv|Hv]; simpl;
    repeat split; try reflexivity; intros; try contradiction.
Qed.

(** C7. [updateConditionStatus] (the store's setStatus), on a stage that has
    a condition: the heartbeat becomes the time read in the call whatever
    the status was; the transition time becomes the time read only when the
    new status differs from the stored one; the status is stored; for
    Completed the progress becomes 100 and reason and message are cleared,
    otherwise they stay; every other condition, and the rest of the state,
    is as before. *)
Theorem updateConditionStatus_spec typ3 v s i c :
  findCondition typ3 s = Some (i, c) ->
  exists s' c',
    updateConditionStatus E typ3 v s = Ret tt s' /\
    conditions s' = <[i := c']> (conditions s) /\
    conditions s' !! i = Some c' /\
    (forall j, j ≠ i -> conditions s' !! j = conditions s !! j) /\
    Type_ c' = Type_ c /\
    Status c' = v /\
    LastHeartbeatTime c' =
      now E (if decide (Status c = v) then ticks (w s) else S (ticks (w s))) /\
    LastTransitionTime c' =
      (if decide (Status c = v) then LastTransitionTime c
       else now E (ticks (w s))) /\
    (v = Completed -> Progress c' = 100 /\ Reason c' = "" /\ Message c' = "") /\
    (v ≠ Completed ->
       Progress c' = Progress c /\ Reason c' = Reason c /\ Message c' = Message c) /\
    ImagesNumber (status s') = ImagesNumber (status s) /\
    ImagesPushed (status s') = ImagesPushed (status s) /\
    trace (w s') = trace (w s).
Proof.
  intros H. pose proof (updateConditionStatus_found typ3 v s i c H) as Heq.
  pose proof (findIn_Some _ _ _ _ _ H) as (_ & Hl & _).
  replace (i - 0)%nat with i in Hl by lia.
  apply lookup_lt_Some in Hl.
  eexists _, _. split; [exact Heq|].
  split; [reflexivity|].
  split; [simpl; now apply list_lookup_insert_eq|].
  split; [intros j Hj; simpl; now apply list_lookup_insert_ne|].
  destruct (decide (Status c = v)) as [Hs|Hs];
    destruct (decide (Status c ≠ v)) as [Hs'|Hs']; try contradiction;
    destruct (decide (v = Completed)) as [Hv|Hv]; simpl;
    repeat split; try reflexivity; intros; try contradiction; congruence.
Qed.


(** The loop of [updateConditionProgress]: it only reads the clock, keeps
    types and statuses, says [true] exactly when some progress moved, and
    leaves the progress asked for in the first condition of the type. *)
Lemma updateProgressIn_spec typ3 progress cs : forall w0,
  exists cs' b n',
    updateProgressIn E typ3 progress cs w0 = Ret (cs', b) (setTicks n' w0) /\
    map Type_ cs' = map Type_ cs /\
    map Status cs' = map Status cs /\
    (b = true <-> map Progress cs' ≠ map Progress cs) /\
    (forall k i c, findIn typ3 k cs = Some (i, c) ->
       exists c', findIn typ3 k cs' = Some (i, c') /\ Progress c' = progress).
Proof.
  induction cs as [|x rest IH]; intros w0.
  - exists [], false, (ticks w0). simpl. unfold mret, M_ret.
    destruct w0; simpl. repeat split; try reflexivity; try congruence.
    all: try (intros; discriminate).
  - simpl. destruct (decide (Type_ x = typ3)) as [Hx|Hx].
    + unfold Now. unfold mbind at 1, M_bind at 1. simpl.
      destruct (decide (Progress x ≠ progress)) as [Hp|Hp].
      * eexists _, true, _. split; [reflexivity|].
        simpl. repeat split; try reflexivity; try congruence.
        intros k i c H. destruct (decide (Type_ x = typ3)); [|contradiction].
        inversion H; subst. eauto.
      * destruct (IH (setTicks (S (ticks w0)) w0))
          as (cs' & b & n' & Heq & Ht & Hs & Hb & Hf).
        rewrite (bind_Ret _ _ _ _ _ Heq). simpl.
        eexists _, b, n'. split; [reflexivity|].
        simpl. rewrite Ht, Hs. repeat split; try reflexivity.
        -- intros Hbt. apply Hb in Hbt. congruence.
        -- intros Hne. apply Hb. congruence.
        -- intros k i c H. destruct (decide (Type_ x = typ3)); [|contradiction].
           inversion H; subst. eexists; split; [reflexivity|].
           simpl. destruct (decide (Progress c = progress)); tauto.
    + destruct (IH w0) as (cs' & b & n' & Heq & Ht & Hs & Hb & Hf).
      rewrite (bind_Ret _ _ _ _ _ Heq). simpl.
      eexists _, b, n'. split; [reflexivity|].
      simpl. rewrite Ht, Hs. repeat split; try reflexivity.
      * intros Hbt. apply Hb in Hbt. congruence.
      * intros Hne. apply Hb. congruence.
      * intros k i c H. destruct (decide (Type_ x = typ3)); [contradiction|].
        eauto.
Qed.

Lemma updateConditionProgress_shape typ3 progress s :
  exists cs' b n',
    updateConditionProgress E typ3 progress s
      = Ret b (setConditions cs' (setW (setTicks n' (w s)) s)) /\
    map Type_ cs' = map Type_ (conditions s) /\
    map Status cs' = map Status (conditions s) /\
    (b = true <-> map Progress cs' ≠ map Progress (conditions s)) /\
    (forall i c, findCondition typ3 s = Some (i, c) ->
       exists c', findIn typ3 0 cs' = Some (i, c') /\
                  Progress c' = if decide (progress > 100) then 100 else progress).
Proof.
  unfold updateConditionProgress.
  destruct (updateProgressIn_spec typ3
              (if decide (progress > 100) then 100 else progress)
              (conditions s) (w s))
    as (cs' & b & n' & Heq & Ht & Hs & Hb & Hf).
  exists cs', b, n'. rewrite bind_get.
  rewrite (bind_Ret _ _ _ _ _ (liftW_Ret _ _ _ _ Heq)).
  split; [reflexivity|]. split; [exact Ht|]. split; [exact Hs|]. split; [exact Hb|exact (Hf 0%nat)].
Qed.

(** C4, as the code has it.  [updateConditionProgress] (the store's
    setProgress) stores the input capped at 100 in the stage's condition: the
    stored progress lies in [0,100] for every input that is not negative,
    and a negative input is stored as it is.  It returns true exactly when
    a stored progress changed. *)
Theorem updateConditionProgress_spec typ3 progress s i c :
  findCondition typ3 s = Some (i, c) ->
  exists b s' c',
    updateConditionProgress E typ3 progress s = Ret b s' /\
    findCondition typ3 s' = Some (i, c') /\
    Progress c' = Z.min progress 100 /\
    (0 <= progress -> 0 <= Progress c' <= 100) /\
    (b = true <->
       map Progress (conditions s') ≠ map Progress (conditions s)).
Proof.
  intros H.
  destruct (updateConditionProgress_shape typ3 progress s)
    as (cs' & b & n' & Heq & Ht & Hs & Hb & Hf).
  destruct (Hf i c H) as (c' & Hc' & Hp).
  eexists b, _, c'. split; [exact Heq|].
  split; [exact Hc'|].
  assert (Hmin : Progress c' = Z.min progress 100).
  { rewrite Hp. destruct (decide (progress > 100)); lia. }
  split; [exact Hmin|]. split; [lia|]. exact Hb.
Qed.


Lemma updateCRStatus_shape k w0 :
  exists e ap,
    updateCRStatus E k w0
      = Ret e (setApiPackage ap
                 (setTrace (EvStatusUpdate (PackageStatus k) :: trace w0) w0)) /\
    (e = None -> exists latest,
       apiPackage w0 = Some latest /\
       statusUpdate E (trace w0) (PackageStatus k) = None /\
       ap = Some (withStatus (PackageStatus k) latest)) /\
    (e ≠ None -> ap = apiPackage w0).
Proof.
  unfold updateCRStatus. rewrite bind_get. unfold record.
  rewrite bind_modify.
  destruct (apiPackage w0) as [latest|] eqn:Hap.
  - destruct (statusUpdate E (trace w0) (PackageStatus k)) as [e|] eqn:Hu.
    + eexists (Some _), (apiPackage w0). unfold mret, M_ret.
      split; [destruct w0; reflexivity|]. split; [discriminate|]. now rewrite Hap.
    + eexists None, _. rewrite bind_modify. unfold mret, M_ret.
      split; [reflexivity|]. split; [eauto|congruence].
  - eexists (Some _), (apiPackage w0). unfold mret, M_ret.
    split; [destruct w0; reflexivity|]. split; [discriminate|]. now rewrite Hap.
Qed.

Lemma p_updateCRStatus_shape s :
  exists e ap,
    p_updateCRStatus E s
      = Ret e (setW (setApiPackage ap
                       (setTrace (EvStatusUpdate (status s) :: trace (w s)) (w s)))
                    s).
Proof.
  unfold p_updateCRStatus. rewrite bind_get.
  destruct (updateCRStatus_shape (pkg_ (p s)) (w s)) as (e & ap & Heq & _).
  exists e, ap. now apply liftW_Ret.
Qed.

(** C10. [setInitStatus], on an Init condition that is not Completed,
    assigns the status alone: in the condition it leaves, progress, reason,
    message and both times are the stored ones and the clock is not read;
    so a Completed Init condition keeps a progress that was not 100. *)
Theorem setInitStatus_spec s i c :
  findCondition Init s = Some (i, c) ->
  Status c ≠ Completed ->
  exists e s' c',
    setInitStatus E s = Ret e s' /\
    conditions s' = <[i := c']> (conditions s) /\
    findCondition Init s' = Some (i, c') /\
    Status c' = Completed /\
    Progress c' = Progress c /\
    Reason c' = Reason c /\
    Message c' = Message c /\
    LastTransitionTime c' = LastTransitionTime c /\
    LastHeartbeatTime c' = LastHeartbeatTime c /\
    ticks (w s') = ticks (w s) /\
    (Progress c ≠ 100 -> Progress c' ≠ 100).
Proof.
  intros H Hs. unfold setInitStatus. rewrite bind_get, H.
  destruct (decide (Status c ≠ Completed)); [|contradiction].
  rewrite bind_modify.
  destruct (p_updateCRStatus_shape
              (setConditions (<[i:=withCondStatus Completed c]> (conditions s)) s))
    as (e & ap & Heq).
  exists e. eexists. exists (withCondStatus Completed c).
  split; [exact Heq|].
  pose proof (findIn_Some _ _ _ _ _ H) as (_ & Hl & Ht).
  replace (i - 0)%nat with i in Hl by lia.
  assert (Hty : map Type_ (<[i:=withCondStatus Completed c]> (conditions s))
                = map Type_ (conditions s)).
  { rewrite list_fmap_insert. simpl. apply list_insert_id.
    rewrite list_lookup_fmap, Hl. reflexivity. }
  destruct (findIn_types _ _ _ _ _ _ Hty H) as (c' & Hc').
  pose proof (findIn_Some _ _ _ _ _ Hc') as (_ & Hl' & _).
  replace (i - 0)%nat with i in Hl' by lia.
  rewrite list_lookup_insert_eq in Hl' by (eapply lookup_lt_Some; eauto).
  inversion Hl'; subst c'.
  split; [reflexivity|]. split; [exact Hc'|].
  simpl. repeat split; auto.
Qed.


(** ** Steps of a pass *)

Lemma step_refl quiet ok s : step quiet ok s s.
Proof. constructor; auto. exists []. auto. Qed.

Lemma step_trans quiet ok s1 s2 s3 :
  step quiet ok s1 s2 -> step quiet ok s2 s3 -> step quiet ok s1 s3.
Proof.
  intros [A1 A2 A3 A4 A5 A6 (n1 & A7 & A8)] [B1 B2 B3 B4 B5 B6 (n2 & B7 & B8)].
  constructor; try congruence.
  - intros q. rewrite B2, A2; auto.
  - exists (n2 ++ n1)%list. rewrite B7, A7, app_assoc.
    split; [reflexivity|]. apply Forall_app; auto.
Qed.

Lemma step_mono quiet quiet' (ok ok' : Event -> Prop) s s' :
  (quiet' = true -> quiet = true) ->
  (forall ev, ok ev -> ok' ev) ->
  step quiet ok s s' -> step quiet' ok' s s'.
Proof.
  intros Hq Hok [A1 A2 A3 A4 A5 A6 (n1 & A7 & A8)].
  constructor; auto. exists n1. split; [auto|].
  eapply Forall_impl; eauto.
Qed.

(** A step that replaces the conditions and the world. *)
Lemma step_store quiet ok s cs' w' :
  map Type_ cs' = map Type_ (conditions s) ->
  (quiet = true -> map Status cs' = map Status (conditions s)) ->
  files w' = files (w s) ->
  (exists new, trace w' = (new ++ trace (w s))%list /\ Forall ok new) ->
  step quiet ok s (setConditions cs' (setW w' s)).
Proof. intros. constructor; simpl; auto. Qed.

Lemma step_world quiet ok s w' :
  files w' = files (w s) ->
  (exists new, trace w' = (new ++ trace (w s))%list /\ Forall ok new) ->
  step quiet ok s (setW w' s).
Proof. intros. constructor; simpl; auto. Qed.

(** A quiet step keeps the place and the status of every condition. *)
Lemma step_findCondition quiet ok s s' typ3 i c :
  step quiet ok s s' ->
  findCondition typ3 s = Some (i, c) ->
  exists c', findCondition typ3 s' = Some (i, c') /\
             (quiet = true -> Status c' = Status c).
Proof.
  intros [A1 A2 _ _ _ _ _] H. unfold findCondition in *.
  destruct (findIn_types _ _ _ _ _ _ A1 H) as (c' & Hc').
  exists c'. split; [exact Hc'|]. intros q. specialize (A2 q).
  apply findIn_Some in H as (_ & Hl & _).
  apply findIn_Some in Hc' as (_ & Hl' & _).
  assert (Hm : map Status (conditions s') !! (i - 0)%nat
               = map Status (conditions s) !! (i - 0)%nat) by now rewrite A2.
  rewrite !list_lookup_fmap, Hl, Hl' in Hm. simpl in Hm. congruence.
Qed.

Lemma tot_mret {S A} (R : S -> S -> Prop) (a : A) :
  (forall s, R s s) -> tot R (mret a : M S A).
Proof. intros Hr s. exists a, s. split; [reflexivity|apply Hr]. Qed.

Lemma tot_bind {S A B} (R : S -> S -> Prop) (m : M S A) (k : A -> M S B) :
  (forall a b c, R a b -> R b c -> R a c) ->
  tot R m -> (forall a, tot R (k a)) -> tot R (m ≫= k).
Proof.
  intros Ht Hm Hk s. destruct (Hm s) as (a & s1 & Heq & H1).
  destruct (Hk a s1) as (b & s2 & Heq2 & H2).
  exists b, s2. rewrite (bind_Ret _ _ _ _ _ Heq). eauto.
Qed.

Lemma tot_get_bind {S B} (R : S -> S -> Prop) (k : S -> M S B) :
  (forall s0, tot R (k s0)) -> tot R (get ≫= k).
Proof. intros Hk s. rewrite bind_get. apply Hk. Qed.

Lemma tot_mono {S A} (R R' : S -> S -> Prop) (m : M S A) :
  (forall s s', R s s' -> R' s s') -> tot R m -> tot R' m.
Proof. intros Hi Hm s. destruct (Hm s) as (a & s' & ? & ?). eauto. Qed.

Lemma tot_step_mret quiet ok {A} (a : A) : tot (step quiet ok) (mret a).
Proof. apply tot_mret, step_refl. Qed.

Lemma tot_step_bind quiet ok {A B} (m : M St A) (k : A -> M St B) :
  tot (step quiet ok) m -> (forall a, tot (step quiet ok) (k a)) ->
  tot (step quiet ok) (m ≫= k).
Proof. apply tot_bind. intros a b c. apply step_trans. Qed.

Lemma updateStatusIn_shape typ3 v cs w0 :
  exists cs' w',
    updateStatusIn E typ3 v cs w0 = Ret cs' w' /\
    map Type_ cs' = map Type_ cs /\
    trace w' = trace w0 /\ files w' = files w0.
Proof.
  destruct (findIn typ3 0 cs) as [[i c]|] eqn:H.
  - rewrite (updateStatusIn_found typ3 v cs 0 i c w0 H).
    eexists _, _. split; [reflexivity|]. simpl. split; [|auto].
    apply findIn_Some in H as (_ & Hl & Ht).
    rewrite list_fmap_insert. apply list_insert_id.
    rewrite list_lookup_fmap, Hl.
    destruct (decide (v = Completed)), (decide (Status c ≠ v)); reflexivity.
  - rewrite (updateStatusIn_missing typ3 v cs 0 w0 H).
    eexists _, _. split; [reflexivity|]. auto.
Qed.

Lemma updateResionIn_shape typ3 r m cs : forall w0,
  exists cs' w',
    updateResionIn E typ3 r m cs w0 = Ret cs' w' /\
    map Type_ cs' = map Type_ cs /\
    map Status cs' = map Status cs /\
    trace w' = trace w0 /\ files w' = files w0.
Proof.
  induction cs as [|x rest IH]; intros w0; simpl.
  - eexists _, _. split; [reflexivity|]. auto.
  - destruct (decide (Type_ x = typ3)).
    + eexists _, _. split; [reflexivity|]. simpl. auto.
    + destruct (IH w0) as (cs' & w' & Heq & Ht & Hs & Htr & Hf).
      rewrite (bind_Ret _ _ _ _ _ Heq).
      eexists _, _. split; [reflexivity|]. simpl. rewrite Ht, Hs. auto.
Qed.

Lemma tot_updateConditionStatus ok typ3 v :
  tot (step false ok) (updateConditionStatus E typ3 v).
Proof.
  intros s. unfold updateConditionStatus. rewrite bind_get.
  destruct (updateStatusIn_shape typ3 v (conditions s) (w s))
    as (cs' & w' & Heq & Ht & Htr & Hf).
  rewrite (bind_Ret _ _ _ _ _ (liftW_Ret _ _ _ _ Heq)).
  eexists _, _. split; [reflexivity|].
  apply step_store; auto; [discriminate|]. exists []. auto.
Qed.

Lemma tot_updateConditionResion quiet ok typ3 r m :
  tot (step quiet ok) (updateConditionResion E typ3 r m).
Proof.
  intros s. unfold updateConditionResion. rewrite bind_get.
  destruct (updateResionIn_shape typ3 r m (conditions s) (w s))
    as (cs' & w' & Heq & Ht & Hs & Htr & Hf).
  rewrite (bind_Ret _ _ _ _ _ (liftW_Ret _ _ _ _ Heq)).
  eexists _, _. split; [reflexivity|].
  apply step_store; auto. exists []. auto.
Qed.

Lemma tot_updateConditionProgress quiet ok typ3 progress :
  tot (step quiet ok) (updateConditionProgress E typ3 progress).
Proof.
  intros s.
  destruct (updateConditionProgress_shape typ3 progress s)
    as (cs' & b & n' & Heq & Ht & Hs & _).
  eexists _, _. split; [exact Heq|].
  apply step_store; auto. exists []. auto.
Qed.

Lemma tot_p_updateCRStatus quiet (ok : Event -> Prop) :
  (forall st, ok (EvStatusUpdate st)) ->
  tot (step quiet ok) (p_updateCRStatus E).
Proof.
  intros Hok s. destruct (p_updateCRStatus_shape s) as (e & ap & Heq).
  eexists _, _. split; [exact Heq|].
  apply step_world; auto. exists [EvStatusUpdate (status s)]. auto.
Qed.

Lemma call_eq ev s :
  call ev s = Ret (trace (w s)) (setW (setTrace (ev :: trace (w s)) (w s)) s).
Proof. reflexivity. Qed.

Lemma tot_call quiet (ok : Event -> Prop) ev :
  ok ev -> tot (step quiet ok) (call ev).
Proof.
  intros Hok s. rewrite call_eq. eexists _, _. split; [reflexivity|].
  apply step_world; auto. exists [ev]. auto.
Qed.


(** ** The gatekeeper *)

(** [canPushImage] reads the conditions and writes nothing. *)
Lemma canPushImage_pure s : exists b, canPushImage s = Ret b s.
Proof.
  unfold canPushImage. rewrite bind_get.
  destruct (findCondition UnpackPackage s) as [[? uncon]|]; [|eauto].
  destruct (decide (Status uncon ≠ Completed)); [eauto|].
  destruct (findCondition PushImage s) as [[? pcon]|]; [|eauto].
  destruct (decide (Status pcon ≠ Completed)); eauto.
Qed.

Lemma runningCondition_claims s typ3 i c :
  findCondition typ3 s = Some (i, c) ->
  exists e s' c',
    runningCondition E (Some (i, c)) s = Ret e s' /\
    findCondition typ3 s' = Some (i, c') /\ Status c' = Running.
Proof.
  intros H. unfold runningCondition.
  pose proof (findIn_Some _ _ _ _ _ H) as (_ & Hl & Ht). rewrite Ht.
  destruct (updateConditionStatus_sets typ3 Running s i c H)
    as (s1 & c1 & Heq & Hl1 & Hst & _).
  rewrite (bind_Ret _ _ _ _ _ Heq).
  destruct (tot_updateConditionStatus (fun _ => True) typ3 Running s)
    as (? & s1' & Heq' & Hstep).
  rewrite Heq in Heq'. inversion Heq'; subst s1'.
  destruct (step_findCondition _ _ _ _ _ _ _ Hstep H) as (c1' & Hf1 & _).
  pose proof (findIn_Some _ _ _ _ _ Hf1) as (_ & Hl1' & _).
  replace (i - 0)%nat with i in Hl1' by lia.
  unfold conditions in Hl1, Hl1'. rewrite Hl1 in Hl1'. inversion Hl1'; subst c1'.
  destruct (tot_p_updateCRStatus true (fun _ => True) (fun _ => I) s1)
    as (e & s2 & Heq2 & Hstep2).
  destruct (step_findCondition _ _ _ _ _ _ _ Hstep2 Hf1) as (c2 & Hf2 & Hs2).
  exists e, s2, c2. split; [exact Heq2|]. split; [exact Hf2|].
  rewrite Hs2 by reflexivity. exact Hst.
Qed.

(** When [canDownload] selects the download stage it has set the stage's
    condition to Running. *)
Lemma canDownload_claims s s' :
  canDownload E s = Ret true s' ->
  exists i c, findCondition DownloadPackage s' = Some (i, c) /\ Status c = Running.
Proof.
  unfold canDownload. rewrite bind_get.
  destruct (findCondition DownloadPackage s) as [[i con]|] eqn:Hf; [|discriminate].
  destruct (decide (Status con ≠ Completed)); [|discriminate].
  destruct (downloadPackage (p s)); cbn [negb].
  - destruct (runningCondition_claims s _ i con Hf) as (e & s1 & c1 & Heq & Hf1 & Hs1).
    rewrite (bind_Ret _ _ _ _ _ Heq). unfold mret, M_ret.
    intros H. inversion H; subst. eauto.
  - intros H. now apply bind_mret_false in H.
Qed.

(** When [canUnpack] selects the unpack stage it has set the stage's
    condition to Running. *)
Lemma canUnpack_claims s s' :
  canUnpack E s = Ret true s' ->
  exists i c, findCondition UnpackPackage s' = Some (i, c) /\ Status c = Running.
Proof.
  unfold canUnpack. rewrite bind_get.
  destruct (findCondition DownloadPackage s) as [[i con]|]; [|discriminate].
  destruct (decide (Status con ≠ Completed)); [discriminate|].
  destruct (findCondition UnpackPackage s) as [[j uncon]|] eqn:Hf; [|discriminate].
  destruct (decide (Status uncon ≠ Completed)); [|discriminate].
  destruct (downloadPackage (p s)); cbn [negb].
  - destruct (runningCondition_claims s _ j uncon Hf) as (e & s1 & c1 & Heq & Hf1 & Hs1).
    rewrite (bind_Ret _ _ _ _ _ Heq). unfold mret, M_ret.
    intros H. inversion H; subst. eauto.
  - intros H. now apply bind_mret_false in H.
Qed.

(** C5, for the push stage: once the unpack stage is Completed and the push
    stage is Waiting, [canPushImage] selects the push stage and leaves the
    state as it is, so the condition of the stage is still Waiting when the
    body of the stage starts. *)
Theorem canPushImage_leaves_Waiting :
  let s := Sample.state
             (Sample.package
                (Sample.statusOf Completed Completed Completed Waiting Waiting))
             false [] in
  canPushImage s = Ret true s /\
  findCondition PushImage s = Some (3%nat, Sample.condition PushImage Waiting).
Proof. split; reflexivity. Qed.


(** ** The entry point *)

Lemma checkConditions_failed cs : forall n,
  (exists x, x ∈ cs /\ Status x = Failed) ->
  (forall x, x ∈ cs -> Status x ≠ Running) ->
  checkConditions cs n = inl (false, None).
Proof.
  induction cs as [|y rest IH]; intros n (x & Hin & Hx) Hrun.
  - inversion Hin.
  - simpl. destruct (decide (Status y = Running)) as [Hy|_].
    + exfalso. eapply Hrun; [left|exact Hy].
    + destruct (decide (Status y = Failed)); [reflexivity|].
      apply IH.
      * apply elem_of_cons in Hin as [->|Hin]; [contradiction|eauto].
      * intros z Hz. apply Hrun. now right.
Qed.

(** C1, as the code has it.  For a stored package with a Failed condition
    and none Running, once the cluster is read, complete and not in the
    full-online mode: [checkStatusCanReturn] changes nothing and ends the
    pass neither with a status write nor with a result, and [Reconcile] goes
    on to create the image-engine client and, when that is created, to run
    [handle] on a handler made of the package as it was read.  The pass
    returns without error: to be run again after 5 seconds when the client
    cannot be created, after 8 seconds when [handle] returns an error, and
    with an empty result when [handle] returns none. *)
Theorem Reconcile_failed_runs_handle w0 k c :
  apiPackage w0 = Some k ->
  apiCluster w0 = Some c ->
  getPackageError E (trace w0) = None ->
  getClusterError E (EvGetPackage :: trace w0) = None ->
  ConfigCompleted (ClusterSpec c) = true ->
  InstallMode (ClusterSpec c) ≠ InstallationModeFullOnline ->
  (exists x, x ∈ Conditions (PackageStatus k) /\ Status x = Failed) ->
  (forall x, x ∈ Conditions (PackageStatus k) -> Status x ≠ Running) ->
  let w1 := setTrace (EvGetCluster :: EvGetPackage :: trace w0) w0 in
  let w2 := setTrace (EvNewDockerClient :: trace w1) w1 in
  checkStatusCanReturn E k w1 = Ret (k, (false, None)) w1 /\
  Reconcile E w0 =
    match newDockerClient E (trace w1) with
    | Some _ => Ret ({| RequeueAfter := 5 |}, None) w2
    | None =>
        match handle E {| p := newpkg k c; w := w2 |} with
        | Ret (Some _) s' => Ret ({| RequeueAfter := 8 |}, None) (w s')
        | Ret None s' => Ret ({| RequeueAfter := 0 |}, None) (w s')
        | Panicked => Panicked
        end
    end.
Proof.
  intros Hk Hc Hge Hce Hcc Hmode Hfail Hrun w1 w2.
  assert (Hchk : checkStatusCanReturn E k w1 = Ret (k, (false, None)) w1).
  { unfold checkStatusCanReturn.
    destruct (decide (length (Conditions (PackageStatus k)) = 0%nat)) as [Hz|_].
    - destruct Hfail as (x & Hin & _).
      apply length_zero_iff_nil in Hz. rewrite Hz in Hin. inversion Hin.
    - now rewrite (checkConditions_failed _ 0%nat Hfail Hrun). }
  split; [exact Hchk|].
  unfold Reconcile, callW, record.
  rewrite bind_Ret with (a := trace w0)
                        (s' := setTrace (EvGetPackage :: trace w0) w0)
    by reflexivity.
  rewrite bind_get. simpl. rewrite Hge, Hk.
  rewrite bind_Ret with (a := EvGetPackage :: trace w0) (s' := w1)
    by reflexivity.
  rewrite Hce, Hc, Hcc. simpl.
  destruct (decide (InstallMode (ClusterSpec c) = InstallationModeFullOnline));
    [contradiction|].
  rewrite (bind_Ret _ _ _ _ _ Hchk). simpl.
  rewrite bind_Ret with (a := trace w1) (s' := w2) by reflexivity.
  simpl (trace w1).
  destruct (newDockerClient E (EvGetCluster :: EvGetPackage :: trace w0));
    [reflexivity|].
  unfold mbind, M_bind, runPass.
  destruct (handle E {| p := newpkg k c; w := w2 |}) as [[e|] s'|]; reflexivity.
Qed.

Lemma initPackageStatus_eq v w0 :
  initPackageStatus E v w0 =
    let n := ticks w0 in
    let cond t i :=
      {| Type_ := t; Status := v; LastHeartbeatTime := now E (i + n);
         LastTransitionTime := now E (S i + n); Reason := ""; Message := "";
         Progress := 0 |} in
    Ret {| Conditions := [cond Init 0; cond DownloadPackage 2;
                          cond UnpackPackage 4; cond PushImage 6;
                          cond Ready 8]%nat;
           ImagesNumber := 0; ImagesPushed := [] |}
        (setTicks (10 + n) w0).
Proof.
  unfold initPackageStatus, newCondition, Now, mbind, M_bind, mret, M_ret.
  reflexivity.
Qed.

Lemma checkStatusCanReturn_empty k w1 :
  Conditions (PackageStatus k) = [] ->
  checkStatusCanReturn E k w1 =
    match initPackageStatus E Waiting w1 with
    | Ret st w' => Ret (withStatus st k, (true, Some {| RequeueAfter := 0 |})) w'
    | Panicked => Panicked
    end.
Proof. intros H. unfold checkStatusCanReturn. rewrite H. reflexivity. Qed.

(** A status write when the package is stored. *)
Lemma updateCRStatus_stored k w0 latest :
  apiPackage w0 = Some latest ->
  updateCRStatus E k w0 =
    let w1 := setTrace (EvStatusUpdate (PackageStatus k) :: trace w0) w0 in
    Ret (match statusUpdate E (trace w0) (PackageStatus k) with
         | Some e => Some ("failed to update rainbondpackage status: " +:+ e)
         | None => None
         end)
        (match statusUpdate E (trace w0) (PackageStatus k) with
         | Some _ => w1
         | None => setApiPackage (Some (withStatus (PackageStatus k) latest)) w1
         end).
Proof.
  intros H. unfold updateCRStatus. rewrite bind_get. unfold record.
  rewrite bind_modify, H.
  destruct (statusUpdate E (trace w0) (PackageStatus k)); reflexivity.
Qed.

(** C6, as the code has it.  For a stored package without conditions,
    once the cluster is read, complete and not in the full-online mode, the
    pass writes a status of exactly five conditions, Init, DownloadPackage,
    UnpackPackage, PushImage and Ready in this order, all Waiting, and
    returns without error: with no requeue and the status stored when the
    write succeeds, with a requeue after 5 seconds when it fails. *)
Theorem Reconcile_initializes w0 k c :
  apiPackage w0 = Some k ->
  apiCluster w0 = Some c ->
  getPackageError E (trace w0) = None ->
  getClusterError E (EvGetPackage :: trace w0) = None ->
  ConfigCompleted (ClusterSpec c) = true ->
  InstallMode (ClusterSpec c) ≠ InstallationModeFullOnline ->
  Conditions (PackageStatus k) = [] ->
  exists res w' st,
    Reconcile E w0 = Ret (res, None) w' /\
    trace w' = EvStatusUpdate st :: EvGetCluster :: EvGetPackage :: trace w0 /\
    map (fun x => (Type_ x, Status x)) (Conditions st)
      = [(Init, Waiting); (DownloadPackage, Waiting); (UnpackPackage, Waiting);
         (PushImage, Waiting); (Ready, Waiting)] /\
    match statusUpdate E (EvGetCluster :: EvGetPackage :: trace w0) st with
    | None => res = {| RequeueAfter := 0 |} /\
              apiPackage w' = Some (withStatus st k)
    | Some _ => res = {| RequeueAfter := 5 |} /\ apiPackage w' = Some k
    end.
Proof.
  intros Hk Hc Hge Hce Hcc Hmode Hnil.
  unfold Reconcile, callW, record.
  rewrite bind_Ret with (a := trace w0)
                        (s' := setTrace (EvGetPackage :: trace w0) w0)
    by reflexivity.
  rewrite bind_get. simpl. rewrite Hge, Hk.
  rewrite bind_Ret with (a := EvGetPackage :: trace w0)
    (s' := setTrace (EvGetCluster :: EvGetPackage :: trace w0) w0)
    by reflexivity.
  rewrite Hce, Hc, Hcc. cbn [negb].
  destruct (decide (InstallMode (ClusterSpec c) = InstallationModeFullOnline));
    [contradiction|].
  erewrite bind_Ret
    by (rewrite checkStatusCanReturn_empty by exact Hnil;
        rewrite initPackageStatus_eq; reflexivity).
  cbn [fst snd].
  erewrite bind_Ret by (apply updateCRStatus_stored; exact Hk).
  match goal with
  | |- context [statusUpdate E ?h ?st] =>
      remember (statusUpdate E h st) as su eqn:Hu
  end.
  destruct su as [e|]; eexists _, _, _;
    (split; [reflexivity|]); cbn;
    (split; [reflexivity|]); (split; [reflexivity|]);
    match goal with
    | |- match ?x with _ => _ end =>
        match type of Hu with ?v = _ => replace x with v by exact Hu end
    end; auto.
Qed.


(** ** The image engine *)

Lemma tot_checkIfImageExists quiet remoteImage localImage :
  tot (step quiet (about remoteImage localImage))
      (checkIfImageExists E remoteImage).
Proof.
  unfold checkIfImageExists.
  destruct (reference.Parse (validDigest E) remoteImage) as [repo|];
    [|apply tot_step_mret].
  apply tot_step_bind; [apply tot_call; reflexivity|intros h].
  destruct (imageList E h _); apply tot_step_mret.
Qed.

Lemma tot_imagePull quiet remoteImage localImage :
  tot (step quiet (about remoteImage localImage)) (imagePull E remoteImage).
Proof.
  unfold imagePull. apply tot_get_bind; intros s0.
  destruct (ParseAnyReference E remoteImage) as [err|rf];
    [apply tot_step_mret|].
  apply tot_step_bind; [apply tot_call; reflexivity|intros h].
  destruct (imagePullR E h rf _); apply tot_step_mret.
Qed.

Lemma tot_ImageTag quiet remoteImage localImage :
  tot (step quiet (about remoteImage localImage))
      (ImageTag E remoteImage localImage).
Proof.
  unfold ImageTag.
  apply tot_step_bind; [apply tot_call; split; reflexivity|intros h].
  apply tot_step_mret.
Qed.

Lemma tot_imagePush quiet remoteImage localImage :
  tot (step quiet (about remoteImage localImage)) (imagePush E localImage).
Proof.
  unfold imagePush. apply tot_get_bind; intros s0.
  apply tot_step_bind; [apply tot_call; reflexivity|intros h].
  destruct (imagePushR E h localImage _); apply tot_step_mret.
Qed.

(** An attempt at an image only calls the image engine, on that image. *)
Lemma tot_pullTagPush quiet remoteImage localImage :
  tot (step quiet (about remoteImage localImage))
      (pullTagPush E remoteImage localImage).
Proof.
  unfold pullTagPush.
  apply tot_step_bind; [apply tot_checkIfImageExists|intros [err|exists_]].
  - apply tot_step_mret.
  - apply tot_step_bind.
    + destruct exists_; [apply tot_step_mret|apply tot_imagePull].
    + intros [err|]; [apply tot_step_mret|].
      apply tot_step_bind; [apply tot_ImageTag|].
      intros [err|]; [apply tot_step_mret|].
      apply tot_step_bind; [apply tot_imagePush|].
      intros [err|]; apply tot_step_mret.
Qed.

(** Three failed attempts exhaust the retry of [handleImgae]. *)
Lemma Retry_3_fail {S} interval (f : M S (bool * option error))
  s0 e1 sa e2 sb e3 sc :
  f s0 = Ret (false, Some e1) sa ->
  f sa = Ret (false, Some e2) sb ->
  f sb = Ret (false, Some e3) sc ->
  Retry interval 3 f s0 = Ret (Some e3) sc.
Proof.
  intros H1 H2 H3. simpl.
  rewrite (bind_Ret _ _ _ _ _ H1). simpl.
  rewrite (bind_Ret _ _ _ _ _ H2). simpl.
  rewrite (bind_Ret _ _ _ _ _ H3). reflexivity.
Qed.

(** How [handle] marks a stage Failed: three calls on the store, after
    which the condition of the stage, if there is one, is Failed. *)
Lemma mark_failed typ3 err msg s :
  exists s',
    step false isStatusUpdate s s' /\
    (forall i c, findCondition typ3 s = Some (i, c) ->
       exists c', findCondition typ3 s' = Some (i, c') /\ Status c' = Failed) /\
    forall A (k : M St A),
      (updateConditionStatus E typ3 Failed;;
       updateConditionResion E typ3 err msg;;
       p_updateCRStatus E;; k) s = k s'.
Proof.
  destruct (tot_updateConditionStatus isStatusUpdate typ3 Failed s)
    as ([] & s1 & H1 & S1).
  destruct (tot_updateConditionResion true isStatusUpdate typ3 err msg s1)
    as ([] & s2 & H2 & S2).
  destruct (tot_p_updateCRStatus true isStatusUpdate (fun _ => I) s2)
    as (e & s3 & H3 & S3).
  exists s3. split.
  - eapply step_trans; [exact S1|].
    apply (step_mono true false isStatusUpdate isStatusUpdate);
      [discriminate|auto|].
    exact (step_trans _ _ _ _ _ S2 S3).
  - split.
    + intros i c Hf.
      destruct (updateConditionStatus_sets typ3 Failed s i c Hf)
        as (s1' & c1 & Heq & Hl1 & Hst & _).
      rewrite H1 in Heq. inversion Heq; subst s1'.
      destruct (step_findCondition _ _ _ _ _ _ _ S1 Hf) as (c1' & Hf1 & _).
      pose proof (findIn_Some _ _ _ _ _ Hf1) as (_ & Hl1' & _).
      replace (i - 0)%nat with i in Hl1' by lia.
      rewrite Hl1 in Hl1'. inversion Hl1'; subst c1'.
      destruct (step_findCondition _ _ _ _ _ _ _
                  (step_trans _ _ _ _ _ S2 S3) Hf1) as (c3 & Hf3 & Hs3).
      exists c3. split; [exact Hf3|]. rewrite Hs3 by reflexivity. exact Hst.
    + intros A k.
      rewrite (bind_Ret _ _ _ _ _ H1), (bind_Ret _ _ _ _ _ H2).
      now rewrite (bind_Ret _ _ _ _ _ H3).
Qed.


Lemma about_imagesOf remoteImage localImage ev x :
  about remoteImage localImage ev -> x ∈ imagesOf ev ->
  x = remoteImage \/ x = localImage.
Proof.
  destruct ev; simpl; intros H Hin;
    repeat match goal with
           | H : _ ∈ [] |- _ => inversion H
           | H : _ ∈ _ :: _ |- _ => apply elem_of_cons in H as [->|H]
           | H : _ /\ _ |- _ => destruct H
           end; subst; auto.
Qed.

(** The loop of [imagePullAndPush] ends at the first image whose handling
    fails. *)
Lemma pullAndPushLoop_fail old new rest count s err sc :
  handleImgae E (gopath.Join [downloadImageDomain (p s); old])
                (gopath.Join [pushImageDomain (p s); new]) s
    = Ret (Some err) sc ->
  pullAndPushLoop E ((old, new) :: rest) count s = Ret (Some err) sc.
Proof.
  intros H. simpl. rewrite bind_get. now rewrite (bind_Ret _ _ _ _ _ H).
Qed.

(** C2. Pull-and-push over an image map of two entries: when each of the
    three attempts at the first image fails, the push stage returns an
    error, the PushImage condition is Failed, ImagesPushed is empty, and
    the only calls made are status writes and image-engine operations on
    the first image, so none is made for the second. *)
Theorem pushImageStage_first_image_fails
  s o1 n1 o2 n2 e1 e2 e3 sa sb sc :
  downloadPackage (p s) = false ->
  rangeOrder E (images (p s)) = [(o1, n1); (o2, n2)] ->
  let remote1 := gopath.Join [downloadImageDomain (p s); o1] in
  let local1 := gopath.Join [pushImageDomain (p s); n1] in
  let remote2 := gopath.Join [downloadImageDomain (p s); o2] in
  let local2 := gopath.Join [pushImageDomain (p s); n2] in
  let s0 := setImagesPushed []
              (setImagesNumber (wrap32 (Z.of_nat (length (images (p s))))) s) in
  pullTagPush E remote1 local1 s0 = Ret (false, Some e1) sa ->
  pullTagPush E remote1 local1 sa = Ret (false, Some e2) sb ->
  pullTagPush E remote1 local1 sb = Ret (false, Some e3) sc ->
  exists s' new,
    pushImageStage E s
      = Ret (Some ("failed to pull and push images: " +:+ e3)) s' /\
    (forall i c, findCondition PushImage s = Some (i, c) ->
       exists c', findCondition PushImage s' = Some (i, c') /\
                  Status c' = Failed) /\
    ImagesPushed (status s') = [] /\
    trace (w s') = (new ++ trace (w s))%list /\
    Forall (about remote1 local1) new /\
    (remote2 ∉ [remote1; local1] -> local2 ∉ [remote1; local1] ->
     Forall (fun ev => (remote2 ∉ imagesOf ev) /\ (local2 ∉ imagesOf ev)) new).
Proof.
  intros Hdl Hrange remote1 local1 remote2 local2 s0 H1 H2 H3.
  (* the three attempts are steps on the first image *)
  assert (Sa : step true (about remote1 local1) s0 sa).
  { destruct (tot_pullTagPush true remote1 local1 s0) as (? & ? & Heq & St1).
    rewrite H1 in Heq. inversion Heq; subst; assumption. }
  assert (Sb : step true (about remote1 local1) sa sb).
  { destruct (tot_pullTagPush true remote1 local1 sa) as (? & ? & Heq & St1).
    rewrite H2 in Heq. inversion Heq; subst; assumption. }
  assert (Sc : step true (about remote1 local1) sb sc).
  { destruct (tot_pullTagPush true remote1 local1 sb) as (? & ? & Heq & St1).
    rewrite H3 in Heq. inversion Heq; subst; assumption. }
  pose proof (step_trans _ _ _ _ _ (step_trans _ _ _ _ _ Sa Sb) Sc) as S0c.
  (* the loop stops there *)
  assert (Hloop : imagePullAndPush E s = Ret (Some e3) sc).
  { unfold imagePullAndPush. rewrite bind_get, !bind_modify, Hrange.
    apply pullAndPushLoop_fail.
    unfold handleImgae. eapply Retry_3_fail; eassumption. }
  destruct (mark_failed PushImage e3 "pull and push images failure" sc)
    as (s' & Sf & Hfailed & Hk).
  assert (Sf' : step false (about remote1 local1) sc s').
  { eapply step_mono; [| |exact Sf]; [auto|]. now intros []. }
  assert (S0' : step false (about remote1 local1) s0 s').
  { eapply step_trans; [|exact Sf'].
    eapply step_mono; [| |exact S0c]; [discriminate|auto]. }
  destruct S0' as [T1 _ _ T4 _ _ (new & T7 & T8)].
  exists s', new. split.
  - unfold pushImageStage. rewrite bind_get, Hdl.
    pose (r := Some (String.append "failed to pull and push images: " e3)).
    rewrite bind_Ret with (a := r) (s' := s'); [reflexivity|].
    rewrite (bind_Ret _ _ _ _ _ Hloop). apply Hk.
  - split.
    + intros i c Hf.
      assert (Hf0 : findCondition PushImage s0 = Some (i, c)) by exact Hf.
      destruct (step_findCondition _ _ _ _ _ _ _ S0c Hf0) as (cc & Hfc & _).
      exact (Hfailed i cc Hfc).
    + split; [exact T4|]. split; [exact T7|]. split; [exact T8|].
      intros Hr Hl. eapply Forall_impl; [exact T8|].
      intros ev Hev. split; intros Hin;
        destruct (about_imagesOf _ _ _ _ Hev Hin) as [->| ->];
        [apply Hr|apply Hr|apply Hl|apply Hl];
        repeat constructor.
Qed.


(** ** The download stage *)

Lemma nDownloads_app new h :
  Forall notDownload new -> nDownloads (new ++ h) = nDownloads h.
Proof.
  induction 1 as [|ev new Hev _ IH]; [reflexivity|].
  simpl. destruct ev; try exact IH. discriminate Hev.
Qed.

Lemma step_nDownloads quiet ok s s' :
  (forall ev, ok ev -> notDownload ev) ->
  step quiet ok s s' -> nDownloads (trace (w s')) = nDownloads (trace (w s)).
Proof.
  intros Hok [_ _ _ _ _ _ (new & Ht & Hf)]. rewrite Ht.
  apply nDownloads_app. eapply Forall_impl; eauto.
Qed.

Lemma statusUpdate_notDownload ev : isStatusUpdate ev -> notDownload ev.
Proof. destruct ev; simpl; intros []; reflexivity. Qed.

Lemma tot_reportProgress quiet typ3 progress :
  tot (step quiet isStatusUpdate) (reportProgress E typ3 progress).
Proof.
  unfold reportProgress.
  apply tot_step_bind; [apply tot_updateConditionProgress|intros [|]].
  - apply tot_step_bind; [apply tot_p_updateCRStatus; now intros|intros ?].
    apply tot_step_mret.
  - apply tot_step_mret.
Qed.

Lemma tot_reportAll quiet typ3 samples :
  tot (step quiet isStatusUpdate) (reportAll E typ3 samples).
Proof.
  induction samples as [|x rest IH]; simpl; [apply tot_step_mret|].
  apply tot_step_bind; [apply tot_reportProgress|intros _; exact IH].
Qed.

(** A transfer is recorded once; its outcome is the oracle's on the
    history before it. *)
Lemma Download_spec s :
  exists s',
    Download E s = Ret (download E (trace (w s))).2 s' /\
    step true (fun _ => True) s s' /\
    nDownloads (trace (w s')) = S (nDownloads (trace (w s))).
Proof.
  unfold Download. rewrite bind_get.
  rewrite (bind_Ret _ _ _ _ _ (call_eq _ s)).
  destruct (tot_reportAll true DownloadPackage (download E (trace (w s))).1
              (setW (setTrace (EvDownload (downloadPackageURL (p s))
                                 (localPackagePath (p s)) :: trace (w s)) (w s)) s))
    as ([] & s' & Heq & Hstep).
  exists s'. rewrite (bind_Ret _ _ _ _ _ Heq). split; [reflexivity|]. split.
  - eapply step_trans; [|eapply step_mono; [| |exact Hstep]; auto].
    apply step_world; [reflexivity|]. eexists [_]. split; [reflexivity|auto].
  - rewrite (step_nDownloads _ _ _ _ statusUpdate_notDownload Hstep).
    reflexivity.
Qed.

Lemma tot_checkExisting :
  tot (step true notDownload) (checkExisting E).
Proof.
  unfold checkExisting. apply tot_get_bind; intros s0.
  apply tot_step_bind; [apply tot_call; reflexivity|intros h].
  destruct (openFile E h _); [apply tot_step_mret|].
  apply tot_step_bind; [apply tot_call; reflexivity|intros h'].
  apply tot_step_mret.
Qed.

(** The history of a transfer: the call is recorded on top of the history
    the oracle answers on, and only status writes follow it. *)
Lemma Download_trace s :
  exists s' new,
    Download E s = Ret (download E (trace (w s))).2 s' /\
    step true (fun _ => True) s s' /\
    nDownloads (trace (w s')) = S (nDownloads (trace (w s))) /\
    trace (w s')
      = (new ++ EvDownload (downloadPackageURL (p s)) (localPackagePath (p s))
             :: trace (w s))%list /\
    Forall isStatusUpdate new.
Proof.
  unfold Download. rewrite bind_get.
  rewrite (bind_Ret _ _ _ _ _ (call_eq _ s)).
  destruct (tot_reportAll true DownloadPackage (download E (trace (w s))).1
              (setW (setTrace (EvDownload (downloadPackageURL (p s))
                                 (localPackagePath (p s)) :: trace (w s)) (w s)) s))
    as ([] & s' & Heq & Hstep).
  destruct (step_trace _ _ _ _ Hstep) as (new & Ht & Hf).
  exists s', new. rewrite (bind_Ret _ _ _ _ _ Heq).
  split; [reflexivity|]. split; [|split; [|split; [exact Ht|exact Hf]]].
  - eapply step_trans; [|eapply step_mono; [| |exact Hstep]; auto].
    apply step_world; [reflexivity|]. eexists [_]. split; [reflexivity|auto].
  - rewrite (step_nDownloads _ _ _ _ statusUpdate_notDownload Hstep).
    reflexivity.
Qed.

(** Marking a stage Completed: what the code does after a stage that
    succeeded. *)
Lemma mark_completed typ3 s :
  exists e s',
    (updateConditionStatus E typ3 Completed;; p_updateCRStatus E) s = Ret e s' /\
    step false isStatusUpdate s s' /\
    (forall i c, findCondition typ3 s = Some (i, c) ->
       exists c', findCondition typ3 s' = Some (i, c') /\ Status c' = Completed).
Proof.
  destruct (tot_updateConditionStatus isStatusUpdate typ3 Completed s)
    as ([] & s1 & H1 & S1).
  destruct (tot_p_updateCRStatus true isStatusUpdate (fun _ => I) s1)
    as (e & s2 & H2 & S2).
  exists e, s2. split; [|split].
  - rewrite (bind_Ret _ _ _ _ _ H1). exact H2.
  - eapply step_trans; [exact S1|].
    apply (step_mono true false isStatusUpdate isStatusUpdate);
      [discriminate|auto|exact S2].
  - intros i c Hf.
    destruct (updateConditionStatus_sets typ3 Completed s i c Hf)
      as (s1' & c1 & Heq & Hl1 & Hst & _).
    rewrite H1 in Heq. inversion Heq; subst s1'.
    destruct (step_findCondition _ _ _ _ _ _ _ S1 Hf) as (c1' & Hf1 & _).
    pose proof (findIn_Some _ _ _ _ _ Hf1) as (_ & Hl1' & _).
    replace (i - 0)%nat with i in Hl1' by lia.
    rewrite Hl1 in Hl1'. inversion Hl1'; subst c1'.
    destruct (step_findCondition _ _ _ _ _ _ _ S2 Hf1) as (c2 & Hf2 & Hs2).
    exists c2. split; [exact Hf2|]. rewrite Hs2 by reflexivity. exact Hst.
Qed.

(** C8. The download stage, when the package file is not already there
    and the first transfer of the pass fails: the transfer is made once
    more and never a third time, whatever the second transfer answers.
    The stage returns having made exactly two transfers, the second of
    them the last, followed by status writes only.  If the second transfer
    fails too, the stage returns its error and the DownloadPackage
    condition is Failed; if it succeeds, the DownloadPackage condition is
    Completed.  [h2] is the history the second transfer is answered on. *)
Theorem downloadStage_retries_once s s0 e1 :
  checkExisting E s = Ret false s0 ->
  (forall h, nDownloads h = nDownloads (trace (w s)) ->
             (download E h).2 = Some e1) ->
  exists h2 r s' new,
    downloadStage E s = Ret r s' /\
    nDownloads h2 = S (nDownloads (trace (w s))) /\
    nDownloads (trace (w s')) = (nDownloads (trace (w s)) + 2)%nat /\
    trace (w s')
      = (new ++ EvDownload (downloadPackageURL (p s)) (localPackagePath (p s))
             :: h2)%list /\
    Forall isStatusUpdate new /\
    match (download E h2).2 with
    | Some e2 =>
        r = Some ("failed to download package " +:+ e2) /\
        (forall i c, findCondition DownloadPackage s = Some (i, c) ->
           exists c', findCondition DownloadPackage s' = Some (i, c') /\
                      Status c' = Failed)
    | None =>
        (forall i c, findCondition DownloadPackage s = Some (i, c) ->
           exists c', findCondition DownloadPackage s' = Some (i, c') /\
                      Status c' = Completed)
    end.
Proof.
  intros Hchk Hd1.
  assert (S0 : step true notDownload s s0).
  { destruct (tot_checkExisting s) as (? & ? & Heq & St0).
    rewrite Hchk in Heq. inversion Heq; subst; assumption. }
  pose proof (step_nDownloads _ _ _ _ (fun _ H => H) S0) as N0.
  (* the first transfer *)
  destruct (Download_spec s0) as (s1 & D1 & S1 & N1).
  rewrite (Hd1 _ N0) in D1.
  (* the reason is noted and written *)
  destruct (tot_updateConditionResion true isStatusUpdate Init e1
              "download rainbond package error, will retry" s1)
    as ([] & s2 & R2 & S2).
  destruct (tot_p_updateCRStatus true isStatusUpdate (fun _ => I) s2)
    as (eu & s3 & R3 & S3).
  pose proof (step_trans _ _ _ _ _ S2 S3) as S13.
  pose proof (step_nDownloads _ _ _ _ statusUpdate_notDownload S13) as N3.
  (* the second transfer *)
  destruct (Download_trace s3) as (s4 & new4 & D4 & S4 & N4 & T4 & F4).
  assert (S03 : step true (fun _ => True) s s3).
  { eapply step_trans; [eapply step_mono; [| |exact S0]; auto|].
    eapply step_trans; [exact S1|].
    eapply step_mono; [| |exact S13]; auto. }
  assert (S04 : step true (fun _ => True) s s4)
    by exact (step_trans _ _ _ _ _ S03 S4).
  assert (Hp3 : downloadPackageURL (p s3) = downloadPackageURL (p s) /\
                localPackagePath (p s3) = localPackagePath (p s)).
  { pose proof (step_handler _ _ _ _ S03) as Hh. unfold handlerFields in Hh.
    inversion Hh. auto. }
  destruct Hp3 as (Hurl & Hpath). rewrite Hurl, Hpath in T4.
  assert (Nh2 : nDownloads (trace (w s3)) = S (nDownloads (trace (w s))))
    by (rewrite N3, N1, N0; reflexivity).
  exists (trace (w s3)).
  destruct ((download E (trace (w s3))).2) as [e2|] eqn:He2.
  - assert (Hdp : donwnloadPackage E s = Ret (Some e2) s4).
    { unfold donwnloadPackage.
      rewrite (bind_Ret _ _ _ _ _ Hchk), (bind_Ret _ _ _ _ _ D1).
      rewrite (bind_Ret _ _ _ _ _ R2), (bind_Ret _ _ _ _ _ R3).
      now rewrite (bind_Ret _ _ _ _ _ D4). }
    destruct (mark_failed DownloadPackage e2 "download package failure" s4)
      as (s' & Sf & Hfailed & Hk).
    destruct (step_trace _ _ _ _ Sf) as (newf & Tf & Ff).
    exists (Some ("failed to download package " +:+ e2)), s',
           (newf ++ new4)%list.
    split; [unfold downloadStage; rewrite (bind_Ret _ _ _ _ _ Hdp); apply Hk|].
    split; [exact Nh2|].
    split.
    { rewrite (step_nDownloads _ _ _ _ statusUpdate_notDownload Sf).
      rewrite N4, Nh2. lia. }
    split; [rewrite Tf, T4, app_assoc; reflexivity|].
    split; [apply Forall_app; auto|].
    split; [reflexivity|].
    intros i c Hf.
    destruct (step_findCondition _ _ _ _ _ _ _ S04 Hf) as (c4 & Hf4 & _).
    exact (Hfailed i c4 Hf4).
  - assert (Hdp : donwnloadPackage E s = Ret None s4).
    { unfold donwnloadPackage.
      rewrite (bind_Ret _ _ _ _ _ Hchk), (bind_Ret _ _ _ _ _ D1).
      rewrite (bind_Ret _ _ _ _ _ R2), (bind_Ret _ _ _ _ _ R3).
      now rewrite (bind_Ret _ _ _ _ _ D4). }
    destruct (mark_completed DownloadPackage s4) as (e & s' & Hk & Sf & Hdone).
    destruct (step_trace _ _ _ _ Sf) as (newf & Tf & Ff).
    exists e, s', (newf ++ new4)%list.
    split; [unfold downloadStage; rewrite (bind_Ret _ _ _ _ _ Hdp); exact Hk|].
    split; [exact Nh2|].
    split.
    { rewrite (step_nDownloads _ _ _ _ statusUpdate_notDownload Sf).
      rewrite N4, Nh2. lia. }
    split; [rewrite Tf, T4, app_assoc; reflexivity|].
    split; [apply Forall_app; auto|].
    intros i c Hf.
    destruct (step_findCondition _ _ _ _ _ _ _ S04 Hf) as (c4 & Hf4 & _).
    exact (Hdone i c4 Hf4).
Qed.


(** ** Load and push *)

Lemma wrap32_small z : - 2 ^ 31 <= z < 2 ^ 31 -> wrap32 z = z.
Proof.
  intros H. unfold wrap32.
  rewrite Z.mod_small by lia. lia.
Qed.

(** Below [2^31] images the counter of [countImages] does not wrap: it is
    the number of valid visits. *)
Lemma countIn_spec visits : forall count,
  0 <= count ->
  count + Z.of_nat (length (List.filter validVisit visits)) < 2 ^ 31 ->
  countIn visits count
    = count + Z.of_nat (length (List.filter validVisit visits)).
Proof.
  induction visits as [|v rest IH]; intros count H0 Hlt; simpl in *; [lia|].
  unfold validVisit at 1. unfold validVisit at 1 in Hlt.
  destruct (visitErr v); [apply IH; auto|].
  destruct (visitIsFile v); simpl in *; [|apply IH; auto].
  destruct (validateFile (visitPath v)); simpl in *; [|apply IH; auto].
  rewrite wrap32_small by lia. rewrite IH by lia. lia.
Qed.

Lemma safe_mret {S A} (I : S -> Prop) (a : A) : safe I (mret a).
Proof. intros s H. exists a, s. auto. Qed.

Lemma safe_bind {S A B} (I : S -> Prop) (m : M S A) (k : A -> M S B) :
  safe I m -> (forall a, safe I (k a)) -> safe I (m ≫= k).
Proof.
  intros Hm Hk s H. destruct (Hm s H) as (a & s1 & Heq & H1).
  rewrite (bind_Ret _ _ _ _ _ Heq). apply Hk, H1.
Qed.

Lemma safe_liftL N {A} quiet ok (m : M St A) :
  tot (step quiet ok) m -> safe (numberIs N) (liftL m).
Proof.
  intros Hm [l s] H. destruct (Hm s) as (a & s' & Heq & Hstep).
  exists a, (l, s'). unfold liftL. simpl. rewrite Heq. split; [reflexivity|].
  unfold numberIs in *. simpl in *. now rewrite (step_number _ _ _ _ Hstep).
Qed.

Lemma safe_liftL_get N {B} (k : St -> M (Z * St) B) :
  (forall s0, ImagesNumber (status s0) = N -> safe (numberIs N) (k s0)) ->
  safe (numberIs N) (liftL get ≫= k).
Proof. intros Hk [l s] H. exact (Hk s H (l, s) H). Qed.

Lemma safe_Retry {S} (I : S -> Prop) interval n f :
  safe I f -> safe I (Retry interval n f).
Proof.
  intros Hf. induction n as [|n IH]; simpl; [apply safe_mret|].
  apply safe_bind; [exact Hf|]. intros [[|] [e|]];
    try apply safe_mret; destruct n; try apply safe_mret; exact IH.
Qed.

Lemma safe_forRange {S A R} (I : S -> Prop) (l : list A)
  (body : A -> M S (option R)) :
  (forall x, x ∈ l -> safe I (body x)) -> safe I (forRange l body).
Proof.
  induction l as [|x rest IH]; intros Hb; simpl; [apply safe_mret|].
  apply safe_bind; [apply Hb; left|].
  intros [r|]; [apply safe_mret|]. apply IH. intros y Hy. apply Hb. now right.
Qed.

Lemma tot_imageLoad quiet file :
  tot (step quiet (fun _ => True)) (imageLoad E file).
Proof.
  unfold imageLoad.
  apply tot_step_bind; [apply tot_call; exact I|intros h].
  destruct (openFile E h file); [apply tot_step_mret|].
  apply tot_step_bind; [apply tot_call; exact I|intros h'].
  destruct (match imageLoadR E h' file with
            | CallError err => _ | NoBody => _ | Body items => _ end);
    [apply tot_step_mret|].
  destruct (decide (_ = "")); apply tot_step_mret.
Qed.

(** With a count of images that is not zero, the closure of
    [imagesLoadAndPush] returns, and leaves the count as it is. *)
Lemma loadTagPush_safe N pstr :
  N ≠ 0 -> safe (numberIs N) (loadTagPush E pstr).
Proof.
  intros HN. unfold loadTagPush.
  apply safe_bind;
    [apply (safe_liftL N true (fun _ => True)), tot_imageLoad|].
  intros [err|image]; [apply safe_mret|].
  apply safe_liftL_get; intros s0 _.
  destruct (decide (_ = "")); [apply safe_mret|].
  apply safe_bind.
  { eapply safe_liftL.
    apply (tot_ImageTag true image
             (newImageWithNewDomain E image (GetImageRepository E (cluster (p s0))))). }
  intros [err|]; [apply safe_mret|].
  apply safe_bind.
  { eapply safe_liftL.
    apply (tot_imagePush true image
             (newImageWithNewDomain E image (GetImageRepository E (cluster (p s0))))). }
  intros [err|]; [apply safe_mret|].
  apply safe_bind; [intros ls H; exists ls.1, ls; auto|]. intros count.
  apply safe_bind; [intros ls H; eexists tt, _; split; [reflexivity|exact H]|].
  intros _.
  apply safe_bind.
  { intros [l s1] H. eexists tt, _. split; [reflexivity|exact H]. }
  intros _.
  apply safe_liftL_get; intros s1 Hs1.
  rewrite Hs1. unfold div32. destruct (decide (N = 0)); [contradiction|].
  apply safe_bind; [apply safe_mret|]. intros progress.
  apply safe_bind;
    [eapply safe_liftL, (tot_updateConditionProgress true (fun _ => True))|].
  intros changed.
  apply safe_bind.
  { eapply safe_liftL. destruct changed.
    - apply (tot_p_updateCRStatus true (fun _ => True)). auto.
    - apply tot_step_mret. }
  intros [err|]; apply safe_mret.
Qed.

Lemma walkFn_safe N v :
  (validVisit v = true -> N ≠ 0) -> safe (numberIs N) (walkFn E v).
Proof.
  intros HN. unfold walkFn. unfold validVisit in HN.
  destruct (visitErr v); [apply safe_mret|].
  destruct (visitIsFile v); cbn [negb andb] in *; [|apply safe_mret].
  destruct (validateFile (visitPath v)); cbn [negb andb] in *;
    [|apply safe_mret].
  apply safe_Retry, loadTagPush_safe. auto.
Qed.

Lemma filter_nonempty {A} (f : A -> bool) l x :
  x ∈ l -> f x = true -> (0 < length (List.filter f l))%nat.
Proof.
  induction 1 as [x l|x y l _ IH]; intros Hf; simpl.
  - rewrite Hf. simpl. lia.
  - destruct (f y); simpl; [lia|auto].
Qed.

(** C9. Load-and-push over an unpack directory with fewer than [2^31]
    valid files never divides by zero: the pass returns, and the count
    [ImagesNumber] it divides by is the number of valid files, at least 1
    as soon as the walk visits one. *)
Theorem imagesLoadAndPush_no_division_by_zero s :
  Z.of_nat (length (List.filter validVisit (files (w s)))) < 2 ^ 31 ->
  exists r s',
    imagesLoadAndPush E s = Ret r s' /\
    ImagesNumber (status s')
      = Z.of_nat (length (List.filter validVisit (files (w s)))) /\
    (forall v, v ∈ files (w s) -> validVisit v = true ->
               1 <= ImagesNumber (status s')).
Proof.
  intros Hlt. unfold imagesLoadAndPush. rewrite bind_get, !bind_modify.
  set (N := Z.of_nat (length (List.filter validVisit (files (w s))))) in *.
  assert (HN : countImages (files (w s)) = N).
  { unfold countImages. rewrite countIn_spec; lia. }
  rewrite HN.
  assert (Hsafe : safe (numberIs N) (forRange (files (w s)) (walkFn E))).
  { apply safe_forRange. intros v Hv. apply walkFn_safe. intros Hvalid.
    pose proof (filter_nonempty validVisit _ _ Hv Hvalid). lia. }
  destruct (Hsafe (0, setImagesPushed [] (setImagesNumber N s)) eq_refl)
    as (r & [l s'] & Heq & HI).
  exists r, s'. unfold withLocal. rewrite Heq. split; [reflexivity|].
  split; [exact HI|].
  intros v Hv Hvalid. unfold numberIs in HI. simpl in HI. rewrite HI.
  pose proof (filter_nonempty validVisit _ _ Hv Hvalid). lia.
Qed.

End Store.

(** ** Destination references *)

(** C3, as the code has it.  The destination built from the loaded image
    [registry.example/foo/bar:1.2] and the new domain [dest.example/ns] is
    [dest.example/ns/foo/bar:1.2]: the registry domain is replaced, the
    whole repository path [foo/bar] and the tag are kept. *)
Theorem newImageWithNewDomain_example (E : Env) :
  newImageWithNewDomain E "registry.example/foo/bar:1.2" "dest.example/ns"
    = "dest.example/ns/foo/bar:1.2".
Proof. reflexivity. Qed.

(** The destination is not the one without the path element [foo]. *)
Lemma newImageWithNewDomain_keeps_path :
  String.eqb
    (newImageWithNewDomain Sample.env "registry.example/foo/bar:1.2"
                           "dest.example/ns")
    "dest.example/ns/bar:1.2" = false.
Proof. reflexivity. Qed.

(** ** Counting past the range of the counter *)

Lemma wrap32_range z : - 2 ^ 31 <= wrap32 z < 2 ^ 31.
Proof.
  unfold wrap32. pose proof (Z.mod_pos_bound (z + 2 ^ 31) (2 ^ 32)). lia.
Qed.

Lemma wrap32_add_l a b : wrap32 (wrap32 a + b) = wrap32 (a + b).
Proof.
  unfold wrap32. f_equal.
  replace ((a + 2 ^ 31) mod 2 ^ 32 - 2 ^ 31 + b + 2 ^ 31)
    with ((a + 2 ^ 31) mod 2 ^ 32 + b) by lia.
  rewrite Zplus_mod_idemp_l. f_equal. lia.
Qed.

(** Over [n] valid files the counter of [countImages] is [n] wrapped. *)
Lemma countIn_repeat v n :
  validVisit v = true ->
  forall count, countIn (repeat v n) (wrap32 count)
                = wrap32 (count + Z.of_nat n).
Proof.
  intros Hv. unfold validVisit in Hv.
  induction n as [|n IH]; intros count.
  - simpl. f_equal. lia.
  - cbn [repeat countIn].
    destruct (visitErr v); [discriminate|].
    destruct (visitIsFile v); [|discriminate].
    destruct (validateFile (visitPath v)); [|discriminate].
    cbn [negb]. rewrite wrap32_add_l, IH. f_equal. lia.
Qed.

Lemma countImages_repeat v n :
  validVisit v = true -> countImages (repeat v n) = wrap32 (Z.of_nat n).
Proof.
  intros Hv. unfold countImages.
  change 0 with (wrap32 0). now rewrite countIn_repeat.
Qed.

(** With a number of archives that the counter wraps to zero, the first
    archive is loaded, tagged and pushed, and the progress is then divided
    by zero. *)
Lemma crowded_divides_by_zero n :
  n ≠ 0%nat -> wrap32 (Z.of_nat n) = 0 ->
  imagesLoadAndPush Mirror.engine (Mirror.crowded n) = Panicked.
Proof.
  intros Hn Hw. destruct n as [|m]; [contradiction|].
  unfold imagesLoadAndPush. rewrite bind_get, !bind_modify.
  change (files (w (Mirror.crowded (S m))))
    with (repeat Mirror.archive (S m)).
  rewrite countImages_repeat by reflexivity. rewrite Hw.
  cbn [repeat]. unfold withLocal. cbn [forRange].
  rewrite bind_Panicked; [reflexivity|].
  vm_compute. reflexivity.
Qed.

(** C9 without its bound.  An unpack directory of [2^32] image archives:
    every one of them passes the filter, the [int32] count of
    [countImages] is 0, and [imagesLoadAndPush] divides by it after the
    first push. *)
Lemma imagesLoadAndPush_divides_by_zero :
  let s := Mirror.crowded (2 ^ 32)%nat in
  validVisit Mirror.archive = true /\
  files (w s) = repeat Mirror.archive (2 ^ 32)%nat /\
  countImages (files (w s)) = 0 /\
  imagesLoadAndPush Mirror.engine s = Panicked.
Proof.
  intros s.
  assert (Hw : wrap32 (Z.of_nat (2 ^ 32)%nat) = 0).
  { rewrite Nat2Z.inj_pow. reflexivity. }
  split; [reflexivity|]. split; [reflexivity|]. split.
  - change (files (w s)) with (repeat Mirror.archive (2 ^ 32)%nat).
    rewrite countImages_repeat by reflexivity. exact Hw.
  - apply crowded_divides_by_zero; [|exact Hw].
    apply Nat.pow_nonzero. discriminate.
Qed.

(** ** The theorems on sample inputs *)

(** A pass over a package whose download stage is Failed does not return
    at the status check: the handler runs, a push is attempted and the
    stored conditions change. *)
Lemma Reconcile_failed_pass_goes_on :
  let w0 := Sample.world
              (Sample.package
                 (Sample.statusOf Completed Failed Waiting Waiting Waiting))
              (Sample.clusterOf Sample.withPackage) in
  exists res w',
    Reconcile Sample.env w0 = Ret res w' /\
    Sample.storedStatuses w0
      = [(Init, Completed); (DownloadPackage, Failed); (UnpackPackage, Waiting);
         (PushImage, Waiting); (Ready, Waiting)] /\
    Sample.storedStatuses w'
      = [(Init, Completed); (DownloadPackage, Completed);
         (UnpackPackage, Completed); (PushImage, Failed); (Ready, Waiting)] /\
    EvImagePush "goodrain.me/builder" None ∈ trace w'.
Proof.
  eexists _, _. split; [vm_compute; reflexivity|].
  split; [reflexivity|]. split; [reflexivity|].
  apply list_elem_of_In. vm_compute. tauto.
Qed.

Lemma Reconcile_failed_runs_handle_witness :
  let k := Sample.package
             (Sample.statusOf Completed Failed Waiting Waiting Waiting) in
  let c := Sample.clusterOf Sample.withPackage in
  let w1 := setTrace [EvGetCluster; EvGetPackage] (Sample.world k c) in
  (exists x, x ∈ Conditions (PackageStatus k) /\ Status x = Failed) /\
  (forall x, x ∈ Conditions (PackageStatus k) -> Status x ≠ Running) /\
  checkStatusCanReturn Sample.env k w1 = Ret (k, (false, None)) w1.
Proof.
  intros k c w1.
  assert (Hf : exists x, x ∈ Conditions (PackageStatus k) /\ Status x = Failed).
  { exists (Sample.condition DownloadPackage Failed). split; [|reflexivity].
    right. left. }
  assert (Hr : forall x, x ∈ Conditions (PackageStatus k) -> Status x ≠ Running).
  { intros x Hx. apply list_elem_of_In in Hx. simpl in Hx.
    intuition (subst; discriminate). }
  split; [exact Hf|]. split; [exact Hr|].
  exact (proj1 (Reconcile_failed_runs_handle Sample.env (Sample.world k c) k c
                  eq_refl eq_refl eq_refl eq_refl eq_refl
                  ltac:(discriminate) Hf Hr)).
Defined.

(** In the full-online mode a package without conditions gets five
    conditions that are all Completed. *)
Lemma Reconcile_full_online_completes :
  let w0 := Sample.world (Sample.package Sample.noConditions)
              (Sample.clusterOf InstallationModeFullOnline) in
  exists res w',
    Reconcile Sample.env w0 = Ret res w' /\
    Sample.storedStatuses w'
      = [(Init, Completed); (DownloadPackage, Completed);
         (UnpackPackage, Completed); (PushImage, Completed);
         (Ready, Completed)].
Proof. eexists _, _. split; [vm_compute; reflexivity|reflexivity]. Qed.

Lemma Reconcile_initializes_witness :
  let k := Sample.package Sample.noConditions in
  let c := Sample.clusterOf Sample.withPackage in
  Conditions (PackageStatus k) = [] /\
  InstallMode (ClusterSpec c) ≠ InstallationModeFullOnline /\
  exists res w' st,
    Reconcile Sample.env (Sample.world k c) = Ret (res, None) w' /\
    map (fun x => (Type_ x, Status x)) (Conditions st)
      = [(Init, Waiting); (DownloadPackage, Waiting); (UnpackPackage, Waiting);
         (PushImage, Waiting); (Ready, Waiting)] /\
    res = {| RequeueAfter := 0 |} /\
    apiPackage w' = Some (withStatus st k).
Proof.
  intros k c. split; [reflexivity|]. split; [discriminate|].
  destruct (Reconcile_initializes Sample.env (Sample.world k c) k c
              eq_refl eq_refl eq_refl eq_refl eq_refl
              ltac:(discriminate) eq_refl)
    as (res & w' & st & Heq & _ & Hmap & Hres).
  exists res, w', st. split; [exact Heq|]. split; [exact Hmap|]. exact Hres.
Defined.

Lemma updateConditionStatus_spec_witness :
  let s := Sample.state
             (Sample.package
                (Sample.statusOf Completed Running Waiting Waiting Waiting))
             false [] in
  findCondition DownloadPackage s
    = Some (1%nat, Sample.condition DownloadPackage Running) /\
  exists s' c',
    updateConditionStatus Sample.env DownloadPackage Completed s = Ret tt s' /\
    conditions s' !! 1%nat = Some c' /\
    Status c' = Completed /\
    LastTransitionTime c' = 1000 /\
    LastHeartbeatTime c' = 1001 /\
    Progress c' = 100.
Proof.
  intros s. split; [reflexivity|].
  destruct (updateConditionStatus_spec Sample.env DownloadPackage Completed s
              1%nat (Sample.condition DownloadPackage Running) eq_refl)
    as (s' & c' & Heq & _ & Hl & _ & _ & Hst & Hhb & Htr & Hc & _).
  exists s', c'. split; [exact Heq|]. split; [exact Hl|]. split; [exact Hst|].
  split; [exact Htr|]. split; [exact Hhb|]. exact (proj1 (Hc eq_refl)).
Defined.

(** A negative progress is stored as it is. *)
Lemma updateConditionProgress_negative :
  let s := Sample.state
             (Sample.package
                (Sample.statusOf Completed Completed Completed Waiting Waiting))
             false [] in
  exists s' c',
    updateConditionProgress Sample.env PushImage (-5) s = Ret true s' /\
    findCondition PushImage s' = Some (3%nat, c') /\
    Progress c' = -5 /\
    (0 <=? Progress c')%Z = false.
Proof.
  eexists _, _. split; [vm_compute; reflexivity|].
  repeat split; reflexivity.
Qed.

Lemma updateConditionProgress_spec_witness :
  let s := Sample.state
             (Sample.package
                (Sample.statusOf Completed Completed Completed Waiting Waiting))
             false [] in
  findCondition PushImage s = Some (3%nat, Sample.condition PushImage Waiting) /\
  exists b s' c',
    updateConditionProgress Sample.env PushImage 250 s = Ret b s' /\
    findCondition PushImage s' = Some (3%nat, c') /\
    Progress c' = 100.
Proof.
  intros s. split; [reflexivity|].
  destruct (updateConditionProgress_spec Sample.env PushImage 250 s
              3%nat (Sample.condition PushImage Waiting) eq_refl)
    as (b & s' & c' & Heq & Hf & Hp & _).
  exists b, s', c'. split; [exact Heq|]. split; [exact Hf|]. exact Hp.
Defined.

Lemma setInitStatus_spec_witness :
  let s := Sample.state
             (Sample.package
                (Sample.statusOf Waiting Waiting Waiting Waiting Waiting))
             false [] in
  findCondition Init s = Some (0%nat, Sample.condition Init Waiting) /\
  Status (Sample.condition Init Waiting) ≠ Completed /\
  exists e s' c',
    setInitStatus Sample.env s = Ret e s' /\
    findCondition Init s' = Some (0%nat, c') /\
    Status c' = Completed /\
    Progress c' = 0 /\
    Progress c' ≠ 100.
Proof.
  intros s. split; [reflexivity|]. split; [discriminate|].
  destruct (setInitStatus_spec Sample.env s 0%nat
              (Sample.condition Init Waiting) eq_refl ltac:(discriminate))
    as (e & s' & c' & Heq & _ & Hf & Hst & Hp & _ & _ & _ & _ & _ & Hne).
  exists e, s', c'. split; [exact Heq|]. split; [exact Hf|].
  split; [exact Hst|]. split; [exact Hp|]. apply Hne. discriminate.
Defined.

Lemma pushImageStage_first_image_fails_witness :
  let s := Sample.state
             (Sample.package
                (Sample.statusOf Completed Completed Completed Waiting Waiting))
             false [("/builder:v5.3.3", "/builder"); ("/runner:v5.3.3", "/runner")] in
  let remote1 := gopath.Join [downloadImageDomain (p s); "/builder:v5.3.3"] in
  let local1 := gopath.Join [pushImageDomain (p s); "/builder"] in
  let remote2 := gopath.Join [downloadImageDomain (p s); "/runner:v5.3.3"] in
  let local2 := gopath.Join [pushImageDomain (p s); "/runner"] in
  let s0 := setImagesPushed []
              (setImagesNumber (wrap32 (Z.of_nat (length (images (p s))))) s) in
  exists e1 sa e2 sb e3 sc,
    pullTagPush Sample.env remote1 local1 s0 = Ret (false, Some e1) sa /\
    pullTagPush Sample.env remote1 local1 sa = Ret (false, Some e2) sb /\
    pullTagPush Sample.env remote1 local1 sb = Ret (false, Some e3) sc /\
    exists s' new,
      pushImageStage Sample.env s
        = Ret (Some ("failed to pull and push images: " +:+ e3)) s' /\
      (exists c', findCondition PushImage s' = Some (3%nat, c') /\
                  Status c' = Failed) /\
      ImagesPushed (status s') = [] /\
      trace (w s') = (new ++ trace (w s))%list /\
      Forall (fun ev => (remote2 ∉ imagesOf ev) /\ (local2 ∉ imagesOf ev)) new.
Proof.
  intros s remote1 local1 remote2 local2 s0.
  assert (H : exists e1 sa e2 sb e3 sc,
    pullTagPush Sample.env remote1 local1 s0 = Ret (false, Some e1) sa /\
    pullTagPush Sample.env remote1 local1 sa = Ret (false, Some e2) sb /\
    pullTagPush Sample.env remote1 local1 sb = Ret (false, Some e3) sc).
  { eexists _, _, _, _, _, _.
    split; [vm_compute; reflexivity|].
    split; vm_compute; reflexivity. }
  destruct H as (e1 & sa & e2 & sb & e3 & sc & H1 & H2 & H3).
  exists e1, sa, e2, sb, e3, sc.
  split; [exact H1|]. split; [exact H2|]. split; [exact H3|].
  destruct (pushImageStage_first_image_fails Sample.env s
              "/builder:v5.3.3" "/builder" "/runner:v5.3.3" "/runner"
              e1 e2 e3 sa sb sc eq_refl eq_refl H1 H2 H3)
    as (s' & new & Heq & Hfailed & Hpushed & Htrace & _ & Hsecond).
  exists s', new. split; [exact Heq|].
  split; [exact (Hfailed 3%nat (Sample.condition PushImage Waiting) eq_refl)|].
  split; [exact Hpushed|]. split; [exact Htrace|].
  apply Hsecond; intros Hin; apply list_elem_of_In in Hin; vm_compute in Hin;
    intuition discriminate.
Defined.

Lemma downloadStage_retries_once_witness :
  let s := Sample.state
             (Sample.package
                (Sample.statusOf Completed Running Waiting Waiting Waiting))
             true [] in
  (exists s',
     downloadStage Sample.env s
       = Ret (Some ("failed to download package " +:+ "connection reset")) s' /\
     nDownloads (trace (w s')) = (nDownloads (trace (w s)) + 2)%nat /\
     exists c', findCondition DownloadPackage s' = Some (1%nat, c') /\
                Status c' = Failed) /\
  (exists r s',
     downloadStage Mirror.flaky s = Ret r s' /\
     nDownloads (trace (w s')) = (nDownloads (trace (w s)) + 2)%nat /\
     exists c', findCondition DownloadPackage s' = Some (1%nat, c') /\
                Status c' = Completed).
Proof.
  intros s. split.
  - assert (H : exists s0, checkExisting Sample.env s = Ret false s0)
      by (eexists; vm_compute; reflexivity).
    destruct H as (s0 & H0).
    destruct (downloadStage_retries_once Sample.env s s0
                "connection reset" H0 (fun h _ => eq_refl))
      as (h2 & r & s' & new & Heq & _ & Hn & _ & _ & Hr & Hfailed).
    exists s'. rewrite <- Hr. split; [exact Heq|]. split; [exact Hn|].
    exact (Hfailed 1%nat (Sample.condition DownloadPackage Running) eq_refl).
  - assert (H : exists s0, checkExisting Mirror.flaky s = Ret false s0)
      by (eexists; vm_compute; reflexivity).
    destruct H as (s0 & H0).
    assert (H1 : forall h, nDownloads h = nDownloads (trace (w s)) ->
                           (download Mirror.flaky h).2 = Some "connection reset").
    { intros h Hh. cbn [download Mirror.flaky]. rewrite Hh. reflexivity. }
    destruct (downloadStage_retries_once Mirror.flaky s s0
                "connection reset" H0 H1)
      as (h2 & r & s' & new & Heq & Hh2 & Hn & _ & _ & Hdone).
    exists r, s'. split; [exact Heq|]. split; [exact Hn|].
    cbn [download Mirror.flaky] in Hdone. rewrite Hh2 in Hdone.
    exact (Hdone 1%nat (Sample.condition DownloadPackage Running) eq_refl).
Defined.

Lemma imagesLoadAndPush_no_division_by_zero_witness :
  let s := Sample.unpacked
             (Sample.state
                (Sample.package
                   (Sample.statusOf Completed Completed Completed Running Waiting))
                true []) in
  Z.of_nat (length (List.filter validVisit (files (w s)))) = 2 /\
  exists s' c',
    imagesLoadAndPush Mirror.engine s = Ret None s' /\
    ImagesNumber (status s') = 2 /\
    ImagesPushed (status s')
      = ["goodrain.me/rbd-api:v5"; "goodrain.me/rbd-api:v5"] /\
    findCondition PushImage s' = Some (3%nat, c') /\ Progress c' = 100.
Proof.
  intros s.
  assert (H2 : Z.of_nat (length (List.filter validVisit (files (w s)))) = 2)
    by (vm_compute; reflexivity).
  split; [exact H2|].
  assert (Hlt : Z.of_nat (length (List.filter validVisit (files (w s)))) < 2 ^ 31)
    by (rewrite H2; reflexivity).
  destruct (imagesLoadAndPush_no_division_by_zero Mirror.engine s Hlt)
    as (r & s' & Heq & Hn & _).
  assert (Hrun : exists s1 c1,
            imagesLoadAndPush Mirror.engine s = Ret None s1 /\
            ImagesPushed (status s1)
              = ["goodrain.me/rbd-api:v5"; "goodrain.me/rbd-api:v5"] /\
            findCondition PushImage s1 = Some (3%nat, c1) /\ Progress c1 = 100)
    by (eexists _, _; vm_compute; repeat split; reflexivity).
  destruct Hrun as (s1 & c1 & Heq1 & Hp & Hf & Hc).
  rewrite Heq in Heq1. inversion Heq1; subst r s1.
  exists s', c1. split; [exact Heq|]. split; [rewrite Hn; exact H2|].
  split; [exact Hp|]. split; [exact Hf|exact Hc].
Defined.

(** * Further properties of the controller *)

Section Pass.

Variable E : Env.

Lemma bind_assoc {S A B C} (m : M S A) (k : A -> M S B) (k' : B -> M S C) s :
  ((m ≫= k) ≫= k') s = (m ≫= fun a => k a ≫= k') s.
Proof. unfold mbind, M_bind. destruct (m s); reflexivity. Qed.

(** ** The status check of [Reconcile] *)

Lemma checkConditions_running pre x post : forall n,
  Forall (fun y => Status y ≠ Running /\ Status y ≠ Failed) pre ->
  Status x = Running ->
  checkConditions (pre ++ x :: post) n = inl (false, Some {| RequeueAfter := 0 |}).
Proof.
  induction pre as [|y pre IH]; intros n Hpre Hx; simpl.
  - destruct (decide (Status x = Running)); [reflexivity|contradiction].
  - inversion Hpre as [|? ? [Hr Hf] Hrest]; subst.
    destruct (decide (Status y = Running)); [contradiction|].
    destruct (decide (Status y = Failed)); [contradiction|].
    now apply IH.
Qed.

Lemma checkConditions_completed cs : forall n,
  Forall (fun y => Status y = Completed) cs ->
  checkConditions cs n = inr (n + length cs)%nat.
Proof.
  induction cs as [|y cs IH]; intros n H; simpl; [f_equal; lia|].
  inversion H as [|? ? Hy Hrest]; subst. rewrite Hy.
  destruct (decide (Completed = Running)); [discriminate|].
  destruct (decide (Completed = Failed)); [discriminate|].
  destruct (decide (Completed = Completed)); [|contradiction].
  rewrite IH by assumption. f_equal. lia.
Qed.

(** The pass up to the status check, for a package and a cluster that are
    read, a configuration that is complete and a mode that is not
    full-online. *)
Lemma Reconcile_to_check w0 k c :
  apiPackage w0 = Some k ->
  apiCluster w0 = Some c ->
  getPackageError E (trace w0) = None ->
  getClusterError E (EvGetPackage :: trace w0) = None ->
  ConfigCompleted (ClusterSpec c) = true ->
  InstallMode (ClusterSpec c) ≠ InstallationModeFullOnline ->
  forall r,
  checkStatusCanReturn E k
    (setTrace (EvGetCluster :: EvGetPackage :: trace w0) w0)
    = Ret (k, (false, Some r))
          (setTrace (EvGetCluster :: EvGetPackage :: trace w0) w0) ->
  Reconcile E w0
    = Ret (r, None) (setTrace (EvGetCluster :: EvGetPackage :: trace w0) w0).
Proof.
  intros Hk Hc Hge Hce Hcc Hmode r Hchk.
  unfold Reconcile, callW, record.
  rewrite bind_Ret with (a := trace w0)
                        (s' := setTrace (EvGetPackage :: trace w0) w0)
    by reflexivity.
  rewrite bind_get. simpl. rewrite Hge, Hk.
  rewrite bind_Ret with (a := EvGetPackage :: trace w0)
    (s' := setTrace (EvGetCluster :: EvGetPackage :: trace w0) w0)
    by reflexivity.
  rewrite Hce, Hc, Hcc. cbn [negb].
  destruct (decide (InstallMode (ClusterSpec c) = InstallationModeFullOnline));
    [contradiction|].
  rewrite (bind_Ret _ _ _ _ _ Hchk). reflexivity.
Qed.

(** X1. A stage in flight ends the pass at once.  When the first condition that
    is Running or Failed is Running, [Reconcile] returns an empty result
    without error, after reading the package and the cluster and nothing
    else: no status write, no handler, and no requeue either. *)
Theorem Reconcile_in_flight w0 k c pre x post :
  apiPackage w0 = Some k ->
  apiCluster w0 = Some c ->
  getPackageError E (trace w0) = None ->
  getClusterError E (EvGetPackage :: trace w0) = None ->
  ConfigCompleted (ClusterSpec c) = true ->
  InstallMode (ClusterSpec c) ≠ InstallationModeFullOnline ->
  Conditions (PackageStatus k) = (pre ++ x :: post)%list ->
  Forall (fun y => Status y ≠ Running /\ Status y ≠ Failed) pre ->
  Status x = Running ->
  Reconcile E w0
    = Ret ({| RequeueAfter := 0 |}, None)
          (setTrace (EvGetCluster :: EvGetPackage :: trace w0) w0).
Proof.
  intros Hk Hc Hge Hce Hcc Hmode Hcs Hpre Hx.
  apply (Reconcile_to_check w0 k c); auto.
  unfold checkStatusCanReturn. rewrite Hcs.
  destruct (decide (length (pre ++ x :: post) = 0%nat)) as [Hz|_].
  - rewrite length_app in Hz. simpl in Hz. lia.
  - now rewrite (checkConditions_running pre x post 0%nat Hpre Hx).
Qed.

(** X2. A package whose conditions are all Completed is left alone: the pass
    returns an empty result without error and writes nothing. *)
Theorem Reconcile_all_completed w0 k c :
  apiPackage w0 = Some k ->
  apiCluster w0 = Some c ->
  getPackageError E (trace w0) = None ->
  getClusterError E (EvGetPackage :: trace w0) = None ->
  ConfigCompleted (ClusterSpec c) = true ->
  InstallMode (ClusterSpec c) ≠ InstallationModeFullOnline ->
  Conditions (PackageStatus k) ≠ [] ->
  Forall (fun y => Status y = Completed) (Conditions (PackageStatus k)) ->
  Reconcile E w0
    = Ret ({| RequeueAfter := 0 |}, None)
          (setTrace (EvGetCluster :: EvGetPackage :: trace w0) w0).
Proof.
  intros Hk Hc Hge Hce Hcc Hmode Hne Hall.
  apply (Reconcile_to_check w0 k c); auto.
  unfold checkStatusCanReturn.
  destruct (decide (length (Conditions (PackageStatus k)) = 0%nat)) as [Hz|_].
  - apply length_zero_iff_nil in Hz. contradiction.
  - rewrite (checkConditions_completed _ 0%nat Hall). simpl.
    destruct (decide (_ = _)); [reflexivity|contradiction].
Qed.

(** X3. While the cluster cannot be read or its configuration is not complete,
    the pass asks to be run again after 3 seconds, without error, and does
    nothing but read the package and the cluster. *)
Theorem Reconcile_waits_for_cluster w0 k :
  apiPackage w0 = Some k ->
  getPackageError E (trace w0) = None ->
  (getClusterError E (EvGetPackage :: trace w0) ≠ None \/
   apiCluster w0 = None \/
   exists c, apiCluster w0 = Some c /\ ConfigCompleted (ClusterSpec c) = false) ->
  Reconcile E w0
    = Ret ({| RequeueAfter := 3 |}, None)
          (setTrace (EvGetCluster :: EvGetPackage :: trace w0) w0).
Proof.
  intros Hk Hge Hwait.
  unfold Reconcile, callW, record.
  rewrite bind_Ret with (a := trace w0)
                        (s' := setTrace (EvGetPackage :: trace w0) w0)
    by reflexivity.
  rewrite bind_get. simpl. rewrite Hge, Hk.
  rewrite bind_Ret with (a := EvGetPackage :: trace w0)
    (s' := setTrace (EvGetCluster :: EvGetPackage :: trace w0) w0)
    by reflexivity.
  destruct (getClusterError E (EvGetPackage :: trace w0)) as [e|];
    [reflexivity|].
  destruct Hwait as [H|[H|(c & H & Hcc)]]; [contradiction| |];
    rewrite H; [reflexivity|]. now rewrite Hcc.
Qed.

(** X4. The only error a pass hands to its caller is a failure to read the
    package: when that read gives no error (the package is found or is
    gone), whatever the pass does it returns without error. *)
Theorem Reconcile_no_error w0 res err w' :
  getPackageError E (trace w0) = None ->
  Reconcile E w0 = Ret (res, err) w' ->
  err = None.
Proof.
  intros Hge. unfold Reconcile, callW, record.
  rewrite bind_Ret with (a := trace w0)
                        (s' := setTrace (EvGetPackage :: trace w0) w0)
    by reflexivity.
  rewrite bind_get. simpl. rewrite Hge.
  destruct (apiPackage w0) as [k|]; [|intros H; inversion H; reflexivity].
  rewrite bind_Ret with (a := EvGetPackage :: trace w0)
    (s' := setTrace (EvGetCluster :: EvGetPackage :: trace w0) w0)
    by reflexivity.
  destruct (match getClusterError E (EvGetPackage :: trace w0) with
            | Some _ => None | None => apiCluster w0 end) as [c|];
    [|intros H; inversion H; reflexivity].
  destruct (negb (ConfigCompleted (ClusterSpec c)));
    [intros H; inversion H; reflexivity|].
  assert (Hend : forall (m : M World (option error)) w1,
            (m ≫= fun e => match e with
                           | Some _ => mret ({| RequeueAfter := 5 |}, None)
                           | None => mret ({| RequeueAfter := 0 |}, None)
                           end) w1 = Ret (res, err) w' -> err = None).
  { intros m w1. unfold mbind, M_bind, mret, M_ret.
    destruct (m w1) as [[e|] w2|]; intros H; inversion H; reflexivity. }
  destruct (decide (InstallMode (ClusterSpec c) = InstallationModeFullOnline)).
  - unfold mbind at 1, M_bind at 1.
    destruct (initPackageStatus E Completed _) as [st w1|]; [|discriminate].
    apply Hend.
  - unfold mbind at 1, M_bind at 1.
    destruct (checkStatusCanReturn E k _) as [[k' [[|] re]] w1|];
      [| |discriminate]; cbn [fst snd].
    + apply Hend.
    + destruct re as [r|]; [intros H; inversion H; reflexivity|].
      rewrite bind_Ret with (a := trace w1)
        (s' := setTrace (EvNewDockerClient :: trace w1) w1) by reflexivity.
      destruct (newDockerClient E (trace w1));
        [intros H; inversion H; reflexivity|].
      unfold mbind, M_bind, mret, M_ret.
      destruct (runPass _ _ _) as [[e|] w2|]; intros H; inversion H; reflexivity.
Qed.


(** X5. In the full-online mode every pass overwrites the status, whatever it
    was, with the five conditions, all Completed and with progress 0, and
    calls neither the handler nor the image engine. *)
Theorem Reconcile_full_online w0 k c :
  apiPackage w0 = Some k ->
  apiCluster w0 = Some c ->
  getPackageError E (trace w0) = None ->
  getClusterError E (EvGetPackage :: trace w0) = None ->
  ConfigCompleted (ClusterSpec c) = true ->
  InstallMode (ClusterSpec c) = InstallationModeFullOnline ->
  exists res w' st,
    Reconcile E w0 = Ret (res, None) w' /\
    trace w' = EvStatusUpdate st :: EvGetCluster :: EvGetPackage :: trace w0 /\
    map (fun x => (Type_ x, Status x, Progress x)) (Conditions st)
      = [(Init, Completed, 0); (DownloadPackage, Completed, 0);
         (UnpackPackage, Completed, 0); (PushImage, Completed, 0);
         (Ready, Completed, 0)] /\
    match statusUpdate E (EvGetCluster :: EvGetPackage :: trace w0) st with
    | None => res = {| RequeueAfter := 0 |} /\
              apiPackage w' = Some (withStatus st k)
    | Some _ => res = {| RequeueAfter := 5 |} /\ apiPackage w' = Some k
    end.
Proof.
  intros Hk Hc Hge Hce Hcc Hmode.
  unfold Reconcile, callW, record.
  rewrite bind_Ret with (a := trace w0)
                        (s' := setTrace (EvGetPackage :: trace w0) w0)
    by reflexivity.
  rewrite bind_get. simpl. rewrite Hge, Hk.
  rewrite bind_Ret with (a := EvGetPackage :: trace w0)
    (s' := setTrace (EvGetCluster :: EvGetPackage :: trace w0) w0)
    by reflexivity.
  rewrite Hce, Hc, Hcc. cbn [negb].
  destruct (decide (InstallMode (ClusterSpec c) = InstallationModeFullOnline));
    [|contradiction]. clear e.
  erewrite bind_Ret by (rewrite initPackageStatus_eq; reflexivity).
  erewrite bind_Ret by (apply updateCRStatus_stored; exact Hk).
  match goal with
  | |- context [statusUpdate E ?h ?st] =>
      remember (statusUpdate E h st) as su eqn:Hu
  end.
  destruct su as [eu|]; eexists _, _, _;
    (split; [reflexivity|]); cbn;
    (split; [reflexivity|]); (split; [reflexivity|]);
    match goal with
    | |- match ?x with _ => _ end =>
        match type of Hu with ?v = _ => replace x with v by exact Hu end
    end; auto.
Qed.

(** ** The condition store: reasons *)

Lemma updateResionIn_found typ3 r m cs : forall k i c w0,
  findIn typ3 k cs = Some (i, c) ->
  updateResionIn E typ3 r m cs w0
    = Ret (<[(i - k)%nat := withReason r m (withHeartbeat (now E (ticks w0)) c)]> cs)
          (setTicks (S (ticks w0)) w0).
Proof.
  induction cs as [|x rest IH]; intros k i c w0 H; simpl in H; [discriminate|].
  simpl. destruct (decide (Type_ x = typ3)) as [Hx|Hx].
  - inversion H; subst. replace (i - i)%nat with 0%nat by lia. reflexivity.
  - pose proof (findIn_Some _ _ _ _ _ H) as (Hle & _ & _).
    erewrite bind_Ret by (apply IH; eassumption).
    unfold mret, M_ret.
    replace (i - k)%nat with (S (i - S k)) by lia. reflexivity.
Qed.

Lemma updateResionIn_missing typ3 r m cs : forall k w0,
  findIn typ3 k cs = None -> updateResionIn E typ3 r m cs w0 = Ret cs w0.
Proof.
  induction cs as [|x rest IH]; intros k w0 H; simpl in *; [reflexivity|].
  destruct (decide (Type_ x = typ3)); [discriminate|].
  erewrite bind_Ret by (eapply IH; eassumption). reflexivity.
Qed.

(** X6. [updateConditionResion] writes the reason and
    the message into the first condition of the stage and sets its
    heartbeat to the time read; status, progress and transition time of
    that condition, every other condition and the trace are as before. *)
Theorem updateConditionResion_spec typ3 r m s i c :
  findCondition typ3 s = Some (i, c) ->
  exists s' c',
    updateConditionResion E typ3 r m s = Ret tt s' /\
    conditions s' = <[i := c']> (conditions s) /\
    findCondition typ3 s' = Some (i, c') /\
    Reason c' = r /\ Message c' = m /\
    LastHeartbeatTime c' = now E (ticks (w s)) /\
    Status c' = Status c /\ Progress c' = Progress c /\
    LastTransitionTime c' = LastTransitionTime c /\
    trace (w s') = trace (w s).
Proof.
  intros H. unfold updateConditionResion, findCondition in *.
  rewrite bind_get.
  erewrite bind_Ret
    by (apply liftW_Ret; eapply updateResionIn_found; eassumption).
  replace (i - 0)%nat with i by lia.
  eexists _, _. split; [reflexivity|]. split; [reflexivity|].
  pose proof (findIn_Some _ _ _ _ _ H) as (_ & Hl & Ht).
  replace (i - 0)%nat with i in Hl by lia.
  split; [|simpl; repeat split; reflexivity].
  assert (Hty : map Type_
                  (<[i:=withReason r m
                          (withHeartbeat (now E (ticks (w s))) c)]> (conditions s))
                = map Type_ (conditions s)).
  { rewrite list_fmap_insert. simpl. apply list_insert_id.
    rewrite list_lookup_fmap, Hl. reflexivity. }
  destruct (findIn_types _ _ _ _ _ _ Hty H) as (c' & Hc').
  pose proof (findIn_Some _ _ _ _ _ Hc') as (_ & Hl' & _).
  replace (i - 0)%nat with i in Hl' by lia.
  rewrite list_lookup_insert_eq in Hl' by (eapply lookup_lt_Some; eauto).
  inversion Hl'; subst c'. exact Hc'.
Qed.

(** X7. On a stage that has no condition the three operations of the store
    change nothing and do not read the clock. *)
Theorem store_missing_stage typ3 v r m progress s :
  findCondition typ3 s = None ->
  updateConditionStatus E typ3 v s = Ret tt s /\
  updateConditionResion E typ3 r m s = Ret tt s /\
  updateConditionProgress E typ3 progress s = Ret false s.
Proof.
  intros H. split; [now apply updateConditionStatus_missing|].
  assert (Hs : forall s0 : St, setConditions (conditions s0) (setW (w s0) s0) = s0).
  { intros s0. now rewrite setW_id, setConditions_id. }
  split.
  - unfold updateConditionResion, findCondition in *. rewrite bind_get.
    erewrite bind_Ret
      by (apply liftW_Ret; eapply updateResionIn_missing; eassumption).
    unfold modify. now rewrite Hs.
  - unfold updateConditionProgress, findCondition in *. rewrite bind_get.
    assert (Hp : forall pr cs k w0, findIn typ3 k cs = None ->
                 updateProgressIn E typ3 pr cs w0 = Ret (cs, false) w0).
    { intros pr cs. induction cs as [|x rest IH]; intros k w0 Hn; simpl in *;
        [reflexivity|].
      destruct (decide (Type_ x = typ3)); [discriminate|].
      erewrite bind_Ret by (eapply IH; eassumption). reflexivity. }
    erewrite bind_Ret by (apply liftW_Ret; eapply Hp; eassumption).
    rewrite bind_modify. cbn [fst snd]. unfold mret, M_ret. now rewrite Hs.
Qed.


(** ** The gatekeeper: stages that are skipped *)

Lemma findCondition_insert typ3 s i c c' :
  findCondition typ3 s = Some (i, c) ->
  Type_ c' = Type_ c ->
  findIn typ3 0 (<[i := c']> (conditions s)) = Some (i, c').
Proof.
  intros H Hty. unfold findCondition in H.
  pose proof (findIn_Some _ _ _ _ _ H) as (_ & Hl & Ht).
  replace (i - 0)%nat with i in Hl by lia.
  assert (Hm : map Type_ (<[i := c']> (conditions s)) = map Type_ (conditions s)).
  { rewrite list_fmap_insert. apply list_insert_id.
    rewrite list_lookup_fmap, Hl. simpl. now rewrite Hty. }
  destruct (findIn_types _ _ _ _ _ _ Hm H) as (c'' & Hc'').
  pose proof (findIn_Some _ _ _ _ _ Hc'') as (_ & Hl'' & _).
  replace (i - 0)%nat with i in Hl'' by lia.
  rewrite list_lookup_insert_eq in Hl'' by (eapply lookup_lt_Some; eauto).
  inversion Hl''; subst c''. exact Hc''.
Qed.

(** [completeCondition] on a condition that was found: the condition is
    Completed with progress 100 and no reason, the others are as before,
    and the only call is one status write. *)
Lemma completeCondition_spec typ3 s i c :
  findCondition typ3 s = Some (i, c) ->
  exists e s' c',
    completeCondition E (Some (i, c)) s = Ret e s' /\
    conditions s' = <[i := c']> (conditions s) /\
    findCondition typ3 s' = Some (i, c') /\
    Type_ c' = typ3 /\ Status c' = Completed /\ Progress c' = 100 /\
    Reason c' = "" /\ Message c' = "" /\
    trace (w s') = EvStatusUpdate (status s') :: trace (w s) /\
    handlerFields (p s') = handlerFields (p s).
Proof.
  intros H. unfold completeCondition.
  pose proof (findIn_Some _ _ _ _ _ H) as (_ & Hl & Ht). rewrite Ht.
  pose proof (updateConditionStatus_found E typ3 Completed s i c H) as Heq.
  cbv zeta in Heq. destruct (decide (Completed = Completed)); [|contradiction].
  rewrite (bind_Ret _ _ _ _ _ Heq).
  match type of Heq with _ = Ret tt ?x => set (s1 := x) in * end.
  destruct (p_updateCRStatus_shape E s1) as (eu & ap & Heq2).
  rewrite Heq2. eexists _, _, _. split; [reflexivity|].
  split; [reflexivity|]. split.
  - apply (findCondition_insert typ3 s i c); [exact H|].
    destruct (decide (Status c ≠ Completed)); reflexivity.
  - simpl. destruct (decide (Status c ≠ Completed)); simpl;
      repeat split; auto.
Qed.

(** X8. The skip of the download stage.  When no package is to be downloaded
    and DownloadPackage is not Completed, [canDownload] answers no and
    leaves the condition Completed with progress 100, every other
    condition as it was, and has made no transfer. *)
Theorem canDownload_skips s i c :
  downloadPackage (p s) = false ->
  findCondition DownloadPackage s = Some (i, c) ->
  Status c ≠ Completed ->
  exists s' c',
    canDownload E s = Ret false s' /\
    conditions s' = <[i := c']> (conditions s) /\
    findCondition DownloadPackage s' = Some (i, c') /\
    Status c' = Completed /\ Progress c' = 100 /\
    nDownloads (trace (w s')) = nDownloads (trace (w s)).
Proof.
  intros Hdl Hf Hs. unfold canDownload. rewrite bind_get, Hf.
  destruct (decide (Status c ≠ Completed)); [|contradiction].
  rewrite Hdl. cbn [negb].
  destruct (completeCondition_spec DownloadPackage s i c Hf)
    as (e & s' & c' & Heq & Hcs & Hf' & _ & Hst & Hp & _ & _ & Htr & _).
  rewrite (bind_Ret _ _ _ _ _ Heq).
  exists s', c'. split; [reflexivity|]. repeat split; auto.
  rewrite Htr. reflexivity.
Qed.

(** X9. The skip of the unpack stage.  When no package is to be downloaded,
    DownloadPackage is Completed and UnpackPackage is not, [canUnpack]
    answers no and leaves UnpackPackage Completed with progress 100 and
    every other condition as it was. *)
Theorem canUnpack_skips s i c j u :
  downloadPackage (p s) = false ->
  findCondition DownloadPackage s = Some (i, c) ->
  Status c = Completed ->
  findCondition UnpackPackage s = Some (j, u) ->
  Status u ≠ Completed ->
  exists s' u',
    canUnpack E s = Ret false s' /\
    conditions s' = <[j := u']> (conditions s) /\
    findCondition UnpackPackage s' = Some (j, u') /\
    Status u' = Completed /\ Progress u' = 100.
Proof.
  intros Hdl Hf Hs Hu Hus. unfold canUnpack. rewrite bind_get, Hf.
  destruct (decide (Status c ≠ Completed)); [contradiction|].
  rewrite Hu. destruct (decide (Status u ≠ Completed)); [|contradiction].
  rewrite Hdl. cbn [negb].
  destruct (completeCondition_spec UnpackPackage s j u Hu)
    as (e & s' & u' & Heq & Hcs & Hf' & _ & Hst & Hp & _).
  rewrite (bind_Ret _ _ _ _ _ Heq).
  exists s', u'. split; [reflexivity|]. repeat split; auto.
Qed.



(** ** The precondition gate of [handle] *)

Lemma isImageRepositoryReady_eq s :
  isImageRepositoryReady s =
    Ret (match GetCondition RainbondClusterConditionTypeImageRepository
                 (ClusterConditions (cluster (p s))) with
         | None => false
         | Some condition =>
             bool_decide (ClusterConditionStatus condition = ConditionTrue)
         end) s.
Proof.
  unfold isImageRepositoryReady. rewrite bind_get.
  destruct (GetCondition _ _); reflexivity.
Qed.

(** X10. The precondition gate.  While the configuration of the cluster is not
    complete, or the image repository is not reported ready, [handle]
    returns one of its two waiting errors and leaves the state as it is:
    no condition is touched, nothing is written, no call is made. *)
Theorem handle_precondition_gate s :
  (ConfigCompleted (ClusterSpec (cluster (p s))) = false \/
   forall condition,
     GetCondition RainbondClusterConditionTypeImageRepository
       (ClusterConditions (cluster (p s))) = Some condition ->
     ClusterConditionStatus condition ≠ ConditionTrue) ->
  exists err,
    handle E s = Ret (Some err) s /\
    (err = errorClusterConfigNotReady \/ err = errorClusterConfigNoLocalHub).
Proof.
  intros Hgate.
  assert (Hcfg : exists err,
            checkClusterConfig E s = Ret (Some err) s /\
            (err = errorClusterConfigNotReady
             \/ err = errorClusterConfigNoLocalHub)).
  { destruct (ConfigCompleted (ClusterSpec (cluster (p s)))) eqn:Hcc.
    - destruct Hgate as [Hgate|Hgate]; [discriminate|].
      exists errorClusterConfigNoLocalHub. split; [|now right].
      assert (Hin : configByCluster (cluster (p s)) s
                    = Ret (Some errorClusterConfigNoLocalHub) s).
      { unfold configByCluster. rewrite Hcc. cbn [negb].
        rewrite (bind_Ret _ _ _ _ _ (isImageRepositoryReady_eq s)).
        destruct (GetCondition _ _) as [condition|] eqn:Hg; [|reflexivity].
        rewrite bool_decide_eq_false_2 by (now apply Hgate). reflexivity. }
      unfold checkClusterConfig. rewrite bind_get.
      now rewrite (bind_Ret _ _ _ _ _ Hin).
    - exists errorClusterConfigNotReady. split; [|now left].
      unfold checkClusterConfig. rewrite bind_get.
      unfold configByCluster. rewrite Hcc. reflexivity. }
  destruct Hcfg as (err & Heq & Herr). exists err. split; [|exact Herr].
  unfold handle. rewrite (bind_Ret _ _ _ _ _ Heq).
  destruct (decide (err = errorClusterConfigNotReady
                    ∨ err = errorClusterConfigNoLocalHub));
    [reflexivity|contradiction].
Qed.


(** Past the gate, [checkClusterConfig] only fills in fields of the
    handler: the package, the cluster and the download flag stay. *)
Lemma checkClusterConfig_ok s condition :
  ConfigCompleted (ClusterSpec (cluster (p s))) = true ->
  GetCondition RainbondClusterConditionTypeImageRepository
    (ClusterConditions (cluster (p s))) = Some condition ->
  ClusterConditionStatus condition = ConditionTrue ->
  exists h',
    checkClusterConfig E s = Ret None (setP h' s) /\
    pkg_ h' = pkg_ (p s) /\
    cluster h' = cluster (p s) /\
    downloadPackage h' = downloadPackage (p s) /\
    totalImageNum h' = totalImageNum (p s) /\
    length (images h') = 5%nat /\
    downloadImageDomain h' ≠ "".
Proof.
  intros Hcc Hg Hst.
  unfold checkClusterConfig. rewrite bind_get.
  unfold configByCluster. rewrite Hcc. cbn [negb].
  rewrite bind_assoc, (bind_Ret _ _ _ _ _ (isImageRepositoryReady_eq s)).
  rewrite Hg, bool_decide_eq_true_2 by exact Hst. cbn [negb].
  rewrite bind_assoc, bind_modify, bind_mret, bind_modify.
  eexists. split; [reflexivity|].
  simpl. repeat split; try reflexivity.
  destruct (decide (RainbondImageRepository _ = "")); [discriminate|auto].
Qed.

(** X11. The last transition.  Past the gate, with Init, DownloadPackage,
    UnpackPackage and PushImage all Completed, a pass of [handle] sets the
    Ready condition to Completed with progress 100; its only call is one
    status write. *)
Theorem handle_marks_ready s condition ii ci id cd iu cu ip cp ir cr :
  ConfigCompleted (ClusterSpec (cluster (p s))) = true ->
  GetCondition RainbondClusterConditionTypeImageRepository
    (ClusterConditions (cluster (p s))) = Some condition ->
  ClusterConditionStatus condition = ConditionTrue ->
  findCondition Init s = Some (ii, ci) -> Status ci = Completed ->
  findCondition DownloadPackage s = Some (id, cd) -> Status cd = Completed ->
  findCondition UnpackPackage s = Some (iu, cu) -> Status cu = Completed ->
  findCondition PushImage s = Some (ip, cp) -> Status cp = Completed ->
  findCondition Ready s = Some (ir, cr) ->
  exists e s' cr',
    handle E s = Ret e s' /\
    conditions s' = <[ir := cr']> (conditions s) /\
    Status cr' = Completed /\ Progress cr' = 100 /\
    trace (w s') = EvStatusUpdate (status s') :: trace (w s).
Proof.
  intros Hcc Hg Hst Hi Hci Hd Hcd Hu Hcu Hp Hcp Hr.
  destruct (checkClusterConfig_ok s condition Hcc Hg Hst)
    as (h' & Heq & Hpkg & _).
  unfold handle. rewrite (bind_Ret _ _ _ _ _ Heq).
  set (s1 := setP h' s).
  assert (Hcs : conditions s1 = conditions s)
    by (unfold conditions, status, s1; simpl; now rewrite Hpkg).
  assert (Hfind : forall t, findCondition t s1 = findCondition t s)
    by (intros t; unfold findCondition; now rewrite Hcs).
  (* Init is Completed already *)
  rewrite bind_Ret with (a := None) (s' := s1).
  2:{ unfold setInitStatus. rewrite bind_get, Hfind, Hi.
      destruct (decide (Status ci ≠ Completed)); [contradiction|reflexivity]. }
  (* no stage is left to run *)
  rewrite bind_Ret with (a := false) (s' := s1).
  2:{ unfold canDownload. rewrite bind_get, Hfind, Hd.
      destruct (decide (Status cd ≠ Completed)); [contradiction|reflexivity]. }
  rewrite bind_Ret with (a := false) (s' := s1).
  2:{ unfold canUnpack. rewrite bind_get, !Hfind, Hd, Hu.
      destruct (decide (Status cd ≠ Completed)); [contradiction|].
      destruct (decide (Status cu ≠ Completed)); [contradiction|reflexivity]. }
  rewrite bind_Ret with (a := false) (s' := s1).
  2:{ unfold canPushImage. rewrite bind_get, !Hfind, Hu, Hp.
      destruct (decide (Status cu ≠ Completed)); [contradiction|].
      destruct (decide (Status cp ≠ Completed)); [contradiction|reflexivity]. }
  rewrite bind_Ret with (a := true) (s' := s1).
  2:{ unfold canReady. rewrite bind_get, Hfind, Hp.
      rewrite bool_decide_eq_true_2 by exact Hcp. reflexivity. }
  assert (Hr1 : findCondition Ready s1 = Some (ir, cr)) by now rewrite Hfind.
  pose proof (findIn_Some _ _ _ _ _ Hr1) as (_ & _ & Hty).
  destruct (completeCondition_spec Ready s1 ir cr Hr1)
    as (e & s' & cr' & Hc & Hcs' & _ & _ & Hst' & Hp' & _ & _ & Htr & _).
  unfold completeCondition in Hc. rewrite Hty in Hc.
  exists e, s', cr'. split; [exact Hc|].
  split; [now rewrite Hcs', Hcs|]. repeat split; auto.
Qed.


(** ** The image distributor *)

(** X12. An image that is already there is not pulled.  When the image engine
    lists the source image, an attempt at it lists, tags and makes at most
    one push, and makes no other call. *)
Theorem pullTagPush_existing_image s remoteImage localImage repo n :
  reference.Parse (validDigest E) remoteImage = Some repo ->
  let imageFullName :=
    reference.Name repo +:+ ":" +:+
    (if decide (reference.tag repo = "") then "latest" else reference.tag repo) in
  imageList E (trace (w s)) imageFullName = inr (S n) ->
  exists r s' push,
    pullTagPush E remoteImage localImage s = Ret r s' /\
    trace (w s')
      = (push ++ EvImageTag remoteImage localImage
              :: EvImageList remoteImage imageFullName :: trace (w s))%list /\
    (push = [] \/ exists auth, push = [EvImagePush localImage auth]).
Proof.
  intros Hparse imageFullName Hlist.
  unfold pullTagPush, checkIfImageExists. rewrite Hparse.
  fold imageFullName.
  rewrite bind_assoc, (bind_Ret _ _ _ _ _ (call_eq _ s)).
  cbn [trace setTrace setW w]. rewrite Hlist.
  rewrite bind_mret. rewrite bool_decide_eq_true_2 by lia.
  rewrite bind_mret.
  unfold ImageTag. rewrite bind_assoc.
  erewrite bind_Ret by apply call_eq. rewrite bind_mret.
  cbn [trace setTrace setW w].
  destruct (imageTag E _ remoteImage localImage) as [err|].
  - eexists _, _, []. split; [reflexivity|]. split; [reflexivity|now left].
  - unfold imagePush. rewrite bind_assoc, bind_get, bind_assoc.
    erewrite bind_Ret by apply call_eq.
    cbn [trace setTrace setW w p].
    match goal with
    | |- context [imagePushR E ?h localImage ?a] =>
        destruct (imagePushR E h localImage a) as [err| |items]
    end; rewrite bind_mret;
      [| |destruct (decodeMessages items)];
      (eexists _, _, [_]; split; [reflexivity|];
       split; [reflexivity|right; eauto]).
Qed.


(** X13. An error in the stream of a push or a pull is never swallowed: the
    decoding loop succeeds exactly when every item is a message without an
    error field, and otherwise reports the first item that is not. *)
Theorem decodeMessages_spec items :
  (decodeMessages items = None <-> Forall cleanMessage items) /\
  (forall pre bad post,
     items = (pre ++ bad :: post)%list -> Forall cleanMessage pre ->
     ~ cleanMessage bad ->
     decodeMessages items
       = Some (match bad with
               | DecodeError e => "failed to decode json message: " +:+ e
               | JSONMessage _ (Some e) => "error detail: " +:+ e
               | JSONMessage _ None => ""
               end)).
Proof.
  split.
  - induction items as [|[stream [e|]|e] rest IH]; simpl.
    + split; auto.
    + split; [discriminate|]. intros H. inversion H as [|? ? Hc _]. destruct Hc.
    + rewrite IH. split; intros H; [constructor; [exact I|exact H]|].
      now inversion H.
    + split; [discriminate|]. intros H. inversion H as [|? ? Hc _]. destruct Hc.
  - intros pre. revert items.
    induction pre as [|x pre IH]; intros items bad post -> Hpre Hbad; simpl.
    + destruct bad as [stream [e|]|e]; try reflexivity.
      exfalso. apply Hbad. exact I.
    + inversion Hpre as [|? ? Hx Hrest]; subst.
      destruct x as [stream [e|]|e]; try destruct Hx.
      now apply (IH _ bad post).
Qed.

End Pass.

(** ** Names of loaded images *)

Lemma length_append s t :
  String.length (s +:+ t) = (String.length s + String.length t)%nat.
Proof. induction s as [|c s IH]; simpl; [reflexivity|now rewrite IH]. Qed.

Lemma substring_all t : substring 0 (String.length t) t = t.
Proof. induction t as [|c t IH]; simpl; [reflexivity|now rewrite IH]. Qed.

Lemma substring_append_r s t :
  substring (String.length s) (String.length t) (s +:+ t) = t.
Proof. induction s as [|c s IH]; simpl; [apply substring_all|exact IH]. Qed.

Lemma substring_append_l s t :
  substring 0 (String.length s) (s +:+ t) = s.
Proof.
  induction s as [|c s IH]; simpl; [now destruct t|now rewrite IH].
Qed.

Lemma HasSuffix_append s t : gostrings.HasSuffix (s +:+ t) t = true.
Proof.
  unfold gostrings.HasSuffix. rewrite length_append.
  replace (String.length s + String.length t - String.length t)%nat
    with (String.length s) by lia.
  rewrite substring_append_r, String.eqb_refl, andb_true_r.
  apply Nat.leb_le. lia.
Qed.

(** X14. [trimLatest] removes one trailing [:latest], and only that: what is in
    front of it comes back unchanged, even when it ends in [:latest]
    itself. *)
Theorem trimLatest_strips s : trimLatest (s +:+ ":latest") = s.
Proof.
  unfold trimLatest. rewrite HasSuffix_append. cbn [negb].
  rewrite length_append.
  replace (String.length s + String.length ":latest"
           - String.length ":latest")%nat
    with (String.length s) by lia.
  apply substring_append_l.
Qed.

Lemma replaceFrom_no_first a old new s :
  Forall (fun c => c ≠ a) (list_ascii_of_string s) ->
  gostrings.replaceFrom (String a old) new 0 s = s.
Proof.
  induction s as [|c s IH]; intros H; [reflexivity|].
  simpl in H. inversion H as [|? ? Hc Hrest]; subst.
  cbn [gostrings.replaceFrom gostrings.HasPrefix].
  destruct (Ascii.eqb a c) eqn:Heq;
    [apply Ascii.eqb_eq in Heq; congruence|].
  now rewrite IH.
Qed.

Lemma replaceFrom_newline_end s :
  Forall (fun c => c ≠ ascii_of_nat 10) (list_ascii_of_string s) ->
  gostrings.replaceFrom newline "" 0 (s +:+ newline) = s.
Proof.
  induction s as [|c s IH]; intros H; [reflexivity|].
  simpl in H. inversion H as [|? ? Hc Hrest]; subst.
  change (String c s +:+ newline) with (String c (s +:+ newline)).
  unfold newline at 1. cbn [gostrings.replaceFrom gostrings.HasPrefix].
  destruct (Ascii.eqb (ascii_of_nat 10) c) eqn:Heq;
    [apply Ascii.eqb_eq in Heq; congruence|].
  fold newline. now rewrite IH.
Qed.

Lemma HasPrefix_append t r : gostrings.HasPrefix (t +:+ r) t = true.
Proof.
  induction t as [|c t IH]; [now destruct r|].
  simpl. now rewrite Ascii.eqb_refl.
Qed.

Lemma Contains_prefix s sub :
  gostrings.HasPrefix s sub = true -> gostrings.Contains s sub = true.
Proof.
  intros H. destruct s; cbn [gostrings.Contains]; now rewrite H.
Qed.

Lemma replaceFrom_skip old new x rest :
  gostrings.replaceFrom old new (String.length x) (x +:+ rest)
    = gostrings.replaceFrom old new 0 rest.
Proof.
  induction x as [|c x IH]; simpl; [now destruct rest|exact IH].
Qed.

(** An occurrence of [old] at the front is replaced, and the replacement
    goes on behind it. *)
Lemma ReplaceAll_prefix old new rest :
  old ≠ "" ->
  gostrings.ReplaceAll (old +:+ rest) old new
    = new +:+ gostrings.ReplaceAll rest old new.
Proof.
  intros Hne. destruct old as [|a m]; [contradiction|].
  unfold gostrings.ReplaceAll.
  change (String a m +:+ rest) with (String a (m +:+ rest)).
  cbn [gostrings.replaceFrom gostrings.HasPrefix].
  rewrite Ascii.eqb_refl, HasPrefix_append.
  cbn [String.length]. rewrite Nat.sub_1_r. cbn [Nat.pred].
  now rewrite replaceFrom_skip.
Qed.

Lemma Forall_list_ascii_append P s t :
  Forall P (list_ascii_of_string s) -> Forall P (list_ascii_of_string t) ->
  Forall P (list_ascii_of_string (s +:+ t)).
Proof.
  induction s as [|c s IH]; simpl; intros Hs Ht; [exact Ht|].
  inversion Hs; subst. constructor; auto.
Qed.

(** X15. The line the image engine prints for a loaded image gives the name of
    the image: for a name without a capital L and without a line break,
    [parseImageName] of [Loaded image: name] and a line break is the name,
    less one trailing [:latest]. *)
Theorem parseImageName_loaded name :
  Forall (fun c => c ≠ "L"%char /\ c ≠ ascii_of_nat 10)
         (list_ascii_of_string name) ->
  parseImageName ("Loaded image: " +:+ name +:+ newline) = trimLatest name.
Proof.
  intros H.
  assert (HL : Forall (fun c => c ≠ "L"%char)
                 (list_ascii_of_string (name +:+ newline))).
  { apply Forall_list_ascii_append.
    - eapply Forall_impl; [exact H|]. now intros c [? ?].
    - repeat constructor. discriminate. }
  assert (Hn : Forall (fun c => c ≠ ascii_of_nat 10) (list_ascii_of_string name)).
  { eapply Forall_impl; [exact H|]. now intros c [? ?]. }
  unfold parseImageName.
  rewrite Contains_prefix by apply HasPrefix_append. cbn [negb].
  rewrite ReplaceAll_prefix by discriminate.
  unfold gostrings.ReplaceAll.
  rewrite (replaceFrom_no_first "L" "oaded image: " "" _ HL).
  change ("" +:+ name +:+ newline) with (name +:+ newline).
  now rewrite (replaceFrom_newline_end name Hn).
Qed.

(** ** Destination references, in general *)

Lemma Clean_nonempty path : gopath.Clean path ≠ "".
Proof.
  unfold gopath.Clean. destruct path as [|c rest]; [discriminate|].
  cbv zeta. destruct (Ascii.eqb c gopath.slash); [discriminate|].
  destruct (String.eqb _ "") eqn:Hb; [discriminate|].
  intros Heq. rewrite Heq in Hb. discriminate Hb.
Qed.

(** X16. [newImageWithNewDomain] returns the empty string, which its caller
    takes for a failure, exactly when the name of the image does not
    parse. *)
Theorem newImageWithNewDomain_empty_iff (E : Env) image newDomain :
  newImageWithNewDomain E image newDomain = ""
  <-> reference.Parse (validDigest E) image = None.
Proof.
  unfold newImageWithNewDomain.
  destruct (reference.Parse (validDigest E) image) as [repo|];
    [|split; reflexivity].
  split; [|discriminate]. intros H. exfalso. revert H.
  set (x := reference.Path repo +:+ ":" +:+ _).
  assert (Hx : x ≠ "") by (unfold x; destruct (reference.Path repo); discriminate).
  unfold gopath.Join. rewrite !filter_cons, filter_nil.
  destruct (decide (newDomain ≠ "")), (decide (x ≠ "")); try contradiction;
    apply Clean_nonempty.
Qed.

(** ** Counting images *)

(** X17. [countImages] counts the visits of the walk that met no error, are
    regular files and pass [validateFile]; below [2^31] of them the
    counter does not wrap, and the count is never negative. *)
Theorem countImages_counts visits :
  Z.of_nat (length (List.filter validVisit visits)) < 2 ^ 31 ->
  countImages visits = Z.of_nat (length (List.filter validVisit visits)) /\
  0 <= countImages visits <= Z.of_nat (length visits).
Proof.
  intros H. unfold countImages. rewrite countIn_spec by lia.
  split; [lia|]. split; [lia|].
  pose proof (List.filter_length_le validVisit visits) as Hle.
  simpl. lia.
Qed.

(** ** What a pass never changes *)

Section Invariant.

Variable E : Env.

Lemma pres_mret {S A B} (f : S -> B) (a : A) : pres (keeps f) (mret a).
Proof. intros s b s' H. inversion H; subst. reflexivity. Qed.

Lemma pres_bind {S A B C} (f : S -> C) (m : M S A) (k : A -> M S B) :
  pres (keeps f) m -> (forall a, pres (keeps f) (k a)) ->
  pres (keeps f) (m ≫= k).
Proof.
  intros Hm Hk s b s'. unfold mbind, M_bind.
  destruct (m s) as [a s1|] eqn:Heq; [|discriminate].
  intros H. unfold keeps. rewrite (Hk a _ _ _ H). exact (Hm _ _ _ Heq).
Qed.

Lemma pres_get_bind {S B C} (f : S -> C) (k : S -> M S B) :
  (forall s0, pres (keeps f) (k s0)) -> pres (keeps f) (get ≫= k).
Proof. intros Hk s b s' H. exact (Hk s _ _ _ H). Qed.

Lemma pres_modify {S C} (f : S -> C) (g : S -> S) :
  (forall s, f (g s) = f s) -> pres (keeps f) (modify g).
Proof. intros Hg s a s' H. inversion H; subst. apply Hg. Qed.

Lemma pres_div32 {S C} (f : S -> C) a b : pres (keeps f) (div32 a b).
Proof.
  unfold div32. destruct (decide (b = 0)); [discriminate|apply pres_mret].
Qed.

Lemma pres_Retry {S C} (f : S -> C) interval n g :
  pres (keeps f) g -> pres (keeps f) (Retry interval n g).
Proof.
  intros Hg. induction n as [|n IH]; simpl; [apply pres_mret|].
  apply pres_bind; [exact Hg|]. intros [[|] [e|]];
    try apply pres_mret; destruct n; try apply pres_mret; exact IH.
Qed.

Lemma pres_forRange {S A R C} (f : S -> C) (l : list A)
  (body : A -> M S (option R)) :
  (forall x, pres (keeps f) (body x)) -> pres (keeps f) (forRange l body).
Proof.
  intros Hb. induction l as [|x rest IH]; simpl; [apply pres_mret|].
  apply pres_bind; [apply Hb|]. intros [r|]; [apply pres_mret|exact IH].
Qed.

Lemma pres_liftL {L A C} (f : St -> C) (m : M St A) :
  pres (keeps f) m -> pres (keeps (fun ls : L * St => f ls.2)) (liftL m).
Proof.
  intros Hm [l s] a [l' s']. unfold liftL. simpl.
  destruct (m s) as [b s1|] eqn:Heq; [|discriminate].
  intros H. inversion H; subst. exact (Hm _ _ _ Heq).
Qed.

Lemma pres_withLocal {L A C} (f : St -> C) (l : L) (m : M (L * St) A) :
  pres (keeps (fun ls : L * St => f ls.2)) m -> pres (keeps f) (withLocal l m).
Proof.
  intros Hm s a s'. unfold withLocal.
  destruct (m (l, s)) as [b [l' s1]|] eqn:Heq; [|discriminate].
  intros H. inversion H; subst. exact (Hm _ _ _ Heq).
Qed.

(** The steps of the store and of the image engine keep what is given. *)
Lemma pres_step {A} quiet ok (m : M St A) :
  tot (step quiet ok) m -> pres (keeps given) m.
Proof.
  intros Hm s a s' H. destruct (Hm s) as (b & s1 & Heq & Hstep).
  rewrite H in Heq. inversion Heq; subst.
  destruct Hstep as [T1 _ _ _ T5 _ _].
  unfold keeps, given. rewrite T1.
  unfold handlerFields in T5. now inversion T5.
Qed.

(** One step of the proofs below, read off the shape of the computation. *)
Ltac pres_step :=
  lazymatch goal with
  | |- pres _ (mret _) => apply pres_mret
  | |- pres _ (get ≫= _) => apply pres_get_bind; intros ?
  | |- pres _ (_ ≫= _) => apply pres_bind; [|intros ?]
  | |- pres _ (match ?x with _ => _ end) => destruct x
  end.

Lemma pres_updateConditionStatus typ3 v :
  pres (keeps given) (updateConditionStatus E typ3 v).
Proof. eapply pres_step, (tot_updateConditionStatus E (fun _ => True)). Qed.

Lemma pres_updateConditionResion typ3 r m :
  pres (keeps given) (updateConditionResion E typ3 r m).
Proof.
  eapply pres_step, (tot_updateConditionResion E true (fun _ => True)).
Qed.

Lemma pres_updateConditionProgress typ3 progress :
  pres (keeps given) (updateConditionProgress E typ3 progress).
Proof.
  eapply pres_step, (tot_updateConditionProgress E true (fun _ => True)).
Qed.

Lemma pres_p_updateCRStatus : pres (keeps given) (p_updateCRStatus E).
Proof.
  eapply pres_step, (tot_p_updateCRStatus E true (fun _ => True)). auto.
Qed.

Lemma pres_call ev : pres (keeps given) (call ev).
Proof. eapply pres_step, (tot_call true (fun _ => True)). exact I. Qed.

Lemma pres_reportProgress typ3 progress :
  pres (keeps given) (reportProgress E typ3 progress).
Proof. eapply pres_step, (tot_reportProgress E true). Qed.

Lemma pres_completeCondition con : pres (keeps given) (completeCondition E con).
Proof.
  unfold completeCondition. destruct con as [[i c]|]; [|apply pres_mret].
  apply pres_bind; [apply pres_updateConditionStatus|intros _].
  apply pres_p_updateCRStatus.
Qed.

Lemma pres_runningCondition con : pres (keeps given) (runningCondition E con).
Proof.
  unfold runningCondition. destruct con as [[i c]|]; [|apply pres_mret].
  apply pres_bind; [apply pres_updateConditionStatus|intros _].
  apply pres_p_updateCRStatus.
Qed.

Lemma pres_checkClusterConfig : pres (keeps given) (checkClusterConfig E).
Proof.
  unfold checkClusterConfig, configByCluster, isImageRepositoryReady.
  repeat pres_step; try (apply pres_modify; intros; reflexivity).
Qed.

Lemma pres_setInitStatus : pres (keeps given) (setInitStatus E).
Proof.
  intros s a s'. unfold setInitStatus. rewrite bind_get.
  destruct (findCondition Init s) as [[i con]|] eqn:Hf;
    [|intros H; inversion H; reflexivity].
  destruct (decide (Status con ≠ Completed));
    [|intros H; inversion H; reflexivity].
  rewrite bind_modify. intros H.
  apply pres_p_updateCRStatus in H. unfold keeps in *. rewrite H.
  assert (Hm : map Type_ (<[i:=withCondStatus Completed con]> (conditions s))
               = map Type_ (conditions s)).
  { rewrite list_fmap_insert. apply list_insert_id.
    apply findIn_Some in Hf as (_ & Hl & _).
    replace (i - 0)%nat with i in Hl by lia.
    now rewrite list_lookup_fmap, Hl. }
  unfold given.
  change (conditions (setConditions ?cs s)) with cs.
  now rewrite Hm.
Qed.

Lemma pres_gatekeeper :
  pres (keeps given) (canDownload E) /\ pres (keeps given) (canUnpack E) /\
  pres (keeps given) canPushImage /\ pres (keeps given) canReady.
Proof.
  unfold canDownload, canUnpack, canPushImage, canReady.
  repeat split; repeat pres_step;
    auto using pres_completeCondition, pres_runningCondition.
Qed.


Lemma pres_Download : pres (keeps given) (Download E).
Proof.
  intros s a s' H. destruct (Download_spec E s) as (s1 & Heq & Hstep & _).
  rewrite H in Heq. inversion Heq; subst s1.
  eapply (pres_step true (fun _ => True)); [|exact H].
  intros s0. destruct (Download_spec E s0) as (s2 & Heq2 & Hstep2 & _). eauto.
Qed.

Lemma pres_donwnloadPackage : pres (keeps given) (donwnloadPackage E).
Proof.
  unfold donwnloadPackage.
  apply pres_bind; [eapply pres_step, tot_checkExisting|intros [|]];
    [apply pres_mret|].
  apply pres_bind; [apply pres_Download|intros [err|]]; [|apply pres_mret].
  apply pres_bind; [apply pres_updateConditionResion|intros _].
  apply pres_bind; [apply pres_p_updateCRStatus|intros _].
  apply pres_bind; [apply pres_Download|intros [err2|]]; apply pres_mret.
Qed.

Lemma pres_reportUnpack seen : pres (keeps given) (reportUnpack E seen).
Proof.
  induction seen as [|visits rest IH]; simpl; [apply pres_mret|].
  apply pres_get_bind; intros s0.
  apply pres_bind; [apply pres_div32|intros progress].
  apply pres_bind; [apply pres_reportProgress|intros _]. exact IH.
Qed.

Lemma pres_untartar : pres (keeps given) (untartar E).
Proof.
  unfold untartar. apply pres_get_bind; intros s0.
  apply pres_bind; [apply pres_call|intros h].
  destruct (openFile E h _); [apply pres_mret|].
  apply pres_bind; [apply pres_call|intros _].
  apply pres_bind; [apply pres_call|intros h'].
  apply pres_bind; [apply pres_reportUnpack|intros _].
  apply pres_bind; [|intros _; apply pres_mret].
  intros s a s' H. unfold liftW, modify in H. inversion H; subst. reflexivity.
Qed.

Lemma pres_pullAndPushLoop entries : forall count,
  pres (keeps given) (pullAndPushLoop E entries count).
Proof.
  induction entries as [|[old new] rest IH]; intros count; simpl;
    [apply pres_mret|].
  apply pres_get_bind; intros s0.
  apply pres_bind.
  { unfold handleImgae. apply pres_Retry.
    eapply pres_step, (tot_pullTagPush E true). }
  intros [err|]; [apply pres_mret|].
  apply pres_bind; [apply pres_modify; intros; reflexivity|intros _].
  apply pres_get_bind; intros s1.
  apply pres_bind; [apply pres_div32|intros progress].
  apply pres_bind; [apply pres_updateConditionProgress|intros [|]].
  - apply pres_bind; [apply pres_p_updateCRStatus|intros [err|]];
      [apply pres_mret|apply IH].
  - apply pres_bind; [apply pres_mret|intros [err|]];
      [apply pres_mret|apply IH].
Qed.

Lemma pres_imagePullAndPush : pres (keeps given) (imagePullAndPush E).
Proof.
  unfold imagePullAndPush. apply pres_get_bind; intros s0.
  apply pres_bind; [apply pres_modify; intros; reflexivity|intros _].
  apply pres_bind; [apply pres_modify; intros; reflexivity|intros _].
  apply pres_pullAndPushLoop.
Qed.

Lemma pres_loadTagPush pstr :
  pres (keeps (fun ls : Z * St => given ls.2)) (loadTagPush E pstr).
Proof.
  unfold loadTagPush.
  apply pres_bind;
    [apply pres_liftL; eapply pres_step, (tot_imageLoad E true)|].
  intros [err|image]; [apply pres_mret|].
  apply pres_bind; [apply pres_liftL; intros s a s' H; now inversion H|].
  intros s0. destruct (decide (_ = "")); [apply pres_mret|].
  apply pres_bind.
  { apply pres_liftL. eapply pres_step, (tot_ImageTag E true). }
  intros [err|]; [apply pres_mret|].
  apply pres_bind.
  { apply pres_liftL.
    eapply pres_step, (tot_imagePush E true image). }
  intros [err|]; [apply pres_mret|].
  apply pres_bind; [intros ls a ls' H; now inversion H|intros count].
  apply pres_bind; [intros ls a ls' H; now inversion H|intros _].
  apply pres_bind;
    [apply pres_liftL, pres_modify; intros; reflexivity|intros _].
  apply pres_bind; [apply pres_liftL; intros s a s' H; now inversion H|].
  intros s1.
  apply pres_bind; [apply pres_div32|intros progress].
  apply pres_bind; [apply pres_liftL, pres_updateConditionProgress|].
  intros changed.
  apply pres_bind.
  { apply pres_liftL. destruct changed;
      [apply pres_p_updateCRStatus|apply pres_mret]. }
  intros [err|]; apply pres_mret.
Qed.

Lemma pres_imagesLoadAndPush : pres (keeps given) (imagesLoadAndPush E).
Proof.
  unfold imagesLoadAndPush. apply pres_get_bind; intros s0.
  apply pres_bind; [apply pres_modify; intros; reflexivity|intros _].
  apply pres_bind; [apply pres_modify; intros; reflexivity|intros _].
  apply pres_withLocal, pres_forRange. intros v. unfold walkFn.
  destruct (visitErr v); [apply pres_mret|].
  destruct (negb (visitIsFile v)); [apply pres_mret|].
  destruct (negb (validateFile (visitPath v))); [apply pres_mret|].
  apply pres_Retry, pres_loadTagPush.
Qed.

Lemma pres_mark typ3 v r m {A} (k : M St A) :
  pres (keeps given) k ->
  pres (keeps given)
    (updateConditionStatus E typ3 v;; updateConditionResion E typ3 r m;;
     p_updateCRStatus E;; k).
Proof.
  intros Hk.
  apply pres_bind; [apply pres_updateConditionStatus|intros _].
  apply pres_bind; [apply pres_updateConditionResion|intros _].
  apply pres_bind; [apply pres_p_updateCRStatus|intros _]. exact Hk.
Qed.

Lemma pres_done typ3 :
  pres (keeps given)
    (updateConditionStatus E typ3 Completed;; p_updateCRStatus E).
Proof.
  apply pres_bind; [apply pres_updateConditionStatus|intros _].
  apply pres_p_updateCRStatus.
Qed.

(** X18. A pass of [handle] never adds, removes or reorders a condition, and
    never changes the spec of the package, the cluster it was given or its
    download flag: whatever the stages do and however they end, the stages
    of the conditions are afterwards what they were before. *)
Theorem handle_keeps_stages s r s' :
  handle E s = Ret r s' ->
  map Type_ (conditions s') = map Type_ (conditions s) /\
  PackageSpec (pkg_ (p s')) = PackageSpec (pkg_ (p s)) /\
  cluster (p s') = cluster (p s) /\
  downloadPackage (p s') = downloadPackage (p s).
Proof.
  intros H.
  assert (Hp : pres (keeps given) (handle E)).
  { destruct pres_gatekeeper as (Hd & Hu & Hpi & Hr).
    unfold handle.
    apply pres_bind; [apply pres_checkClusterConfig|intros [err|]].
    { destruct (decide _); [apply pres_mret|].
      apply pres_mark, pres_mret. }
    apply pres_bind; [apply pres_setInitStatus|intros [err|]].
    { apply pres_mark, pres_mret. }
    apply pres_bind; [exact Hd|intros [|]].
    { unfold downloadStage.
      apply pres_bind; [apply pres_donwnloadPackage|intros [err|]];
        [apply pres_mark, pres_mret|apply pres_done]. }
    apply pres_bind; [exact Hu|intros [|]].
    { unfold unpackStage.
      apply pres_bind; [apply pres_untartar|intros [err|]];
        [|apply pres_done].
      apply pres_mark. apply pres_get_bind; intros ?. apply pres_mret. }
    apply pres_bind; [exact Hpi|intros [|]].
    { unfold pushImageStage. apply pres_get_bind; intros s0.
      apply pres_bind.
      - destruct (downloadPackage (p s0)).
        + apply pres_bind; [apply pres_imagesLoadAndPush|intros [err|]];
            [apply pres_mark, pres_mret|apply pres_mret].
        + apply pres_bind; [apply pres_imagePullAndPush|intros [err|]];
            [apply pres_mark, pres_mret|apply pres_mret].
      - intros [err|]; [apply pres_mret|apply pres_done]. }
    apply pres_bind; [exact Hr|intros [|]];
      [apply pres_done|apply pres_mret]. }
  specialize (Hp _ _ _ H). unfold keeps, given in Hp.
  inversion Hp; auto.
Qed.


(** ** Pull and push, when it succeeds *)

Lemma keeps_p_call ev : pres (keeps p) (call ev).
Proof. intros s a s' H. rewrite call_eq in H. now inversion H. Qed.

(** An attempt at an image does not touch the handler. *)
Lemma keeps_p_pullTagPush remoteImage localImage :
  pres (keeps p) (pullTagPush E remoteImage localImage).
Proof.
  unfold pullTagPush, checkIfImageExists, imagePull, ImageTag, imagePush.
  repeat pres_step; try apply keeps_p_call.
Qed.

Lemma p_updateCRStatus_p s e s' :
  p_updateCRStatus E s = Ret e s' -> p s' = p s.
Proof.
  destruct (p_updateCRStatus_shape E s) as (e' & ap & Heq).
  rewrite Heq. intros H. now inversion H.
Qed.

(** The loop of [imagePullAndPush] when it runs to its end: every entry was
    pushed, and the progress is that of the last entry. *)
Lemma pullAndPushLoop_complete entries : forall count s s',
  pullAndPushLoop E entries count s = Ret None s' ->
  0 <= count ->
  (count + Z.of_nat (length entries)) * 100 < 2 ^ 31 ->
  ImagesPushed (status s')
    = (ImagesPushed (status s)
       ++ map (fun e => gopath.Join [pushImageDomain (p s); e.2]) entries)%list /\
  ImagesNumber (status s') = ImagesNumber (status s) /\
  handlerFields (p s') = handlerFields (p s) /\
  (entries ≠ [] ->
   forall i c, findCondition PushImage s = Some (i, c) ->
     exists c', findCondition PushImage s' = Some (i, c') /\
       Progress c'
         = Z.min (wrap32 (Z.quot ((count + Z.of_nat (length entries)) * 100)
                                 (ImagesNumber (status s)))) 100).
Proof.
  induction entries as [|[old new] rest IH]; intros count s s' H H0 Hlt.
  - simpl in H. inversion H; subst. rewrite app_nil_r.
    repeat split; auto. contradiction.
  - simpl in H. rewrite bind_get in H.
    unfold mbind at 1, M_bind at 1 in H.
    destruct (handleImgae E _ _ s) as [[err|] s1|] eqn:Hh;
      [cbv [mret M_ret] in H; discriminate H| |discriminate H].
    assert (Hp1 : p s1 = p s).
    { unfold handleImgae in Hh.
      exact (pres_Retry p _ _ _ (keeps_p_pullTagPush _ _) _ _ _ Hh). }
    rewrite bind_modify, bind_get in H.
    set (localImage := gopath.Join [pushImageDomain (p s); new]) in *.
    set (s2 := setImagesPushed (ImagesPushed (status s1) ++ [localImage]) s1) in *.
    assert (Hlen : Z.of_nat (length ((old, new) :: rest))
                   = 1 + Z.of_nat (length rest)) by (simpl length; lia).
    rewrite Hlen in *.
    rewrite (wrap32_small (count + 1)) in H by lia.
    rewrite (wrap32_small ((count + 1) * 100)) in H by lia.
    unfold div32 in H.
    destruct (decide (ImagesNumber (status s2) = 0)); [discriminate H|].
    rewrite bind_mret in H.
    destruct (updateConditionProgress_shape E PushImage
                (wrap32 (Z.quot ((count + 1) * 100) (ImagesNumber (status s2)))) s2)
      as (cs' & b & n' & Heq & Hty & _ & _ & Hf).
    rewrite (bind_Ret _ _ _ _ _ Heq) in H.
    set (s3 := setConditions cs' (setW (setTicks n' (w s2)) s2)) in *.
    unfold mbind at 1, M_bind at 1 in H.
    assert (Hstep : exists s4, p s4 = p s3 /\
              pullAndPushLoop E rest (count + 1) s4 = Ret None s').
    { destruct b; cbv beta iota in H.
      - destruct (p_updateCRStatus E s3) as [[err|] s4|] eqn:Hu;
          [cbv [mret M_ret] in H; discriminate H| |discriminate H].
        exists s4. split; [exact (p_updateCRStatus_p _ _ _ Hu)|exact H].
      - cbv [mret M_ret] in H. exists s3. split; [reflexivity|exact H]. }
    clear H. destruct Hstep as (s4 & Hp4 & H).
    assert (Hst3 : status s3
                   = {| Conditions := cs';
                        ImagesNumber := ImagesNumber (status s);
                        ImagesPushed := (ImagesPushed (status s) ++ [localImage])%list |}).
    { unfold s3, s2, status, conditions. simpl. unfold status. now rewrite Hp1. }
    assert (Hhf : handlerFields (p s4) = handlerFields (p s)).
    { rewrite Hp4. unfold s3, s2. simpl. now rewrite Hp1. }
    assert (Hdom : pushImageDomain (p s4) = pushImageDomain (p s)).
    { unfold handlerFields in Hhf. now inversion Hhf. }
    assert (Hst4 : status s4 = status s3) by (unfold status; now rewrite Hp4).
    assert (HN2 : ImagesNumber (status s2) = ImagesNumber (status s)).
    { unfold s2, status. simpl. unfold status. now rewrite Hp1. }
    destruct (IH (count + 1) s4 s' H ltac:(lia) ltac:(lia))
      as (Hpushed & Hnum & Hfields & Hprog).
    rewrite Hst4, Hst3 in Hpushed, Hnum. cbn [ImagesPushed ImagesNumber] in *.
    split; [rewrite Hpushed, Hdom; simpl; now rewrite <- app_assoc|].
    split; [exact Hnum|]. split; [congruence|].
    intros _ i c Hfc.
    assert (Hfc2 : findCondition PushImage s2 = Some (i, c)).
    { assert (Hc2 : conditions s2 = conditions s).
      { unfold s2, conditions, status. simpl. unfold conditions, status.
        now rewrite Hp1. }
      unfold findCondition in *. rewrite Hc2. exact Hfc. }
    destruct (Hf i c Hfc2) as (c3 & Hf3 & Hp3).
    assert (Hf4 : findCondition PushImage s4 = Some (i, c3)).
    { unfold findCondition, conditions. rewrite Hst4, Hst3. exact Hf3. }
    destruct rest as [|e2 rest'].
    + simpl in H. inversion H; subst s'. exists c3. split; [exact Hf4|].
      rewrite Hp3, HN2. simpl length.
      replace (count + (1 + Z.of_nat 0)) with (count + 1) by lia.
      generalize (wrap32 (Z.quot ((count + 1) * 100) (ImagesNumber (status s)))).
      intros x. clear. case_decide; lia.
    + destruct (Hprog ltac:(discriminate) i c3 Hf4) as (c' & Hf' & Hp').
      exists c'. split; [exact Hf'|]. rewrite Hp', Hst4, Hst3.
      cbn [ImagesNumber]. f_equal. f_equal. f_equal. lia.
Qed.

(** X19. When pull-and-push returns without error every image was pushed:
    [ImagesPushed] holds the destination of each entry of the image map, in
    the order the entries were visited, [ImagesNumber] is their number, and
    the progress of the PushImage condition is 100. *)
Theorem imagePullAndPush_complete s s' :
  imagePullAndPush E s = Ret None s' ->
  length (rangeOrder E (images (p s))) = length (images (p s)) ->
  Z.of_nat (length (images (p s))) * 100 < 2 ^ 31 ->
  ImagesPushed (status s')
    = map (fun e => gopath.Join [pushImageDomain (p s); e.2])
          (rangeOrder E (images (p s))) /\
  ImagesNumber (status s') = Z.of_nat (length (images (p s))) /\
  (images (p s) ≠ [] ->
   forall i c, findCondition PushImage s = Some (i, c) ->
     exists c', findCondition PushImage s' = Some (i, c') /\ Progress c' = 100).
Proof.
  intros H Hlen Hlt. unfold imagePullAndPush in H.
  rewrite bind_get, !bind_modify in H.
  set (n := Z.of_nat (length (images (p s)))) in *.
  rewrite (wrap32_small n) in H by (unfold n; lia).
  destruct (pullAndPushLoop_complete _ _ _ _ H ltac:(lia))
    as (Hpushed & Hnum & _ & Hprog).
  { rewrite Hlen. fold n. lia. }
  cbn in Hpushed, Hnum.
  split; [exact Hpushed|]. split; [exact Hnum|].
  intros Hne i c Hf.
  assert (Hn1 : 1 <= n).
  { unfold n. destruct (images (p s)); [contradiction|simpl length; lia]. }
  destruct (Hprog ltac:(intros Hnil; rewrite Hnil in Hlen; simpl in Hlen; lia)
              i c Hf) as (c' & Hf' & Hp').
  exists c'. split; [exact Hf'|]. rewrite Hp', Hlen. fold n. cbn.
  replace ((0 + n) * 100) with (100 * n) by lia.
  rewrite Z.quot_mul by lia. rewrite wrap32_small by lia. reflexivity.
Qed.

End Invariant.

(** ** No pass touches a package file *)

Section Online.

Variable E : Env.

Lemma grows_refl ok h : grows ok h h.
Proof. exists []. auto. Qed.

Lemma grows_trans ok h1 h2 h3 :
  grows ok h1 h2 -> grows ok h2 h3 -> grows ok h1 h3.
Proof.
  intros (n1 & -> & F1) (n2 & -> & F2). exists (n2 ++ n1)%list.
  rewrite app_assoc. split; [reflexivity|]. apply Forall_app; auto.
Qed.

Lemma grows_cons (ok : Event -> Prop) ev h : ok ev -> grows ok h (ev :: h).
Proof. intros H. exists [ev]. auto. Qed.

Lemma so_refl s : staysOnline s s.
Proof. intros H. split; [exact H|apply grows_refl]. Qed.

Lemma so_trans s1 s2 s3 :
  staysOnline s1 s2 -> staysOnline s2 s3 -> staysOnline s1 s3.
Proof.
  intros H1 H2 Hd. destruct (H1 Hd) as (Hd2 & G1).
  destruct (H2 Hd2) as (Hd3 & G2). split; [exact Hd3|].
  eapply grows_trans; eauto.
Qed.

Lemma so_mret {A} (a : A) : pres staysOnline (mret a).
Proof. intros s b s' H. inversion H; subst. apply so_refl. Qed.

Lemma so_bind {A B} (m : M St A) (k : A -> M St B) :
  pres staysOnline m -> (forall a, pres staysOnline (k a)) ->
  pres staysOnline (m ≫= k).
Proof.
  intros Hm Hk s b s'. unfold mbind, M_bind.
  destruct (m s) as [a s1|] eqn:Heq; [|discriminate].
  intros H. eapply so_trans; [exact (Hm _ _ _ Heq)|exact (Hk _ _ _ _ H)].
Qed.

(** Where the computation reads the state, the handler is known not to
    download. *)
Lemma so_get_bind {B} (k : St -> M St B) :
  (forall s0, downloadPackage (p s0) = false -> pres staysOnline (k s0)) ->
  pres staysOnline (get ≫= k).
Proof. intros Hk s b s' H Hd. exact (Hk s Hd s b s' H Hd). Qed.

Lemma so_modify (g : St -> St) :
  (forall s, downloadPackage (p (g s)) = downloadPackage (p s) /\
             trace (w (g s)) = trace (w s)) ->
  pres staysOnline (modify g).
Proof.
  intros Hg s a s' H Hd. inversion H; subst. destruct (Hg s) as (H1 & H2).
  rewrite H1, H2. split; [exact Hd|apply grows_refl].
Qed.

Lemma so_step {A} quiet (ok : Event -> Prop) (m : M St A) :
  (forall ev, ok ev -> online ev) ->
  tot (step quiet ok) m -> pres staysOnline m.
Proof.
  intros Hok Hm s a s' H Hd. destruct (Hm s) as (b & s1 & Heq & Hstep).
  rewrite H in Heq. inversion Heq; subst.
  destruct Hstep as [_ _ _ _ T5 _ (new & T7 & T8)].
  split.
  - unfold handlerFields in T5. inversion T5. congruence.
  - exists new. split; [exact T7|]. eapply Forall_impl; eauto.
Qed.

Lemma so_div32 a b : pres staysOnline (div32 a b).
Proof.
  unfold div32. destruct (decide (b = 0)); [discriminate|apply so_mret].
Qed.

Lemma so_Retry interval n g :
  pres staysOnline g -> pres staysOnline (Retry interval n g).
Proof.
  intros Hg. induction n as [|n IH]; simpl; [apply so_mret|].
  apply so_bind; [exact Hg|]. intros [[|] [e|]];
    try apply so_mret; destruct n; try apply so_mret; exact IH.
Qed.

Lemma online_statusUpdate st : online (EvStatusUpdate st).
Proof. exact I. Qed.

Lemma about_online remoteImage localImage ev :
  about remoteImage localImage ev -> online ev.
Proof. destruct ev; simpl; tauto. Qed.

Lemma so_updateConditionStatus typ3 v :
  pres staysOnline (updateConditionStatus E typ3 v).
Proof.
  eapply so_step, (tot_updateConditionStatus E online). auto.
Qed.

Lemma so_updateConditionResion typ3 r m :
  pres staysOnline (updateConditionResion E typ3 r m).
Proof.
  eapply so_step, (tot_updateConditionResion E true online). auto.
Qed.

Lemma so_updateConditionProgress typ3 progress :
  pres staysOnline (updateConditionProgress E typ3 progress).
Proof.
  eapply so_step, (tot_updateConditionProgress E true online). auto.
Qed.

Lemma so_p_updateCRStatus : pres staysOnline (p_updateCRStatus E).
Proof.
  eapply so_step, (tot_p_updateCRStatus E true online); auto.
  exact online_statusUpdate.
Qed.

Lemma so_mark typ3 v r m {A} (k : M St A) :
  pres staysOnline k ->
  pres staysOnline
    (updateConditionStatus E typ3 v;; updateConditionResion E typ3 r m;;
     p_updateCRStatus E;; k).
Proof.
  intros Hk.
  apply so_bind; [apply so_updateConditionStatus|intros _].
  apply so_bind; [apply so_updateConditionResion|intros _].
  apply so_bind; [apply so_p_updateCRStatus|intros _]. exact Hk.
Qed.

Lemma so_done typ3 v :
  pres staysOnline (updateConditionStatus E typ3 v;; p_updateCRStatus E).
Proof.
  apply so_bind; [apply so_updateConditionStatus|intros _].
  apply so_p_updateCRStatus.
Qed.

Lemma so_completeCondition con : pres staysOnline (completeCondition E con).
Proof.
  unfold completeCondition. destruct con as [[i c]|]; [|apply so_mret].
  apply so_bind; [apply so_updateConditionStatus|intros _].
  apply so_p_updateCRStatus.
Qed.

Lemma so_checkClusterConfig : pres staysOnline (checkClusterConfig E).
Proof.
  unfold checkClusterConfig, configByCluster, isImageRepositoryReady.
  apply so_get_bind; intros s0 _.
  destruct (negb (ConfigCompleted _)).
  - apply so_bind; [apply so_mret|intros [e|]]; [apply so_mret|].
    apply so_bind; [apply so_modify; intros; split; reflexivity|intros _].
    apply so_mret.
  - apply so_bind.
    + apply so_bind.
      * apply so_get_bind; intros s1 _. destruct (GetCondition _ _); apply so_mret.
      * intros ready. destruct (negb ready); [apply so_mret|].
        apply so_bind; [apply so_modify; intros; split; reflexivity|intros _].
        apply so_mret.
    + intros [e|]; [apply so_mret|].
      apply so_bind; [apply so_modify; intros; split; reflexivity|intros _].
      apply so_mret.
Qed.

Lemma so_setInitStatus : pres staysOnline (setInitStatus E).
Proof.
  unfold setInitStatus. apply so_get_bind; intros s0 _.
  destruct (findCondition Init s0) as [[i con]|]; [|apply so_mret].
  destruct (decide (Status con ≠ Completed)); [|apply so_mret].
  apply so_bind; [apply so_modify; intros; split; reflexivity|intros _].
  apply so_p_updateCRStatus.
Qed.

(** A handler that is not to download is refused the download stage and
    the unpack stage. *)
Lemma canDownload_refuses s b s1 :
  downloadPackage (p s) = false ->
  canDownload E s = Ret b s1 -> b = false /\ staysOnline s s1.
Proof.
  intros Hd. unfold canDownload. rewrite bind_get.
  destruct (findCondition DownloadPackage s) as [[i con]|];
    [|intros H; inversion H; split; [reflexivity|apply so_refl]].
  destruct (decide (Status con ≠ Completed));
    [|intros H; inversion H; split; [reflexivity|apply so_refl]].
  rewrite Hd. cbn [negb]. unfold mbind, M_bind.
  destruct (completeCondition E (Some (i, con)) s) as [e s2|] eqn:Hc;
    [|discriminate].
  intros H. inversion H; subst. split; [reflexivity|].
  exact (so_completeCondition _ _ _ _ Hc).
Qed.

Lemma canUnpack_refuses s b s1 :
  downloadPackage (p s) = false ->
  canUnpack E s = Ret b s1 -> b = false /\ staysOnline s s1.
Proof.
  intros Hd. unfold canUnpack. rewrite bind_get.
  destruct (findCondition DownloadPackage s) as [[i con]|];
    [|intros H; inversion H; split; [reflexivity|apply so_refl]].
  destruct (decide (Status con ≠ Completed));
    [intros H; inversion H; split; [reflexivity|apply so_refl]|].
  destruct (findCondition UnpackPackage s) as [[j uncon]|];
    [|intros H; inversion H; split; [reflexivity|apply so_refl]].
  destruct (decide (Status uncon ≠ Completed));
    [|intros H; inversion H; split; [reflexivity|apply so_refl]].
  rewrite Hd. cbn [negb]. unfold mbind, M_bind.
  destruct (completeCondition E (Some (j, uncon)) s) as [e s2|] eqn:Hc;
    [|discriminate].
  intros H. inversion H; subst. split; [reflexivity|].
  exact (so_completeCondition _ _ _ _ Hc).
Qed.

Lemma so_refused {B} (m : M St bool) (k : bool -> M St B) :
  (forall s b s1, downloadPackage (p s) = false -> m s = Ret b s1 ->
                  b = false /\ staysOnline s s1) ->
  pres staysOnline (k false) -> pres staysOnline (m ≫= k).
Proof.
  intros Hm Hk s b s' H Hd. unfold mbind, M_bind in H.
  destruct (m s) as [b0 s1|] eqn:Heq; [|discriminate].
  destruct (Hm _ _ _ Hd Heq) as (-> & Hso).
  exact (so_trans _ _ _ Hso (Hk _ _ _ H) Hd).
Qed.

Lemma so_pullAndPushLoop entries : forall count,
  pres staysOnline (pullAndPushLoop E entries count).
Proof.
  induction entries as [|[old new] rest IH]; intros count; simpl;
    [apply so_mret|].
  apply so_get_bind; intros s0 _.
  apply so_bind.
  { unfold handleImgae. apply so_Retry.
    eapply so_step, (tot_pullTagPush E true). apply about_online. }
  intros [err|]; [apply so_mret|].
  apply so_bind; [apply so_modify; intros; split; reflexivity|intros _].
  apply so_get_bind; intros s1 _.
  apply so_bind; [apply so_div32|intros progress].
  apply so_bind; [apply so_updateConditionProgress|intros [|]].
  - apply so_bind; [apply so_p_updateCRStatus|intros [err|]];
      [apply so_mret|apply IH].
  - apply so_bind; [apply so_mret|intros [err|]];
      [apply so_mret|apply IH].
Qed.

Lemma so_pushImageStage : pres staysOnline (pushImageStage E).
Proof.
  unfold pushImageStage. apply so_get_bind; intros s0 Hd. rewrite Hd.
  apply so_bind.
  - apply so_bind.
    + unfold imagePullAndPush. apply so_get_bind; intros s1 _.
      apply so_bind; [apply so_modify; intros; split; reflexivity|intros _].
      apply so_bind; [apply so_modify; intros; split; reflexivity|intros _].
      apply so_pullAndPushLoop.
    + intros [err|]; [apply so_mark|]; apply so_mret.
  - intros [err|]; [apply so_mret|apply so_done].
Qed.

Lemma so_handle : pres staysOnline (handle E).
Proof.
  unfold handle.
  apply so_bind; [apply so_checkClusterConfig|intros [err|]].
  { destruct (decide _); [apply so_mret|apply so_mark, so_mret]. }
  apply so_bind; [apply so_setInitStatus|intros [err|]];
    [apply so_mark, so_mret|].
  apply so_refused; [apply canDownload_refuses|].
  apply so_refused; [apply canUnpack_refuses|].
  apply so_bind.
  { unfold canPushImage. apply so_get_bind; intros s0 _.
    destruct (findCondition UnpackPackage s0) as [[i c]|]; [|apply so_mret].
    destruct (decide _); [apply so_mret|].
    destruct (findCondition PushImage s0) as [[j c']|]; [|apply so_mret].
    destruct (decide _); apply so_mret. }
  intros [|]; [apply so_pushImageStage|].
  apply so_bind.
  { unfold canReady. apply so_get_bind; intros s0 _.
    destruct (findCondition PushImage s0) as [[j c']|]; apply so_mret. }
  intros [|]; [apply so_done|apply so_mret].
Qed.

Lemma checkStatusCanReturn_trace k w1 r w2 :
  checkStatusCanReturn E k w1 = Ret r w2 -> trace w2 = trace w1.
Proof.
  unfold checkStatusCanReturn.
  destruct (decide (length (Conditions (PackageStatus k)) = 0%nat)).
  - unfold mbind, M_bind. rewrite initPackageStatus_eq. cbv zeta.
    intros H. inversion H; subst. reflexivity.
  - destruct (checkConditions _ 0) as [r'|n'];
      [|destruct (decide _)]; intros H; inversion H; reflexivity.
Qed.

Lemma updateCRStatus_grows k w1 e w2 :
  updateCRStatus E k w1 = Ret e w2 -> grows online (trace w1) (trace w2).
Proof.
  destruct (updateCRStatus_shape E k w1) as (e' & ap & Heq & _).
  rewrite Heq. intros H. inversion H; subst. simpl.
  apply grows_cons. exact I.
Qed.

(** X20. The controller never touches a package file.  Whatever the package,
    the cluster and the answers of the API server and of the image engine
    are, a pass of [Reconcile] that returns has added to the history only
    reads of the package and of the cluster, status writes, the creation
    of the image-engine client and list, pull, tag and push operations:
    it has opened, checked, transferred or unpacked no archive and loaded
    no image from a file.  The download and unpack stages and the loading
    branch of the push stage are unreachable from [Reconcile], whose
    handler is always made with the download flag unset. *)
Theorem Reconcile_stays_online w0 r w' :
  Reconcile E w0 = Ret r w' -> grows online (trace w0) (trace w').
Proof.
  unfold Reconcile, callW, record.
  rewrite bind_Ret with (a := trace w0)
                        (s' := setTrace (EvGetPackage :: trace w0) w0)
    by reflexivity.
  rewrite bind_get. simpl.
  assert (G1 : grows online (trace w0) (EvGetPackage :: trace w0))
    by (apply grows_cons; exact I).
  destruct (getPackageError E (trace w0));
    [intros H; inversion H; subst; exact G1|].
  destruct (apiPackage w0) as [k|]; [|intros H; inversion H; subst; exact G1].
  rewrite bind_Ret with (a := EvGetPackage :: trace w0)
    (s' := setTrace (EvGetCluster :: EvGetPackage :: trace w0) w0)
    by reflexivity.
  set (w1 := setTrace (EvGetCluster :: EvGetPackage :: trace w0) w0).
  assert (G2 : grows online (trace w0) (trace w1)).
  { eapply grows_trans; [exact G1|]. apply grows_cons. exact I. }
  destruct (match getClusterError E (EvGetPackage :: trace w0) with
            | Some _ => None | None => apiCluster w0 end) as [c|];
    [|intros H; inversion H; subst; exact G2].
  destruct (negb (ConfigCompleted (ClusterSpec c)));
    [intros H; inversion H; subst; exact G2|].
  assert (Hend : forall (m : M World (option error)) w2,
            (forall e w3, m w2 = Ret e w3 -> grows online (trace w2) (trace w3)) ->
            (m ≫= fun e => match e with
                           | Some _ => mret ({| RequeueAfter := 5 |}, None)
                           | None => mret ({| RequeueAfter := 0 |}, None)
                           end) w2 = Ret r w' ->
            grows online (trace w2) (trace w')).
  { intros m w2 Hm. unfold mbind, M_bind, mret, M_ret.
    destruct (m w2) as [[e|] w3|] eqn:Heq; intros H; inversion H; subst;
      exact (Hm _ _ eq_refl). }
  destruct (decide (InstallMode (ClusterSpec c) = InstallationModeFullOnline)).
  - unfold mbind at 1, M_bind at 1. rewrite initPackageStatus_eq. cbv zeta.
    intros H. eapply grows_trans; [exact G2|].
    apply Hend in H; [exact H|]. intros e0 w3. apply updateCRStatus_grows.
  - unfold mbind at 1, M_bind at 1.
    destruct (checkStatusCanReturn E k w1) as [[k' [[|] re]] w2|] eqn:Hchk;
      [| |discriminate]; cbn [fst snd];
      apply checkStatusCanReturn_trace in Hchk.
    + intros H. eapply grows_trans; [exact G2|]. rewrite <- Hchk.
      apply Hend in H; [exact H|]. intros e0 w3. apply updateCRStatus_grows.
    + destruct re as [res|];
        [intros H; inversion H; subst; rewrite Hchk; exact G2|].
      rewrite bind_Ret with (a := trace w2)
        (s' := setTrace (EvNewDockerClient :: trace w2) w2) by reflexivity.
      assert (G3 : grows online (trace w0) (EvNewDockerClient :: trace w2)).
      { eapply grows_trans; [exact G2|]. rewrite Hchk.
        apply grows_cons. exact I. }
      destruct (newDockerClient E (trace w2));
        [intros H; inversion H; subst; exact G3|].
      unfold mbind, M_bind, runPass.
      destruct (handle E _) as [e s2|] eqn:Hh; [|discriminate].
      apply so_handle in Hh. destruct (Hh eq_refl) as (_ & G4).
      intros H. eapply grows_trans; [exact G3|].
      destruct e; inversion H; subst; exact G4.
Qed.

End Online.

(** ** The further properties on the samples *)

Lemma Reconcile_in_flight_witness :
  let k := Sample.package
             (Sample.statusOf Completed Running Waiting Waiting Waiting) in
  let c := Sample.clusterOf Sample.withPackage in
  let w0 := Sample.world k c in
  Reconcile Sample.env w0
    = Ret ({| RequeueAfter := 0 |}, None)
          (setTrace (EvGetCluster :: EvGetPackage :: trace w0) w0).
Proof.
  intros k c w0.
  apply (Reconcile_in_flight Sample.env w0 k c
           [Sample.condition Init Completed]
           (Sample.condition DownloadPackage Running)
           [Sample.condition UnpackPackage Waiting;
            Sample.condition PushImage Waiting;
            Sample.condition Ready Waiting]);
    try reflexivity; try discriminate.
  constructor; [split; discriminate|constructor].
Defined.

Lemma Reconcile_all_completed_witness :
  let k := Sample.package
             (Sample.statusOf Completed Completed Completed Completed Completed) in
  let c := Sample.clusterOf Sample.withPackage in
  let w0 := Sample.world k c in
  Reconcile Sample.env w0
    = Ret ({| RequeueAfter := 0 |}, None)
          (setTrace (EvGetCluster :: EvGetPackage :: trace w0) w0).
Proof.
  intros k c w0.
  apply (Reconcile_all_completed Sample.env w0 k c);
    try reflexivity; try discriminate.
  repeat constructor.
Defined.

Lemma Reconcile_waits_for_cluster_witness :
  let k := Sample.package
             (Sample.statusOf Waiting Waiting Waiting Waiting Waiting) in
  let w0 := {| ticks := 0; trace := []; apiPackage := Some k;
               apiCluster := None; files := [] |} in
  Reconcile Sample.env w0
    = Ret ({| RequeueAfter := 3 |}, None)
          (setTrace (EvGetCluster :: EvGetPackage :: trace w0) w0).
Proof.
  intros k w0.
  apply (Reconcile_waits_for_cluster Sample.env w0 k); try reflexivity.
  right. left. reflexivity.
Defined.

Lemma Reconcile_no_error_witness :
  let k := Sample.package
             (Sample.statusOf Completed Completed Completed Waiting Waiting) in
  let w0 := Sample.world k (Sample.clusterOf Sample.withPackage) in
  getPackageError Sample.env (trace w0) = None /\
  exists res w',
    Reconcile Sample.env w0 = Ret (res, None) w' /\ RequeueAfter res = 8.
Proof.
  intros k w0. split; [reflexivity|].
  assert (H : exists res err w',
            Reconcile Sample.env w0 = Ret (res, err) w' /\ RequeueAfter res = 8)
    by (eexists _, _, _; vm_compute; split; reflexivity).
  destruct H as (res & err & w' & H & H8). exists res, w'.
  rewrite <- (Reconcile_no_error Sample.env w0 res err w' eq_refl H).
  split; [exact H|exact H8].
Defined.

Lemma Reconcile_full_online_witness :
  let k := Sample.package
             (Sample.statusOf Completed Failed Waiting Waiting Waiting) in
  let c := Sample.clusterOf InstallationModeFullOnline in
  let w0 := Sample.world k c in
  exists res w' st,
    Reconcile Sample.env w0 = Ret (res, None) w' /\
    trace w' = EvStatusUpdate st :: EvGetCluster :: EvGetPackage :: trace w0 /\
    map (fun x => (Type_ x, Status x, Progress x)) (Conditions st)
      = [(Init, Completed, 0); (DownloadPackage, Completed, 0);
         (UnpackPackage, Completed, 0); (PushImage, Completed, 0);
         (Ready, Completed, 0)] /\
    match statusUpdate Sample.env
            (EvGetCluster :: EvGetPackage :: trace w0) st with
    | None => res = {| RequeueAfter := 0 |} /\
              apiPackage w' = Some (withStatus st k)
    | Some _ => res = {| RequeueAfter := 5 |} /\ apiPackage w' = Some k
    end.
Proof.
  intros k c w0.
  apply (Reconcile_full_online Sample.env w0 k c); reflexivity.
Defined.

Lemma updateConditionResion_spec_witness :
  let s := Sample.state
             (Sample.package
                (Sample.statusOf Completed Running Waiting Waiting Waiting))
             true [] in
  let c := Sample.condition DownloadPackage Running in
  findCondition DownloadPackage s = Some (1%nat, c) /\
  exists s' c',
    updateConditionResion Sample.env DownloadPackage "timeout" "will retry" s
      = Ret tt s' /\
    conditions s' = <[1%nat := c']> (conditions s) /\
    Reason c' = "timeout" /\ Message c' = "will retry" /\
    LastHeartbeatTime c' = 1000 /\ Status c' = Running.
Proof.
  intros s c.
  assert (Hf : findCondition DownloadPackage s = Some (1%nat, c))
    by reflexivity.
  split; [exact Hf|].
  destruct (updateConditionResion_spec Sample.env DownloadPackage
              "timeout" "will retry" s 1%nat c Hf)
    as (s' & c' & Heq & Hcs & _ & Hr & Hm & Hh & Hs & _).
  exists s', c'. repeat split; assumption.
Defined.

Lemma store_missing_stage_witness :
  let s := Sample.state (Sample.package Sample.noConditions) false [] in
  findCondition PushImage s = None /\
  updateConditionStatus Sample.env PushImage Failed s = Ret tt s /\
  updateConditionResion Sample.env PushImage "denied" "push failure" s
    = Ret tt s /\
  updateConditionProgress Sample.env PushImage 50 s = Ret false s.
Proof.
  intros s. split; [reflexivity|].
  apply (store_missing_stage Sample.env PushImage Failed
           "denied" "push failure" 50 s).
  reflexivity.
Defined.

Lemma canDownload_skips_witness :
  let s := Sample.state
             (Sample.package
                (Sample.statusOf Completed Waiting Waiting Waiting Waiting))
             false [] in
  exists s' c',
    canDownload Sample.env s = Ret false s' /\
    conditions s' = <[1%nat := c']> (conditions s) /\
    findCondition DownloadPackage s' = Some (1%nat, c') /\
    Status c' = Completed /\ Progress c' = 100 /\
    nDownloads (trace (w s')) = nDownloads (trace (w s)).
Proof.
  intros s.
  apply (canDownload_skips Sample.env s 1%nat
           (Sample.condition DownloadPackage Waiting));
    [reflexivity|reflexivity|discriminate].
Defined.

Lemma canUnpack_skips_witness :
  let s := Sample.state
             (Sample.package
                (Sample.statusOf Completed Completed Waiting Waiting Waiting))
             false [] in
  exists s' u',
    canUnpack Sample.env s = Ret false s' /\
    conditions s' = <[2%nat := u']> (conditions s) /\
    findCondition UnpackPackage s' = Some (2%nat, u') /\
    Status u' = Completed /\ Progress u' = 100.
Proof.
  intros s.
  apply (canUnpack_skips Sample.env s 1%nat
           (Sample.condition DownloadPackage Completed) 2%nat
           (Sample.condition UnpackPackage Waiting));
    [reflexivity|reflexivity|reflexivity|reflexivity|discriminate].
Defined.

Lemma handle_precondition_gate_witness :
  let k := Sample.package
             (Sample.statusOf Waiting Waiting Waiting Waiting Waiting) in
  let s := {| p := newpkg k Mirror.noRepository;
              w := Sample.world k Mirror.noRepository |} in
  exists err,
    handle Sample.env s = Ret (Some err) s /\
    (err = errorClusterConfigNotReady \/ err = errorClusterConfigNoLocalHub).
Proof.
  intros k s. apply (handle_precondition_gate Sample.env s).
  right. intros condition H. discriminate H.
Defined.

Lemma handle_marks_ready_witness :
  let s := Sample.state
             (Sample.package
                (Sample.statusOf Completed Completed Completed Completed Waiting))
             false [] in
  exists e s' cr',
    handle Sample.env s = Ret e s' /\
    conditions s' = <[4%nat := cr']> (conditions s) /\
    Status cr' = Completed /\ Progress cr' = 100 /\
    trace (w s') = EvStatusUpdate (status s') :: trace (w s).
Proof.
  intros s.
  apply (handle_marks_ready Sample.env s
           {| ClusterConditionType := RainbondClusterConditionTypeImageRepository;
              ClusterConditionStatus := ConditionTrue |}
           0%nat (Sample.condition Init Completed)
           1%nat (Sample.condition DownloadPackage Completed)
           2%nat (Sample.condition UnpackPackage Completed)
           3%nat (Sample.condition PushImage Completed)
           4%nat (Sample.condition Ready Waiting)); reflexivity.
Defined.

Lemma pullTagPush_existing_image_witness :
  let s := Sample.state
             (Sample.package
                (Sample.statusOf Completed Completed Completed Running Waiting))
             false Mirror.imageMap in
  let remoteImage := "registry.example/rainbond/builder:v5.3.3" in
  let localImage := "goodrain.me/builder" in
  exists r s' push,
    pullTagPush Mirror.engine remoteImage localImage s = Ret r s' /\
    trace (w s')
      = (push ++ EvImageTag remoteImage localImage
              :: EvImageList remoteImage remoteImage :: trace (w s))%list /\
    (push = [] \/ exists auth, push = [EvImagePush localImage auth]).
Proof.
  intros s remoteImage localImage.
  assert (Hp : reference.Parse (validDigest Mirror.engine) remoteImage
               = Some {| reference.domain := "registry.example";
                         reference.path := "rainbond/builder";
                         reference.tag := "v5.3.3";
                         reference.digest := "" |})
    by (vm_compute; reflexivity).
  exact (pullTagPush_existing_image Mirror.engine s remoteImage localImage
           _ 0%nat Hp eq_refl).
Defined.

Lemma parseImageName_loaded_witness :
  parseImageName ("Loaded image: " +:+ "rbd-api:latest" +:+ newline)
    = trimLatest "rbd-api:latest".
Proof.
  apply (parseImageName_loaded "rbd-api:latest").
  repeat (constructor; [split; discriminate|]). constructor.
Defined.

Lemma countImages_counts_witness :
  countImages Sample.visits
    = Z.of_nat (length (List.filter validVisit Sample.visits)) /\
  0 <= countImages Sample.visits <= Z.of_nat (length Sample.visits).
Proof.
  assert (Hlt : Z.of_nat (length (List.filter validVisit Sample.visits)) < 2 ^ 31)
    by (vm_compute; reflexivity).
  exact (countImages_counts Sample.visits Hlt).
Defined.

Lemma handle_keeps_stages_witness :
  let s := Sample.state
             (Sample.package
                (Sample.statusOf Completed Completed Completed Waiting Waiting))
             false [] in
  exists r s',
    handle Sample.env s = Ret r s' /\
    map Type_ (conditions s')
      = [Init; DownloadPackage; UnpackPackage; PushImage; Ready] /\
    cluster (p s') = cluster (p s) /\
    downloadPackage (p s') = false.
Proof.
  intros s.
  assert (H : exists r s', handle Sample.env s = Ret r s')
    by (eexists _, _; vm_compute; reflexivity).
  destruct H as (r & s' & H). exists r, s'. split; [exact H|].
  destruct (handle_keeps_stages Sample.env s r s' H) as (Ht & _ & Hc & Hd).
  split; [rewrite Ht; reflexivity|]. split; [exact Hc|].
  rewrite Hd. reflexivity.
Defined.

Lemma imagePullAndPush_complete_witness :
  let s := Sample.state
             (Sample.package
                (Sample.statusOf Completed Completed Completed Running Waiting))
             false Mirror.imageMap in
  exists s' c',
    imagePullAndPush Mirror.engine s = Ret None s' /\
    ImagesPushed (status s') = ["goodrain.me/builder"; "goodrain.me/runner"] /\
    ImagesNumber (status s') = 2 /\
    findCondition PushImage s' = Some (3%nat, c') /\ Progress c' = 100.
Proof.
  intros s.
  assert (H : exists s', imagePullAndPush Mirror.engine s = Ret None s')
    by (eexists; vm_compute; reflexivity).
  destruct H as (s' & H).
  destruct (imagePullAndPush_complete Mirror.engine s s' H eq_refl eq_refl)
    as (Hpushed & Hnum & Hprog).
  destruct (Hprog ltac:(discriminate) 3%nat
              (Sample.condition PushImage Running) eq_refl)
    as (c' & Hf & Hp).
  exists s', c'. split; [exact H|].
  split; [rewrite Hpushed; vm_compute; reflexivity|].
  split; [rewrite Hnum; reflexivity|]. split; [exact Hf|exact Hp].
Defined.

Lemma Reconcile_stays_online_witness :
  let k := Sample.package
             (Sample.statusOf Completed Waiting Waiting Waiting Waiting) in
  let w0 := Sample.world k (Sample.clusterOf Sample.withPackage) in
  exists r w',
    Reconcile Mirror.engine w0 = Ret r w' /\
    grows online (trace w0) (trace w').
Proof.
  intros k w0.
  assert (H : exists r w', Reconcile Mirror.engine w0 = Ret r w')
    by (eexists _, _; vm_compute; reflexivity).
  destruct H as (r & w' & H). exists r, w'. split; [exact H|].
  exact (Reconcile_stays_online Mirror.engine w0 r w' H).
Defined.
